(** * MusicPad: the sound engine and the WAV encoder, embedded in Rocq

    Shallow embedding of
      - [src/audio/AudioEngine.ts] (class [HighPerformanceAudioEngine]):
        the layer map, the sustained-note registry, the one-shot triggers,
        the timers they set and the pitch utility [noteToFrequency];
      - [src/audio/WAVGenerator.ts] ([bufferToWAV]).

    JavaScript numbers are modelled by the real numbers (finite, exact
    arithmetic: no rounding, no overflow, no NaN among the inputs);
    [Math.pow] is [Rpower].  The samples of an [AudioBuffer] are modelled
    by rationals, so that the encoder can be run.  Tone.js nodes are
    records in a node store, connections are edges, [setTimeout] is a
    timer queue driven by an explicit clock, and a promise callback is a
    task waiting for the promise to settle. *)

From Stdlib Require Import Ascii String Reals QArith Qminmax Qabs Psatz.
From stdpp Require Import gmap strings list fin_maps.
From Stdlib Require Import DecimalString DecimalN Qround.

Local Open Scope string_scope.

(* ===================================================================== *)
(** * JavaScript values                                                   *)
(* ===================================================================== *)

Module JS.

(** The values a property read can produce in the code below: a number,
    NaN, [undefined], or a member inherited from [Object.prototype]
    (a function, or the prototype object itself for [__proto__]). *)
Inductive jsval : Type :=
| JNum (r : R)
| JNaN
| JUndefined
| JInherited (key : string).

(** The properties every object literal inherits from [Object.prototype]. *)
Definition object_prototype_keys : list string :=
  [ "constructor"; "hasOwnProperty"; "isPrototypeOf"; "propertyIsEnumerable";
    "toLocaleString"; "toString"; "valueOf"; "__proto__";
    "__defineGetter__"; "__defineSetter__"; "__lookupGetter__";
    "__lookupSetter__" ].

(** Own properties of an object literal whose values are numbers. *)
Fixpoint own_get (own : list (string * R)) (key : string) : option R :=
  match own with
  | [] => None
  | (k, v) :: rest => if String.eqb k key then Some v else own_get rest key
  end.

Definition inherited (key : string) : bool :=
  existsb (String.eqb key) object_prototype_keys.

(** [obj[key]] on an object literal: own property first, then the
    prototype chain, else [undefined]. *)
Definition js_get (own : list (string * R)) (key : string) : jsval :=
  match own_get own key with
  | Some v => JNum v
  | None => if inherited key then JInherited key else JUndefined
  end.

(** ToBoolean. *)
Definition truthy (v : jsval) : bool :=
  match v with
  | JNum r => if Req_dec_T r 0 then false else true
  | JNaN => false
  | JUndefined => false
  | JInherited _ => true
  end.

(** [v * r] for a number [r]: a non-number operand converts to NaN. *)
Definition js_mul (v : jsval) (r : R) : jsval :=
  match v with
  | JNum x => JNum (x * r)
  | _ => JNaN
  end.

(** [String.prototype.includes]. *)
Fixpoint includes (s sub : string) : bool :=
  match s with
  | EmptyString => String.prefix sub EmptyString
  | String _ rest => String.prefix sub s || includes rest sub
  end.

End JS.
Import JS.

(* ===================================================================== *)
(** * Pitch utility: [noteToFrequency]                                    *)
(* ===================================================================== *)

Module Pitch.

Definition simpleNoteMap : list (string * R) :=
  [ ("C4", 261.63%R); ("C#4", 277.18%R); ("D4", 293.66%R); ("D#4", 311.13%R);
    ("E4", 329.63%R); ("F4", 349.23%R); ("F#4", 369.99%R); ("G4", 392.00%R);
    ("G#4", 415.30%R); ("A4", 440.00%R); ("A#4", 466.16%R); ("B4", 493.88%R) ].

Definition noteOffsets : list (string * R) :=
  [ ("C", 0%R); ("C#", 1%R); ("D", 2%R); ("D#", 3%R); ("E", 4%R); ("F", 5%R);
    ("F#", 6%R); ("G", 7%R); ("G#", 8%R); ("A", 9%R); ("A#", 10%R); ("B", 11%R) ].

(** [[A-G]] and [\d] (without the unicode flag [\d] is [[0-9]]). *)
Definition is_note_letter (c : ascii) : bool :=
  let n := nat_of_ascii c in (65 <=? n)%nat && (n <=? 71)%nat.

Definition is_digit (c : ascii) : bool :=
  let n := nat_of_ascii c in (48 <=? n)%nat && (n <=? 57)%nat.

Fixpoint all_digits (s : string) : bool :=
  match s with
  | EmptyString => true
  | String c rest => is_digit c && all_digits rest
  end.

(** [\d+] up to the end of the string. *)
Definition digits1 (s : string) : bool :=
  match s with
  | EmptyString => false
  | String _ _ => all_digits s
  end.

(** [note.match(/^([A-G]#?)(\d+)$/)]: the two capture groups, or [None]
    when the string does not match. *)
Definition note_match (note : string) : option (string * string) :=
  match note with
  | EmptyString => None
  | String c rest =>
      if is_note_letter c then
        match rest with
        | String "#" rest' =>
            if digits1 rest' then Some (String c "#", rest') else None
        | _ => if digits1 rest then Some (String c "", rest) else None
        end
      else None
  end.

(** [parseInt] on a string of decimal digits. *)
Fixpoint parseInt_go (acc : Z) (s : string) : Z :=
  match s with
  | EmptyString => acc
  | String c rest => parseInt_go (10 * acc + (Z.of_nat (nat_of_ascii c) - 48)) rest
  end.

Definition parseInt (s : string) : Z := parseInt_go 0 s.

Definition A4_FREQ : R := 440%R.
Definition C4_FREQ : R := (A4_FREQ * Rpower 2 (-9 / 12))%R.

Definition noteToFrequency (note : string) : jsval :=
  let simple := js_get simpleNoteMap note in
  if truthy simple then simple
  else
    match note_match note with
    | None => JNum 440
    | Some (noteName, octaveStr) =>
        let octave := parseInt octaveStr in
        match js_get noteOffsets noteName with
        | JUndefined => JNum 440
        | JNum semitoneOffset =>
            let semitonesFromC4 := ((IZR octave - 4) * 12 + semitoneOffset)%R in
            JNum (C4_FREQ * Rpower 2 (semitonesFromC4 / 12))
        | _ => JNaN
        end
    end.

End Pitch.

(* ===================================================================== *)
(** * The audio graph: Tone.js nodes and their connections                *)
(* ===================================================================== *)

Module Graph.

(** What an [AmplitudeEnvelope] was last asked to do. *)
Inductive env_phase : Type :=
| EnvIdle
| EnvAttack                               (* triggerAttack() *)
| EnvAttackRelease (duration : string)    (* triggerAttackRelease(d) *)
| EnvRelease.                             (* triggerRelease() *)

Inductive node_kind : Type :=
| Oscillator (frequency : jsval) (type : string)
| Noise (type : string)
| AmplitudeEnvelope (attack decay sustain release : R) (phase : env_phase)
| Gain (gain : R)
| Filter (frequency : R) (type : string) (rolloff : option Z) (Q : option R)
| LFO (frequency : R).

Record node : Type := mkNode {
  kind : node_kind;
  started : bool;
  disposed : bool
}.

(** Where an output is plugged: another node's input, a node's
    [frequency] parameter, or the engine's master gain. *)
Inductive dest : Type :=
| ToNode (n : nat)
| ToFrequency (n : nat)
| ToMaster.

(** Nodes are referred to by their position in the store, in allocation
    order; a node is never removed from the store, only disposed. *)
Record graph : Type := mkGraph {
  nodes : list node;
  edges : list (nat * dest)
}.

Definition empty : graph := mkGraph [] [].

(** [new Tone.X(...)]. *)
Definition alloc (k : node_kind) (g : graph) : nat * graph :=
  (length (nodes g), mkGraph (nodes g ++ [mkNode k false false]) (edges g)).

(** [a.connect(d)]. *)
Definition connect (a : nat) (d : dest) (g : graph) : graph :=
  mkGraph (nodes g) (edges g ++ [(a, d)]).

(** [a.disconnect()]: drops every connection leaving [a]. *)
Definition disconnect (a : nat) (g : graph) : graph :=
  mkGraph (nodes g) (List.filter (fun ed => negb (Nat.eqb (fst ed) a)) (edges g)).

Definition update_node (f : node -> node) (i : nat) (g : graph) : graph :=
  mkGraph (alter f i (nodes g)) (edges g).

(** [n.start()]. *)
Definition start (i : nat) (g : graph) : graph :=
  update_node (fun n => mkNode (kind n) true (disposed n)) i g.

(** [n.dispose()]: the node is marked disposed and disconnected. *)
Definition dispose (i : nat) (g : graph) : graph :=
  disconnect i (update_node (fun n => mkNode (kind n) (started n) true) i g).

(** [if (!n.disposed) n.dispose()]. *)
Definition dispose_unless_disposed (i : nat) (g : graph) : graph :=
  match nodes g !! i with
  | Some n => if disposed n then g else dispose i g
  | None => g
  end.

Definition set_phase (p : env_phase) (n : node) : node :=
  match kind n with
  | AmplitudeEnvelope a d s r _ =>
      mkNode (AmplitudeEnvelope a d s r p) (started n) (disposed n)
  | _ => n
  end.

(** [gain.gain.setValueAtTime(v, Tone.now())]. *)
Definition set_gain (v : R) (n : node) : node :=
  match kind n with
  | Gain _ => mkNode (Gain v) (started n) (disposed n)
  | _ => n
  end.

(** [filter.frequency.setValueAtTime(v, Tone.now())]. *)
Definition set_cutoff (v : R) (n : node) : node :=
  match kind n with
  | Filter _ t ro q => mkNode (Filter v t ro q) (started n) (disposed n)
  | _ => n
  end.

(** [filter.Q.value = q]. *)
Definition set_Q (q : R) (n : node) : node :=
  match kind n with
  | Filter f t ro _ => mkNode (Filter f t ro (Some q)) (started n) (disposed n)
  | _ => n
  end.

(** [osc.frequency.setValueAtTime(v, Tone.now())]. *)
Definition set_frequency (v : jsval) (n : node) : node :=
  match kind n with
  | Oscillator _ t => mkNode (Oscillator v t) (started n) (disposed n)
  | _ => n
  end.

(** [n instanceof Tone.Oscillator]. *)
Definition is_oscillator (g : graph) (i : nat) : bool :=
  match nodes g !! i with
  | Some (mkNode (Oscillator _ _) _ _) => true
  | _ => false
  end.

(** The nodes plugged into the master bus. *)
Definition master_inputs (g : graph) : list nat :=
  omap (fun ed => match snd ed with ToMaster => Some (fst ed) | _ => None end)
       (edges g).

End Graph.

(* ===================================================================== *)
(** * The engine: [HighPerformanceAudioEngine]                            *)
(* ===================================================================== *)

Module Engine.
Import Graph.

Record AudioLayer : Type := mkLayer {
  id : string;
  name : string;
  volume : R;
  muted : bool;
  solo : bool;
  effects : list string
}.

(** [this.context.state]. *)
Inductive ctx_state : Type := Suspended | Running | Closed.

(** An entry of [sustainedNotes]; [baseFrequency] is [JUndefined] when
    the property is absent. *)
Record SustainedNote : Type := mkSustained {
  source : nat;
  envelope : nat;
  gain : nat;
  filter : nat;
  layerId : string;
  baseVolume : R;
  baseFrequency : jsval
}.

(** [synthParams] of [playAdvancedSynth]. *)
Record EnvelopeParams : Type := mkEnvelopeParams {
  attack : R; decay : R; sustain : R; release : R
}.

Record FilterParams : Type := mkFilterParams {
  f_frequency : R; f_type : option string; f_Q : R
}.

Record ModulationParams : Type := mkModulationParams {
  m_frequency : R; m_type : string
}.

Record SynthParams : Type := mkSynthParams {
  p_oscillator : string;
  p_envelope : EnvelopeParams;
  p_filter : option FilterParams;
  p_modulation : option ModulationParams
}.

(** The callbacks handed to [setTimeout], with what they captured. *)
Inductive timer_action : Type :=
| CleanupDrum (source envelope gain : nat)
| CleanupNote (osc envelope gain : nat)
| CleanupSustained (noteId : string) (note : SustainedNote)
| CleanupSynth (osc envelope gain effectChain : nat).

(** The callbacks handed to [context.resume().then] and
    [Tone.start().then]. *)
Inductive task : Type :=
| RetrySample (sampleId layerId : string) (velocity : R)
| RetrySynth (frequency : R) (layerId : string) (velocity : R)
             (instrumentType : string) (synthParams : option SynthParams).

(** The engine together with the part of the browser it acts on: the
    millisecond clock read by [Date.now()], the timer queue and the
    callbacks waiting for the audio context to resume.  [bufferPool]
    maps a sample id to the [loaded] flag of its buffer.  The master gain
    and the limiter behind it are fixed and are not nodes of the store:
    [ToMaster] is the input of the master gain. *)
Record engine : Type := mkEngine {
  context : ctx_state;
  layers : gmap string AudioLayer;
  activeSources : gmap string (list nat);
  bufferPool : gmap string bool;
  globalInstrumentVolume : R;
  sustainedNotes : gmap string SustainedNote;
  audio : graph;
  clock : N;
  timers : list (N * timer_action);
  pending : list task
}.

Definition with_context (c : ctx_state) (e : engine) : engine :=
  mkEngine c (layers e) (activeSources e) (bufferPool e)
           (globalInstrumentVolume e) (sustainedNotes e) (audio e) (clock e)
           (timers e) (pending e).

Definition with_layers (l : gmap string AudioLayer) (e : engine) : engine :=
  mkEngine (context e) l (activeSources e) (bufferPool e)
           (globalInstrumentVolume e) (sustainedNotes e) (audio e) (clock e)
           (timers e) (pending e).

Definition with_sustainedNotes (m : gmap string SustainedNote) (e : engine)
  : engine :=
  mkEngine (context e) (layers e) (activeSources e) (bufferPool e)
           (globalInstrumentVolume e) m (audio e) (clock e)
           (timers e) (pending e).

Definition with_audio (g : graph) (e : engine) : engine :=
  mkEngine (context e) (layers e) (activeSources e) (bufferPool e)
           (globalInstrumentVolume e) (sustainedNotes e) g (clock e)
           (timers e) (pending e).

Definition with_timers (q : list (N * timer_action)) (e : engine) : engine :=
  mkEngine (context e) (layers e) (activeSources e) (bufferPool e)
           (globalInstrumentVolume e) (sustainedNotes e) (audio e) (clock e)
           q (pending e).

Definition with_pending (p : list task) (e : engine) : engine :=
  mkEngine (context e) (layers e) (activeSources e) (bufferPool e)
           (globalInstrumentVolume e) (sustainedNotes e) (audio e) (clock e)
           (timers e) p.

Definition with_clock (t : N) (e : engine) : engine :=
  mkEngine (context e) (layers e) (activeSources e) (bufferPool e)
           (globalInstrumentVolume e) (sustainedNotes e) (audio e) t
           (timers e) (pending e).

(** The constructor: no layer, no sample, no note, an empty graph. *)
Definition new (state : ctx_state) (now : N) : engine :=
  mkEngine state ∅ ∅ ∅ 0.5%R ∅ Graph.empty now [] [].

(** ** Timers *)

(** The queue is kept in firing order: by due time, and among equal due
    times in the order of the [setTimeout] calls. *)
Fixpoint schedule (due : N) (a : timer_action) (q : list (N * timer_action))
  : list (N * timer_action) :=
  match q with
  | [] => [(due, a)]
  | (d, b) :: rest =>
      if (d <=? due)%N then (d, b) :: schedule due a rest
      else (due, a) :: q
  end.

Definition setTimeout (a : timer_action) (ms : N) (e : engine) : engine :=
  with_timers (schedule (clock e + ms)%N a (timers e)) e.

Definition run_timer (a : timer_action) (e : engine) : engine :=
  match a with
  | CleanupDrum src env gn =>
      with_audio
        (dispose_unless_disposed gn
           (dispose_unless_disposed env
              (dispose_unless_disposed src (audio e)))) e
  | CleanupNote osc env gn =>
      with_audio (dispose gn (dispose env (dispose osc (audio e)))) e
  | CleanupSustained noteId note =>
      let g :=
        dispose_unless_disposed (filter note)
          (dispose_unless_disposed (gain note)
             (dispose_unless_disposed (envelope note)
                (dispose_unless_disposed (source note) (audio e)))) in
      with_sustainedNotes (delete noteId (sustainedNotes e)) (with_audio g e)
  | CleanupSynth osc env gn effectChain =>
      let g := dispose gn (dispose env (dispose osc (audio e))) in
      with_audio (if Nat.eqb effectChain env then g else dispose effectChain g) e
  end.

Definition is_due (t : N) (x : N * timer_action) : bool := (fst x <=? t)%N.

(** The clock moves forward by [ms] milliseconds with no call into the
    engine: every timer that falls due fires, in queue order. *)
Definition advance (ms : N) (e : engine) : engine :=
  let t := (clock e + ms)%N in
  let due := List.filter (is_due t) (timers e) in
  let later := List.filter (fun x => negb (is_due t x)) (timers e) in
  fold_left (fun e' x => run_timer (snd x) e') due
            (with_timers later (with_clock t e)).

(** ** Layers *)

Definition addLayer (layer : AudioLayer) (e : engine) : engine :=
  mkEngine (context e) (<[id layer := layer]> (layers e))
           (<[id layer := []]> (activeSources e)) (bufferPool e)
           (globalInstrumentVolume e) (sustainedNotes e) (audio e) (clock e)
           (timers e) (pending e).

Definition hasLayer (layerId : string) (e : engine) : bool :=
  bool_decide (is_Some (layers e !! layerId)).

Definition updateLayerVolume (layerId : string) (v : R) (e : engine) : engine :=
  match layers e !! layerId with
  | Some l =>
      with_layers
        (<[layerId := mkLayer (id l) (name l) v (muted l) (solo l) (effects l)]>
           (layers e)) e
  | None => e
  end.

Definition toggleLayerMute (layerId : string) (e : engine) : engine :=
  match layers e !! layerId with
  | Some l =>
      with_layers
        (<[layerId := mkLayer (id l) (name l) (volume l) (negb (muted l))
                              (solo l) (effects l)]> (layers e)) e
  | None => e
  end.

Definition updateGlobalInstrumentVolume (v : R) (e : engine) : engine :=
  mkEngine (context e) (layers e) (activeSources e) (bufferPool e)
           v (sustainedNotes e) (audio e) (clock e) (timers e) (pending e).

(** [dispose()]: the layer map, the active sources and the sample pool
    are cleared; the sustained-note registry is not touched. *)
Definition dispose (e : engine) : engine :=
  mkEngine (context e) ∅ ∅ ∅
           (globalInstrumentVolume e) (sustainedNotes e) (audio e) (clock e)
           (timers e) (pending e).

(** [clearLayer]: the sources listed for the layer are disposed and the
    list is emptied (no trigger below ever adds to that list). *)
Definition clearLayer (layerId : string) (e : engine) : engine :=
  match activeSources e !! layerId with
  | Some sources =>
      mkEngine (context e) (layers e) (<[layerId := []]> (activeSources e))
               (bufferPool e) (globalInstrumentVolume e) (sustainedNotes e)
               (fold_left (fun g i => Graph.dispose i g) sources (audio e))
               (clock e) (timers e) (pending e)
  | None => e
  end.

(** [loadSample], once the download has settled: [ok] tells whether the
    buffer came back loaded and non-empty.  A failed load leaves the id
    out of the pool. *)
Definition loadSample (sampleId : string) (ok : bool) (e : engine) : engine :=
  match bufferPool e !! sampleId with
  | Some _ => e
  | None =>
      if ok then
        mkEngine (context e) (layers e) (activeSources e)
                 (<[sampleId := true]> (bufferPool e))
                 (globalInstrumentVolume e) (sustainedNotes e) (audio e)
                 (clock e) (timers e) (pending e)
      else e
  end.

(** ** One-shot triggers *)

(** [createDrumSound]. *)
Definition createDrumSound (type : string) : node_kind :=
  if String.eqb type "kick" then Oscillator (JNum 60) "sine"
  else if String.eqb type "snare" || String.eqb type "hihat"
          || String.eqb type "openhat" || String.eqb type "crash"
       then Noise "white"
  else if String.eqb type "ride" then Oscillator (JNum 800) "triangle"
  else if String.eqb type "tom1" then Oscillator (JNum 120) "sine"
  else if String.eqb type "tom2" then Oscillator (JNum 80) "sine"
  else Oscillator (JNum 440) "sine".

(** [playSyntheticDrum]. *)
Definition playSyntheticDrum (drumType : string) (vol : R) (e : engine)
  : engine :=
  let g0 := audio e in
  let '(src, g1) := alloc (createDrumSound drumType) g0 in
  let hat := includes drumType "hat" in
  let kick := String.eqb drumType "kick" in
  let '(env, g2) :=
    alloc (AmplitudeEnvelope 0.01
             (if kick then 0.2 else if hat then 0.05 else 0.1) 0
             (if kick then 0.3 else if hat then 0.02 else 0.2) EnvIdle)%R g1 in
  let '(gn, g3) := alloc (Gain (Rmin (vol * 0.5) 0.8)) g2 in
  let g4 := connect gn ToMaster (connect env (ToNode gn)
              (connect src (ToNode env) g3)) in
  let g5 :=
    if hat || String.eqb drumType "snare" then
      let '(flt, g) :=
        alloc (Filter (if String.eqb drumType "snare" then 2000 else 8000)%R
                      "highpass" None None) g4 in
      connect flt (ToNode gn) (connect env (ToNode flt) (disconnect env g))
    else g4 in
  let g6 := Graph.start src g5 in
  let g7 := update_node (set_phase (EnvAttackRelease "8n")) env g6 in
  setTimeout (CleanupDrum src env gn) 1000 (with_audio g7 e).

(** [playSampleInternal].  The function returns right after the call of
    [playSyntheticDrum]: the statements that follow that [return] in the
    source (the lookup result [buffer] being used, a [Tone.Player] being
    built) are never executed. *)
Definition playSampleInternal (sampleId layerId : string) (velocity : R)
           (e : engine) : engine :=
  match layers e !! layerId with
  | None => e
  | Some layer =>
      if muted layer then e
      else
        let buffer := bufferPool e !! sampleId in
        playSyntheticDrum sampleId (velocity * volume layer) e
  end.

(** [context.resume().then(cb)] and [Tone.start().then(cb)]: the callback
    waits until the promise settles. *)
Definition on_resumed (t : task) (e : engine) : engine :=
  with_pending (pending e ++ [t]) e.

(** [playSample].  Nothing in the model throws, so the [catch] branch of
    the source has no counterpart here. *)
Definition playSample (sampleId layerId : string) (velocity : R) (e : engine)
  : engine :=
  match layers e !! layerId with
  | None => e
  | Some layer =>
      if muted layer then e
      else
        match context e with
        | Suspended => on_resumed (RetrySample sampleId layerId velocity) e
        | Closed => on_resumed (RetrySample sampleId layerId velocity) e
        | Running => playSampleInternal sampleId layerId velocity e
        end
  end.

(** [playSyntheticNote]. *)
Definition playSyntheticNote (note layerId : string) (velocity : R)
           (e : engine) : engine :=
  match layers e !! layerId with
  | None => e
  | Some layer =>
      if muted layer then e
      else
        let frequency := Pitch.noteToFrequency note in
        let '(osc, g1) := alloc (Oscillator frequency "sine") (audio e) in
        let '(env, g2) :=
          alloc (AmplitudeEnvelope 0.001 0.1 0.6 0.2 EnvIdle)%R g1 in
        let '(gn, g3) := alloc (Gain (velocity * volume layer * 0.3)) g2 in
        let g4 := connect gn ToMaster (connect env (ToNode gn)
                    (connect osc (ToNode env) g3)) in
        let g5 := Graph.start osc g4 in
        let g6 := update_node (set_phase (EnvAttackRelease "4n")) env g5 in
        setTimeout (CleanupNote osc env gn) 2000 (with_audio g6 e)
  end.

Definition default_params : SynthParams :=
  mkSynthParams "sine" (mkEnvelopeParams 0.1 0.2 0.6 0.8)%R None None.

(** [playAdvancedSynthInternal]. *)
Definition playAdvancedSynthInternal (frequency : R) (layerId : string)
           (velocity : R) (instrumentType : string)
           (synthParams : option SynthParams) (e : engine) : engine :=
  match layers e !! layerId with
  | None => e
  | Some layer =>
      if muted layer then e
      else
        let params := default default_params synthParams in
        let inst t := String.eqb instrumentType t in
        let osc_kind :=
          if inst "piano" then Oscillator (JNum frequency) "triangle"
          else if inst "bass" then Oscillator (JNum (frequency / 2)) (p_oscillator params)
          else if inst "lead" then Oscillator (JNum frequency) (p_oscillator params)
          else if inst "pad" then Oscillator (JNum frequency) (p_oscillator params)
          else if inst "strings" then Oscillator (JNum frequency) "sawtooth"
          else if inst "winds" then Oscillator (JNum frequency) "sine"
          else Oscillator (JNum frequency) (p_oscillator params) in
        let '(osc, g1) := alloc osc_kind (audio e) in
        let ep := p_envelope params in
        let '(env, g2) :=
          alloc (AmplitudeEnvelope (attack ep) (decay ep) (sustain ep)
                                   (release ep) EnvIdle) g1 in
        let finalVolume := (velocity * volume layer * globalInstrumentVolume e)%R in
        let '(gn, g3) := alloc (Gain finalVolume) g2 in
        let '(effectChain, g4) :=
          match p_filter params with
          | Some fp =>
              let '(flt, g) :=
                alloc (Filter (f_frequency fp) (default "lowpass" (f_type fp))
                              None None) g3 in
              (flt, connect env (ToNode flt) (update_node (set_Q (f_Q fp)) flt g))
          | None => (env, g3)
          end in
        let g5 :=
          match p_modulation params with
          | Some mp =>
              if inst "strings" || inst "winds" then
                let '(lfo, g) := alloc (LFO (m_frequency mp)) g4 in
                if String.eqb (m_type mp) "vibrato"
                then Graph.start lfo (connect lfo (ToFrequency osc) g)
                else g
              else g4
          | None => g4
          end in
        let g6 := connect gn ToMaster (connect effectChain (ToNode gn)
                    (connect osc (ToNode env) g5)) in
        let g7 := Graph.start osc g6 in
        let duration :=
          if inst "piano" then "1n" else if inst "pad" then "2n"
          else if inst "bass" then "4n" else "8n" in
        let g8 := update_node (set_phase (EnvAttackRelease duration)) env g7 in
        let cleanupTime :=
          if inst "piano" then 6000%N else if inst "pad" then 4000%N else 2000%N in
        setTimeout (CleanupSynth osc env gn effectChain) cleanupTime
                   (with_audio g8 e)
  end.

(** [playAdvancedSynth]: the suspension check comes before the layer
    lookup, which is made in [playAdvancedSynthInternal]. *)
Definition playAdvancedSynth (frequency : R) (layerId : string) (velocity : R)
           (instrumentType : string) (synthParams : option SynthParams)
           (e : engine) : engine :=
  match context e with
  | Suspended =>
      on_resumed (RetrySynth frequency layerId velocity instrumentType synthParams) e
  | _ => playAdvancedSynthInternal frequency layerId velocity instrumentType
                                   synthParams e
  end.

Definition run_task (t : task) (e : engine) : engine :=
  match t with
  | RetrySample sampleId layerId velocity =>
      playSampleInternal sampleId layerId velocity e
  | RetrySynth frequency layerId velocity instrumentType synthParams =>
      playAdvancedSynthInternal frequency layerId velocity instrumentType
                                synthParams e
  end.

(** The promises settle.  With no callback waiting nothing was asked of
    the context and nothing happens; a closed context rejects the
    promises and the callbacks are dropped; otherwise the context is
    running and the callbacks run in the order they were registered. *)
Definition settle (e : engine) : engine :=
  match pending e with
  | [] => e
  | tasks =>
      match context e with
      | Closed => with_pending [] e
      | _ =>
          fold_left (fun e' t => run_task t e') tasks
                    (with_pending [] (with_context Running e))
      end
  end.

(** ** Sustained notes *)

(** The template string [`${layerId}-${what}-${Date.now()}`]. *)
Definition sustain_id (layerId what : string) (now : N) : string :=
  layerId ++ "-" ++ what ++ "-" ++ NilZero.string_of_uint (N.to_uint now).

(** [startSustainedNote]: the id returned, and the engine afterwards. *)
Definition startSustainedNote (note layerId : string) (initialVelocity : R)
           (e : engine) : string * engine :=
  match layers e !! layerId with
  | None => ("", e)
  | Some layer =>
      if muted layer then ("", e)
      else
        let noteId := sustain_id layerId note (clock e) in
        let frequency := Pitch.noteToFrequency note in
        let '(oscillator, g1) := alloc (Oscillator frequency "sine") (audio e) in
        let '(env, g2) :=
          alloc (AmplitudeEnvelope 0.001 0.05 0.9 0.1 EnvIdle)%R g1 in
        let '(gn, g3) := alloc (Gain (initialVelocity * volume layer * 0.4)) g2 in
        let '(flt, g4) :=
          alloc (Filter (2000 + initialVelocity * 2000) "lowpass"
                        (Some (-24)%Z) None) g3 in
        let g5 := connect gn ToMaster (connect env (ToNode gn)
                    (connect flt (ToNode env)
                       (connect oscillator (ToNode flt) g4))) in
        let g6 := Graph.start oscillator g5 in
        let g7 := update_node (set_phase EnvAttack) env g6 in
        let entry :=
          mkSustained oscillator env gn flt layerId (volume layer * 0.4)
                      frequency in
        (noteId,
         with_sustainedNotes (<[noteId := entry]> (sustainedNotes e))
                             (with_audio g7 e))
  end.

(** [modulateSustainedNote]. *)
Definition modulateSustainedNote (noteId : string) (pressure : R)
           (e : engine) : engine :=
  match sustainedNotes e !! noteId with
  | None => e
  | Some note =>
      match layers e !! layerId note with
      | None => e
      | Some layer =>
          let dynamicVolume :=
            (Rmax 0.1 (Rmin 1.0 pressure) * baseVolume note * volume layer)%R in
          let g1 := update_node (set_gain dynamicVolume) (gain note) (audio e) in
          let filterFreq := (200 + pressure * 3800)%R in
          let g2 := update_node (set_cutoff filterFreq) (filter note) g1 in
          let g3 :=
            if is_oscillator g2 (source note) && truthy (baseFrequency note)
            then
              let pitchMod :=
                js_mul (baseFrequency note) (1 + (pressure - 0.5) * 0.02) in
              update_node (set_frequency pitchMod) (source note) g2
            else g2 in
          with_audio g3 e
      end
  end.

(** [stopSustainedNote]. *)
Definition stopSustainedNote (noteId : string) (e : engine) : engine :=
  match sustainedNotes e !! noteId with
  | None => e
  | Some note =>
      let g := update_node (set_phase EnvRelease) (envelope note) (audio e) in
      setTimeout (CleanupSustained noteId note) 500 (with_audio g e)
  end.

(** [startSustainedDrum]. *)
Definition startSustainedDrum (drumType layerId : string)
           (initialVelocity : R) (e : engine) : string * engine :=
  match layers e !! layerId with
  | None => ("", e)
  | Some layer =>
      if muted layer then ("", e)
      else
        let drumId := sustain_id layerId drumType (clock e) in
        let '(kind, baseFreq) :=
          if String.eqb drumType "kick"
          then (Oscillator (JNum 60) "sine", JNum 60)
          else if String.eqb drumType "snare" then (Noise "white", JUndefined)
          else if includes drumType "hat" then (Noise "white", JUndefined)
          else (Oscillator (JNum 200) "triangle", JNum 200) in
        let '(src, g1) := alloc kind (audio e) in
        let '(env, g2) :=
          alloc (AmplitudeEnvelope 0.01 0.1 0.6 0.2 EnvIdle)%R g1 in
        let '(gn, g3) := alloc (Gain (initialVelocity * volume layer * 0.5)) g2 in
        let '(flt, g4) :=
          alloc (Filter (1000 + initialVelocity * 2000) "lowpass" None None) g3 in
        let g5 := connect gn ToMaster (connect env (ToNode gn)
                    (connect flt (ToNode env)
                       (connect src (ToNode flt) g4))) in
        let g6 := Graph.start src g5 in
        let g7 := update_node (set_phase EnvAttack) env g6 in
        let entry :=
          mkSustained src env gn flt layerId (volume layer * 0.5) baseFreq in
        (drumId,
         with_sustainedNotes (<[drumId := entry]> (sustainedNotes e))
                             (with_audio g7 e))
  end.

End Engine.

(* ===================================================================== *)
(** * WAV encoding: [bufferToWAV]                                         *)
(* ===================================================================== *)

Module Wav.

(** An [AudioBuffer]: [channelData] holds one list of samples per
    channel.  A sample is a finite number, modelled by a rational. *)
Record AudioBuffer : Type := mkBuffer {
  length : nat;
  numberOfChannels : nat;
  sampleRate : Z;
  channelData : list (list Q)
}.

(** An [ArrayBuffer] is a list of bytes. *)
Abbreviation bytes := (list Z) (only parsing).

(** [new ArrayBuffer(n)]: [n] zero bytes. *)
Definition ArrayBuffer (n : nat) : bytes := repeat 0%Z n.

(** The [DataView] setters, little-endian; [None] is the [RangeError]
    of a write that does not fit in the buffer.  The value written is
    reduced modulo the width of the field. *)
Definition setUint8 (off : nat) (v : Z) (a : bytes) : option bytes :=
  if (off + 1 <=? Datatypes.length a)%nat
  then Some (<[off := (v mod 256)%Z]> a)
  else None.

Definition setUint16 (off : nat) (v : Z) (a : bytes) : option bytes :=
  if (off + 2 <=? Datatypes.length a)%nat
  then Some (<[off + 1 := ((v / 256) mod 256)%Z]>
               (<[off := (v mod 256)%Z]> a))
  else None.

Definition setUint32 (off : nat) (v : Z) (a : bytes) : option bytes :=
  if (off + 4 <=? Datatypes.length a)%nat
  then Some (<[off + 3 := ((v / 16777216) mod 256)%Z]>
               (<[off + 2 := ((v / 65536) mod 256)%Z]>
                  (<[off + 1 := ((v / 256) mod 256)%Z]>
                     (<[off := (v mod 256)%Z]> a))))
  else None.

(** The integer a number converts to before it is stored: the fraction
    is dropped (rounding toward zero). *)
Definition ToInteger (q : Q) : Z := Z.quot (Qnum q) (Zpos (Qden q)).

(** [setInt16]: the two's-complement pattern of the integer has the
    same bytes as its residue modulo 2^16. *)
Definition setInt16 (off : nat) (v : Q) (a : bytes) : option bytes :=
  setUint16 off (ToInteger v) a.

(** [writeString]: one [setUint8] per character code. *)
Fixpoint writeString (off : nat) (s : string) (a : bytes) : option bytes :=
  match s with
  | EmptyString => Some a
  | String c rest =>
      a' ← setUint8 off (Z.of_nat (nat_of_ascii c)) a;
      writeString (S off) rest a'
  end.

(** [Math.max(-1, Math.min(1, x))]. *)
Definition clamp (x : Q) : Q := Qmax (-1) (Qmin 1 x)%Q.

(** [buffer.getChannelData(channel)[i]], then clamped and scaled by
    [0x7FFF].  An index outside the data reads [undefined]; the
    arithmetic then yields NaN, which is stored as 0. *)
Definition scaled_sample (buffer : AudioBuffer) (channel i : nat) : Q :=
  match channelData buffer !! channel ≫= (fun data => data !! i) with
  | Some x => (clamp x * 32767)%Q
  | None => 0%Q
  end.

(** The inner loop: the channels of frame [i]. *)
Definition write_frame (buffer : AudioBuffer) (i : nat) (a : option bytes)
  : option bytes :=
  fold_left
    (fun acc channel =>
       a' ← acc;
       setInt16 (44 + (i * numberOfChannels buffer + channel) * 2)
                (scaled_sample buffer channel i) a')
    (seq 0 (numberOfChannels buffer)) a.

Definition bufferToWAV (buffer : AudioBuffer) : option bytes :=
  let len := Z.of_nat (length buffer) in
  let n := Z.of_nat (numberOfChannels buffer) in
  let rate := sampleRate buffer in
  let a0 := ArrayBuffer (44 + length buffer * numberOfChannels buffer * 2) in
  a1 ← writeString 0 "RIFF" a0;
  a2 ← setUint32 4 (36 + len * n * 2) a1;
  a3 ← writeString 8 "WAVE" a2;
  a4 ← writeString 12 "fmt " a3;
  a5 ← setUint32 16 16 a4;
  a6 ← setUint16 20 1 a5;
  a7 ← setUint16 22 n a6;
  a8 ← setUint32 24 rate a7;
  a9 ← setUint32 28 (rate * n * 2) a8;
  a10 ← setUint16 32 (n * 2) a9;
  a11 ← setUint16 34 16 a10;
  a12 ← writeString 36 "data" a11;
  a13 ← setUint32 40 (len * n * 2) a12;
  fold_left (fun acc i => write_frame buffer i acc)
            (seq 0 (length buffer)) (Some a13).

(** ** Reading the file back *)

Definition getUint8 (off : nat) (a : bytes) : Z := default 0%Z (a !! off).

Definition getUint16 (off : nat) (a : bytes) : Z :=
  (getUint8 off a + 256 * getUint8 (off + 1) a)%Z.

Definition getUint32 (off : nat) (a : bytes) : Z :=
  (getUint8 off a + 256 * getUint8 (off + 1) a
   + 65536 * getUint8 (off + 2) a + 16777216 * getUint8 (off + 3) a)%Z.

Definition getInt16 (off : nat) (a : bytes) : Z :=
  let u := getUint16 off a in
  if (u <? 32768)%Z then u else (u - 65536)%Z.

(** A decoder that undoes the encoder's scaling: the sample of channel
    [channel] in frame [i] of a file with [n] channels. *)
Definition decode_sample (a : bytes) (n channel i : nat) : Q :=
  (inject_Z (getInt16 (44 + (i * n + channel) * 2) a) / 32767)%Q.

(** ** The layout of a canonical WAV file, written down from the format *)

Definition le16 (v : Z) : bytes := [(v mod 256)%Z; ((v / 256) mod 256)%Z].

Definition le32 (v : Z) : bytes :=
  [(v mod 256)%Z; ((v / 256) mod 256)%Z; ((v / 65536) mod 256)%Z;
   ((v / 16777216) mod 256)%Z].

Definition ascii_codes (s : string) : bytes :=
  map (fun c => Z.of_nat (nat_of_ascii c)) (list_ascii_of_string s).

Definition wav_header (buffer : AudioBuffer) : bytes :=
  let len := Z.of_nat (length buffer) in
  let n := Z.of_nat (numberOfChannels buffer) in
  let rate := sampleRate buffer in
  (ascii_codes "RIFF" ++ le32 (36 + len * n * 2) ++ ascii_codes "WAVE"
   ++ ascii_codes "fmt " ++ le32 16 ++ le16 1 ++ le16 n ++ le32 rate
   ++ le32 (rate * n * 2) ++ le16 (n * 2) ++ le16 16
   ++ ascii_codes "data" ++ le32 (len * n * 2))%list.

Definition wav_frame (buffer : AudioBuffer) (i : nat) : bytes :=
  flat_map (fun channel => le16 (ToInteger (scaled_sample buffer channel i)))
           (seq 0 (numberOfChannels buffer)).

Definition wav_data (buffer : AudioBuffer) : bytes :=
  flat_map (wav_frame buffer) (seq 0 (length buffer)).

(** A buffer as [AudioContext.createBuffer] makes it: every channel has
    [length] samples, and there are [numberOfChannels] of them. *)
Definition well_formed (buffer : AudioBuffer) : Prop :=
  Datatypes.length (channelData buffer) = numberOfChannels buffer
  /\ Forall (fun data => Datatypes.length data = length buffer)
            (channelData buffer).

End Wav.

(* ===================================================================== *)
(** * Vocabulary of the properties                                        *)
(* ===================================================================== *)

Module PitchSpec.
Import Pitch.

(** [octave × 12 + semitone offset] of a note name: defined exactly for
    the names the regular expression accepts and [noteOffsets] knows. *)
Definition pitch_index (note : string) : option R :=
  match note_match note with
  | Some (noteName, octaveStr) =>
      match own_get noteOffsets noteName with
      | Some off => Some (IZR (parseInt octaveStr) * 12 + off)%R
      | None => None
      end
  | None => None
  end.

(** Twelve-tone equal temperament with A4 = 440 Hz, as a function of the
    index (C4 has index 48). *)
Definition equal_tempered (i : R) : R :=
  (C4_FREQ * Rpower 2 ((i - 48) / 12))%R.

(** The note is one of the twelve keys of [simpleNoteMap]. *)
Definition tabulated (note : string) : Prop :=
  own_get simpleNoteMap note <> None.

End PitchSpec.

Module EngineSpec.
Import Graph Engine.

(** Reading a parameter of the node at position [i]. *)
Definition read {A : Type} (p : node -> option A) (g : graph) (i : nat)
  : option A :=
  nodes g !! i ≫= p.

Definition gain_value (n : node) : option R :=
  match kind n with Gain v => Some v | _ => None end.

Definition cutoff_value (n : node) : option R :=
  match kind n with Filter f _ _ _ => Some f | _ => None end.

Definition frequency_value (n : node) : option jsval :=
  match kind n with Oscillator f _ => Some f | _ => None end.

Definition phase_value (n : node) : option env_phase :=
  match kind n with AmplitudeEnvelope _ _ _ _ p => Some p | _ => None end.

(** The live chain of a registry entry: its gain, filter cutoff,
    oscillator frequency and envelope phase. *)
Definition gain_of (e : engine) (note : SustainedNote) : option R :=
  read gain_value (audio e) (gain note).

Definition cutoff_of (e : engine) (note : SustainedNote) : option R :=
  read cutoff_value (audio e) (filter note).

Definition frequency_of (e : engine) (note : SustainedNote) : option jsval :=
  read frequency_value (audio e) (source note).

Definition phase_of (e : engine) (note : SustainedNote) : option env_phase :=
  read phase_value (audio e) (envelope note).

(** The entry refers to a gain node and a filter node of the store. *)
Definition chain_wired (e : engine) (note : SustainedNote) : Prop :=
  is_Some (gain_of e note) /\ is_Some (cutoff_of e note).


(** The timers of a list fire one after the other. *)
Definition fire_timers (l : list (N * timer_action)) (e : engine) : engine :=
  fold_left (fun e' x => run_timer (snd x) e') l e.

(** The node at position [i] exists and has been disposed. *)
Definition disposed_at (g : graph) (i : nat) : Prop :=
  exists n, nodes g !! i = Some n /\ disposed n = true.

(** The four nodes of an entry are in the store. *)
Definition chain_allocated (g : graph) (note : SustainedNote) : Prop :=
  (source note < length (nodes g) /\ envelope note < length (nodes g)
   /\ gain note < length (nodes g) /\ filter note < length (nodes g))%nat.

(** The state [Disposed] of a sustained note: its four nodes disposed
    and its id out of the registry. *)
Definition Disposed (e : engine) (noteId : string) (note : SustainedNote)
  : Prop :=
  sustainedNotes e !! noteId = None
  /\ disposed_at (audio e) (source note)
  /\ disposed_at (audio e) (envelope note)
  /\ disposed_at (audio e) (gain note)
  /\ disposed_at (audio e) (filter note).

(** What a successful [startSustainedNote] or [startSustainedDrum]
    leaves behind: the id is built from the layer, the note or drum and
    the clock; one entry is written under it; the envelope of the new
    chain is in its attack; no timer is set and nothing else moves. *)
Definition sustained_started (e : engine) (layerId what : string)
           (r : string * engine) : Prop :=
  let '(noteId, e') := r in
  noteId = sustain_id layerId what (clock e)
  /\ noteId <> ""
  /\ exists entry,
       sustainedNotes e' = <[noteId := entry]> (sustainedNotes e)
       /\ Engine.layerId entry = layerId
       /\ phase_of e' entry = Some EnvAttack
       /\ chain_allocated (audio e') entry
       /\ chain_wired e' entry
       /\ timers e' = timers e /\ pending e' = pending e
       /\ layers e' = layers e /\ clock e' = clock e
       /\ context e' = context e.

(** The one-shot triggers of the public interface. *)
Inductive trigger : Type :=
| Sample (sampleId : string) (velocity : R)
| SyntheticNote (note : string) (velocity : R)
| AdvancedSynth (frequency velocity : R) (instrumentType : string)
                (synthParams : option SynthParams).

Definition fire (layerId : string) (t : trigger) (e : engine) : engine :=
  match t with
  | Sample sampleId velocity => playSample sampleId layerId velocity e
  | SyntheticNote note velocity => playSyntheticNote note layerId velocity e
  | AdvancedSynth frequency velocity instrumentType synthParams =>
      playAdvancedSynth frequency layerId velocity instrumentType synthParams e
  end.

Definition fire_all (layerId : string) (ts : list trigger) (e : engine)
  : engine :=
  fold_left (fun e' t => fire layerId t e') ts e.

(** A deferred call that finds its layer muted does nothing. *)
Definition returns_at_mute_check (layerId : string) (t : task) : Prop :=
  forall x lx, layers x !! layerId = Some lx -> muted lx = true ->
               run_task t x = x.

(** Every entry of the registry refers to a gain node and a filter node. *)
Definition registry_wired (e : engine) : Prop :=
  forall noteId note,
    sustainedNotes e !! noteId = Some note -> chain_wired e note.

(** Positions that hold a gain (a filter) in [g] still do in [g']. *)
Definition wiring_kept (g g' : graph) : Prop :=
  forall i,
    (is_Some (read gain_value g i) -> is_Some (read gain_value g' i))
    /\ (is_Some (read cutoff_value g i) -> is_Some (read cutoff_value g' i)).

(** A node update that turns no gain or filter into something else. *)
Definition keeps_kind (f : node -> node) : Prop :=
  forall n,
    (is_Some (gain_value n) -> is_Some (gain_value (f n)))
    /\ (is_Some (cutoff_value n) -> is_Some (cutoff_value (f n))).

(** What a step does to the graph and to the registry: gains and filters
    stay where they are, and an entry of the registry afterwards was
    there before or is wired. *)
Definition sound (e e' : engine) : Prop :=
  wiring_kept (audio e) (audio e')
  /\ forall noteId note,
       sustainedNotes e' !! noteId = Some note ->
       sustainedNotes e !! noteId = Some note \/ chain_wired e' note.

(** One call of the public interface, or the passing of time, or the
    settling of the promises. *)
Inductive step : engine -> engine -> Prop :=
| step_addLayer layer e : step e (addLayer layer e)
| step_updateLayerVolume layerId v e : step e (updateLayerVolume layerId v e)
| step_toggleLayerMute layerId e : step e (toggleLayerMute layerId e)
| step_updateGlobalInstrumentVolume v e :
    step e (updateGlobalInstrumentVolume v e)
| step_clearLayer layerId e : step e (clearLayer layerId e)
| step_dispose e : step e (Engine.dispose e)
| step_loadSample sampleId ok e : step e (loadSample sampleId ok e)
| step_playSample sampleId layerId v e : step e (playSample sampleId layerId v e)
| step_playSyntheticNote note layerId v e :
    step e (playSyntheticNote note layerId v e)
| step_playAdvancedSynth f layerId v ty ps e :
    step e (playAdvancedSynth f layerId v ty ps e)
| step_startSustainedNote note layerId v e :
    step e (snd (startSustainedNote note layerId v e))
| step_startSustainedDrum drumType layerId v e :
    step e (snd (startSustainedDrum drumType layerId v e))
| step_modulateSustainedNote noteId pressure e :
    step e (modulateSustainedNote noteId pressure e)
| step_stopSustainedNote noteId e : step e (stopSustainedNote noteId e)
| step_advance ms e : step e (advance ms e)
| step_settle e : step e (settle e).

(** The states an engine can be in: from the constructor, by steps. *)
Definition reachable (e : engine) : Prop :=
  exists state now, rtc step (new state now) e.

(** Concrete engines used as examples. *)
Definition piano : AudioLayer := mkLayer "piano" "Piano" 0.6%R false false [].
Definition drums : AudioLayer := mkLayer "drums" "Drums" 0.8%R false false [].
Definition muted_pads : AudioLayer := mkLayer "pads" "Pads" 0.5%R true false [].

(** A4 held on the piano layer since time 0. *)
Definition held_A4 : engine :=
  snd (startSustainedNote "A4" "piano" 0.7%R (addLayer piano (new Running 0))).

(** The same, after [dispose()] has cleared the layer map. *)
Definition orphaned_A4 : engine := Engine.dispose held_A4.

(** A running engine with the kick sample loaded. *)
Definition kick_loaded : engine :=
  loadSample "kick" true (addLayer drums (new Running 0)).

(** A suspended engine with one muted layer. *)
Definition suspended_muted : engine := addLayer muted_pads (new Suspended 0).

End EngineSpec.

Module WavSpec.
Import Wav.

(** The number of bytes of sample data, and the channel count, as the
    header fields hold them. *)
Definition data_size (buffer : AudioBuffer) : Z :=
  Z.of_nat (length buffer) * Z.of_nat (numberOfChannels buffer) * 2.

Definition channels (buffer : AudioBuffer) : Z :=
  Z.of_nat (numberOfChannels buffer).

(** The size fields fit their width: the file is below 4 GiB, as the
    RIFF format requires, and the sample rate is a natural number. *)
Definition riff_sized (buffer : AudioBuffer) : Prop :=
  (0 <= sampleRate buffer < 4294967296
   /\ sampleRate buffer * channels buffer * 2 < 4294967296
   /\ 36 + data_size buffer < 4294967296
   /\ channels buffer * 2 < 65536)%Z.

(** A short stereo buffer used as an example: two frames. *)
Definition two_frames : AudioBuffer :=
  mkBuffer 2 2 44100 [[1 # 2; -3 # 2]%Q; [1 # 3; -1 # 32767]%Q].

End WavSpec.

(* ===================================================================== *)
(** * Who holds a node of the store                                     *)
(* ===================================================================== *)

(** A Tone.js node stays alive, and can be reached by a later call, as
    long as something refers to it.  The engine keeps its references in
    three places: the registry of sustained notes, the callbacks of the
    pending timers, and the lists of active sources of the layers. *)

Module Ownership.
Import Graph Engine EngineSpec.

(** The nodes a timer callback captured. *)
Definition captured (a : timer_action) : list nat :=
  match a with
  | CleanupDrum src env gn => [src; env; gn]
  | CleanupNote osc env gn => [osc; env; gn]
  | CleanupSustained _ note =>
      [source note; envelope note; gain note; filter note]
  | CleanupSynth osc env gn effectChain => [osc; env; gn; effectChain]
  end.

(** The nodes of a registry entry. *)
Definition chain (note : SustainedNote) : list nat :=
  [source note; envelope note; gain note; filter note].

(** The engine still holds a reference to node [i]: in an entry of the
    registry, in a callback of a pending timer, or in the list of active
    sources of a layer.  Only a node that is held can be reached by a
    later call. *)
Definition held (e : engine) (i : nat) : Prop :=
  (exists noteId note,
      sustainedNotes e !! noteId = Some note /\ In i (chain note))
  \/ (exists due a, In (due, a) (timers e) /\ In i (captured a))
  \/ (exists layerId sources,
         activeSources e !! layerId = Some sources /\ In i sources).

(** Every reference the engine holds points into the store. *)
Definition scoped (e : engine) : Prop :=
  forall i, held e i -> (i < length (nodes (audio e)))%nat.

(** Node [i] is the same in [g'] as in [g], and no connection leaving it
    was removed. *)
Definition same_at (i : nat) (g g' : graph) : Prop :=
  nodes g' !! i = nodes g !! i
  /\ forall d, In (i, d) (edges g) -> In (i, d) (edges g').

(** [g'] is [g] with nodes and connections added: nothing of [g] moved. *)
Definition extends (g g' : graph) : Prop :=
  (length (nodes g) <= length (nodes g'))%nat
  /\ forall i, (i < length (nodes g))%nat -> same_at i g g'.

(** Position [i] was allocated between [g] and [g']. *)
Definition fresh (g g' : graph) (i : nat) : Prop :=
  (length (nodes g) <= i < length (nodes g'))%nat.

(** What a one-shot trigger does: nothing, or a graph extended by fresh
    nodes and one timer whose callback captured fresh nodes only. *)
Definition one_shot (e e' : engine) : Prop :=
  e' = e
  \/ exists g a ms,
       e' = setTimeout a ms (with_audio g e)
       /\ extends (audio e) g /\ Forall (fresh (audio e) g) (captured a).

(** What a start does: nothing, or a graph extended by fresh nodes and
    one registry entry made of fresh nodes. *)
Definition registered (e e' : engine) : Prop :=
  e' = e
  \/ exists g noteId entry,
       e' = with_sustainedNotes (<[noteId := entry]> (sustainedNotes e))
                                (with_audio g e)
       /\ extends (audio e) g /\ Forall (fresh (audio e) g) (chain entry).

(** The effect of a step on the store: the store does not shrink, a
    reference held afterwards was held before or points to a node
    allocated by the step, and a node that was not held is left as it
    was, with its outgoing connections. *)
Definition frame (e e' : engine) : Prop :=
  (length (nodes (audio e)) <= length (nodes (audio e')))%nat
  /\ (forall i, held e' i -> held e i \/ fresh (audio e) (audio e') i)
  /\ (forall i, (i < length (nodes (audio e)))%nat -> ~ held e i ->
        same_at i (audio e) (audio e')).

(** No layer lists an active source. *)
Definition quiet (e : engine) : Prop :=
  forall layerId sources,
    activeSources e !! layerId = Some sources -> sources = [].

(** A disposed node has no outgoing connection. *)
Definition detached (j : nat) (g : graph) : Prop :=
  forall n, nodes g !! j = Some n -> disposed n = true ->
            forall d, ~ In (j, d) (edges g).

(** The delay of the cleanup timer of a one-shot trigger. *)
Definition cleanup_delay (t : trigger) : N :=
  match t with
  | Sample _ _ => 1000
  | SyntheticNote _ _ => 2000
  | AdvancedSynth _ _ instrumentType _ =>
      if String.eqb instrumentType "piano" then 6000
      else if String.eqb instrumentType "pad" then 4000 else 2000
  end.

(** What a one-shot trigger that sounds leaves behind: source, envelope
    and gain at the next three positions of the store, the gain plugged
    into the master bus, and a timer due after [delay] whose callback
    captured the three of them. *)
Definition launched (e e' : engine) (delay : N) : Prop :=
  let n := length (nodes (audio e)) in
  exists a rest,
    In ((clock e + delay)%N, a) (timers e')
    /\ captured a = n :: (n + 1)%nat :: (n + 2)%nat :: rest
    /\ Forall (fun i => (i < length (nodes (audio e')))%nat) (captured a)
    /\ (exists nd, nodes (audio e') !! (n + 2)%nat = Some nd /\ disposed nd = false)
    /\ In ((n + 2)%nat, ToMaster) (edges (audio e'))
    /\ clock e' = clock e.

(** The engine with another sample pool. *)
Definition with_bufferPool (p : gmap string bool) (e : engine) : engine :=
  mkEngine (context e) (layers e) (activeSources e) p
           (globalInstrumentVolume e) (sustainedNotes e) (audio e) (clock e)
           (timers e) (pending e).

(** The synthesiser parameters of the catalogue entry [VIOLIN_SYNTH] of
    [src/audio/WAVGenerator.ts], an instrument with a vibrato. *)
Definition violin_params : SynthParams :=
  mkSynthParams "sawtooth" (mkEnvelopeParams 0.2 0.1 0.8 0.5)%R
                (Some (mkFilterParams 2500%R (Some "lowpass") 2%R))
                (Some (mkModulationParams 6%R "vibrato")).

End Ownership.

(* ===================================================================== *)
(** * The pitch tests of the engine                                     *)
(* ===================================================================== *)

(** [getExpectedFrequencies], [verifyPitch] and [testChromaticScale]
    of [src/audio/AudioEngine.ts], and the template literal by which
    the callers of [noteToFrequency] build a note name. *)

Module PitchTests.
Import Pitch Engine.

(** [`${note}${octave}`] for a note name and a natural number. *)
Definition noteWithOctave (note : string) (octave : N) : string :=
  note ++ NilZero.string_of_uint (N.to_uint octave).





(** [testChromaticScale].  The variable [currentFreq] is declared once,
    outside the loop, and every callback handed to [setTimeout] closes
    over that one variable; [i] is bound afresh by each iteration.  The
    state of the loop is the value of [currentFreq] and the callbacks
    registered so far, each with its delay and its own [i]. *)
Record chromatic : Type := mkChromatic {
  currentFreq : jsval;
  callbacks : list (N * nat)
}.

(** One iteration: the callback is registered, then [currentFreq] is
    multiplied by [Math.pow(2, 1/12)]. *)
Definition chromatic_iteration (s : chromatic) (i : nat) : chromatic :=
  let semitoneRatio := Rpower 2 (1 / 12) in
  mkChromatic (js_mul (currentFreq s) semitoneRatio)
              (callbacks s ++ [((N.of_nat i * 300)%N, i)]).

Definition testChromaticScale (startNote : string) (steps : nat) : chromatic :=
  let startFreq := noteToFrequency startNote in
  fold_left chromatic_iteration (seq 0 steps) (mkChromatic startFreq []).

Definition chromatic_params : SynthParams :=
  mkSynthParams "sine" (mkEnvelopeParams 0.01 0.2 0 0.1)%R None None.

(** A callback of [testChromaticScale] runs: it reads [currentFreq] as
    it is then.  [None] when that value is not a number. *)
Definition chromatic_callback (s : chromatic) (layerId : string) (e : engine)
  : option engine :=
  match currentFreq s with
  | JNum f => Some (playAdvancedSynth f layerId 0.6%R "synth"
                                      (Some chromatic_params) e)
  | _ => None
  end.

End PitchTests.

(* ===================================================================== *)
(** * The sample generator                                              *)
(* ===================================================================== *)

(** [noteToFrequency] and the frequency of [generateNoteSample] of
    [src/audio/WAVGenerator.ts] (class [WAVGenerator]). *)

Module SamplePack.
Import PitchTests.

(** [noteMap] of [WAVGenerator.noteToFrequency]. *)
Definition noteMap : list (string * R) :=
  [ ("C3", 130.81%R); ("D3", 146.83%R); ("E3", 164.81%R); ("F3", 174.61%R);
    ("G3", 196.00%R); ("A3", 220.00%R); ("B3", 246.94%R);
    ("C4", 261.63%R); ("D4", 293.66%R); ("E4", 329.63%R); ("F4", 349.23%R);
    ("G4", 392.00%R); ("A4", 440.00%R); ("B4", 493.88%R);
    ("C5", 523.25%R); ("D5", 587.33%R); ("E5", 659.25%R); ("F5", 698.46%R);
    ("G5", 783.99%R); ("A5", 880.00%R); ("B5", 987.77%R);
    ("C6", 1046.50%R); ("D6", 1174.66%R); ("E6", 1318.51%R); ("F6", 1396.91%R);
    ("G6", 1567.98%R); ("A6", 1760.00%R); ("B6", 1975.53%R) ].

(** [noteMap[note] || 440]. *)
Definition noteToFrequency (note : string) : jsval :=
  let entry := js_get noteMap note in
  if truthy entry then entry else JNum 440.

(** The frequency [generateNoteSample] gives its oscillator. *)
Definition generateNoteSample_frequency (note : string) (octave : N) : jsval :=
  noteToFrequency (noteWithOctave note octave).

End SamplePack.

(* ===================================================================== *)
(** * The pressure-sensitive button                                     *)
(* ===================================================================== *)

(** [calculatePressure] and [monitorPressure] of the component
    [PressureButton], whose result the keyboard and the drum pads hand
    to [modulateSustainedNote]. *)

Module PressureButton.

Inductive curve : Type := linear | exponential | logarithmic.

(** The props [calculatePressure] reads. *)
Record props : Type := mkProps {
  maxPressure : R;
  minPressure : R;
  pressureCurve : curve
}.

(** The defaults of the component. *)
Definition default_props : props := mkProps 1.0 0.1 exponential.

(** An event, as far as [calculatePressure] reads it: the touches of a
    touch event (position and [force]), or the position and [pressure]
    of a mouse event; [None] is a property that is absent. *)
Inductive pointer_event : Type :=
| TouchEvent (touches : list (R * R * option R))
| MouseEvent (clientX clientY : R) (pressure : option R).

(** [v || 0.5] for a number or [undefined]. *)
Definition or_half (v : option R) : R :=
  match v with
  | Some r => if Req_dec_T r 0 then 0.5%R else r
  | None => 0.5%R
  end.

(** [Math.max(minPressure, Math.min(maxPressure, x))]. *)
Definition clamp (p : props) (x : R) : R :=
  Rmax (minPressure p) (Rmin (maxPressure p) x).

(** [calculatePressure].  [Date.now()] is [now].  A touch event without
    touches has no [clientX] either: position and force stay 0.
    [Math.pow(x, 1.5)] is NaN for a negative [x] and 0 at 0;
    [Math.log(x)] is NaN for a negative [x] and [-Infinity] at 0, which
    the clamp turns into [minPressure]. *)
Definition calculatePressure (p : props) (event : pointer_event)
           (now startTime : N) (startPos : R * R) : jsval :=
  let duration := IZR (Z.of_N now - Z.of_N startTime) in
  let '(currentPos, force) :=
    match event with
    | TouchEvent (touch :: _) =>
        ((fst (fst touch), snd (fst touch)), or_half (snd touch))
    | TouchEvent [] => ((0, 0), 0)
    | MouseEvent x y pressure => ((x, y), or_half pressure)
    end%R in
  let distance :=
    sqrt ((fst currentPos - fst startPos) ^ 2
          + (snd currentPos - snd startPos) ^ 2) in
  let durationFactor := (Rmin (duration / 500) 1 * 0.3)%R in
  let stabilityFactor := (Rmax 0 (1 - distance / 50) * 0.3)%R in
  let forceFactor := (force * 0.4)%R in
  let rawPressure :=
    (durationFactor + stabilityFactor + forceFactor + minPressure p)%R in
  match pressureCurve p with
  | exponential =>
      if Rlt_dec rawPressure 0 then JNaN
      else if Req_dec_T rawPressure 0 then JNum (clamp p 0)
      else JNum (clamp p (Rpower rawPressure 1.5))
  | logarithmic =>
      if Rlt_dec (rawPressure + 1) 0 then JNaN
      else if Req_dec_T (rawPressure + 1) 0 then JNum (minPressure p)
      else JNum (clamp p (ln (rawPressure + 1) / ln 2))
  | linear => JNum (clamp p rawPressure)
  end.

(** The force or pressure the device reports, when it reports one, is
    not negative. *)
Definition device_force_nonneg (event : pointer_event) : Prop :=
  match event with
  | TouchEvent (touch :: _) => forall f, snd touch = Some f -> (0 <= f)%R
  | TouchEvent [] => True
  | MouseEvent _ _ pressure => forall f, pressure = Some f -> (0 <= f)%R
  end.

(** [monitorPressure], the callback of [requestAnimationFrame]: the
    event it hands to [calculatePressure] is a fresh
    [new MouseEvent('mousemove')], whose [clientX] and [clientY] are 0
    and which has no [pressure]. *)
Definition monitorPressure (p : props) (now startTime : N) (startPos : R * R)
  : jsval :=
  calculatePressure p (MouseEvent 0 0 None) now startTime startPos.

End PressureButton.

(* ===================================================================== *)
(** * Properties of the pitch utility                                     *)
(* ===================================================================== *)

Section PitchFacts.
Import Pitch PitchSpec.
Local Open Scope R_scope.

Lemma own_get_In (own : list (string * R)) (key : string) (v : R) :
  own_get own key = Some v -> In (key, v) own.
Proof.
  induction own as [|[k w] rest IH]; simpl; [discriminate|].
  destruct (String.eqb_spec k key) as [->|ne].
  - intros [= ->]. now left.
  - intros H. right. now apply IH.
Qed.

Lemma Rpower2_pos (x : R) : 0 < Rpower 2 x.
Proof. unfold Rpower. apply exp_pos. Qed.

Lemma Rpower2_nat (n : nat) : Rpower 2 (INR n) = 2 ^ n.
Proof. apply Rpower_pow. lra. Qed.

Lemma Rpower2_neg (n : nat) : Rpower 2 (- INR n) = / 2 ^ n.
Proof. now rewrite Rpower_Ropp, Rpower2_nat. Qed.

Lemma pow_lt_strict (x y : R) (n : nat) :
  0 <= x < y -> x ^ S n < y ^ S n.
Proof.
  intros [Hx Hxy]. induction n as [|n IH].
  - simpl. lra.
  - change (x * x ^ S n < y * y ^ S n).
    assert (0 <= x ^ S n) by (apply pow_le; lra).
    apply Rle_lt_trans with (x * y ^ S n).
    + apply Rmult_le_compat_l; lra.
    + apply Rmult_lt_compat_r; lra.
Qed.

Lemma pow12_le_inv (a b : R) : 0 <= b -> a ^ 12 <= b ^ 12 -> a <= b.
Proof.
  intros Hb H. destruct (Rle_or_lt a b) as [|Hlt]; [assumption|].
  assert (b ^ 12 < a ^ 12) by (apply pow_lt_strict; lra). lra.
Qed.

Lemma equal_tempered_pos (i : R) : 0 < equal_tempered i.
Proof.
  unfold equal_tempered, C4_FREQ, A4_FREQ.
  pose proof (Rpower2_pos (-9 / 12)). pose proof (Rpower2_pos ((i - 48) / 12)).
  apply Rmult_lt_0_compat; [apply Rmult_lt_0_compat; lra | assumption].
Qed.

Lemma equal_tempered_lt (i j : R) : i < j -> equal_tempered i < equal_tempered j.
Proof.
  intros Hij. unfold equal_tempered. apply Rmult_lt_compat_l.
  - unfold C4_FREQ, A4_FREQ. pose proof (Rpower2_pos (-9 / 12)).
    apply Rmult_lt_0_compat; lra.
  - apply Rpower_lt; lra.
Qed.

Lemma equal_tempered_octave (i : R) :
  equal_tempered (i + 12) = 2 * equal_tempered i.
Proof.
  unfold equal_tempered.
  replace ((i + 12 - 48) / 12) with ((i - 48) / 12 + 1) by lra.
  rewrite Rpower_plus, Rpower_1 by lra. ring.
Qed.

Lemma equal_tempered_pow12 (i : R) :
  equal_tempered i ^ 12 = 440 ^ 12 * Rpower 2 (i - 57).
Proof.
  unfold equal_tempered, C4_FREQ, A4_FREQ.
  rewrite Rmult_assoc, <- Rpower_plus, Rpow_mult_distr. f_equal.
  rewrite <- Rpower_pow by apply Rpower2_pos.
  rewrite Rpower_mult. f_equal. simpl. lra.
Qed.

(** Bounds on an equal-tempered frequency from bounds on its twelfth
    power, which is rational at an integer index. *)
Lemma equal_tempered_bounds (i lo hi : R) (n : nat) (neg : bool) :
  i - 57 = (if neg then - INR n else INR n) ->
  0 <= hi ->
  lo ^ 12 <= 440 ^ 12 * (if neg then / 2 ^ n else 2 ^ n) <= hi ^ 12 ->
  lo <= equal_tempered i <= hi.
Proof.
  intros Hi Hhi [Hlo Hup].
  pose proof (equal_tempered_pos i) as Hpos.
  assert (equal_tempered i ^ 12
          = 440 ^ 12 * (if neg then / 2 ^ n else 2 ^ n)) as E.
  { rewrite equal_tempered_pow12, Hi. destruct neg.
    - now rewrite Rpower2_neg.
    - now rewrite Rpower2_nat. }
  split; apply pow12_le_inv; try lra.
Qed.

(** Every entry of [simpleNoteMap] is the equal-tempered frequency of
    its note in octave 4, rounded to two decimals. *)
Lemma simpleNoteMap_accuracy (note : string) (v : R) :
  own_get simpleNoteMap note = Some v ->
  exists i, pitch_index note = Some i /\ 48 <= i <= 59 /\ 261 <= v
            /\ v - 0.005 <= equal_tempered i <= v + 0.005.
Proof.
  intros H. apply own_get_In in H. simpl in H.
  repeat (destruct H as [H|H]; [injection H as <- <-|]); [..|contradiction].
  - exists (IZR 4 * 12 + 0). repeat split; try lra.
    all: apply (equal_tempered_bounds _ (261.63 - 0.005) (261.63 + 0.005) 9 true);
      simpl; lra.
  - exists (IZR 4 * 12 + 1). repeat split; try lra.
    all: apply (equal_tempered_bounds _ (277.18 - 0.005) (277.18 + 0.005) 8 true);
      simpl; lra.
  - exists (IZR 4 * 12 + 2). repeat split; try lra.
    all: apply (equal_tempered_bounds _ (293.66 - 0.005) (293.66 + 0.005) 7 true);
      simpl; lra.
  - exists (IZR 4 * 12 + 3). repeat split; try lra.
    all: apply (equal_tempered_bounds _ (311.13 - 0.005) (311.13 + 0.005) 6 true);
      simpl; lra.
  - exists (IZR 4 * 12 + 4). repeat split; try lra.
    all: apply (equal_tempered_bounds _ (329.63 - 0.005) (329.63 + 0.005) 5 true);
      simpl; lra.
  - exists (IZR 4 * 12 + 5). repeat split; try lra.
    all: apply (equal_tempered_bounds _ (349.23 - 0.005) (349.23 + 0.005) 4 true);
      simpl; lra.
  - exists (IZR 4 * 12 + 6). repeat split; try lra.
    all: apply (equal_tempered_bounds _ (369.99 - 0.005) (369.99 + 0.005) 3 true);
      simpl; lra.
  - exists (IZR 4 * 12 + 7). repeat split; try lra.
    all: apply (equal_tempered_bounds _ (392.00 - 0.005) (392.00 + 0.005) 2 true);
      simpl; lra.
  - exists (IZR 4 * 12 + 8). repeat split; try lra.
    all: apply (equal_tempered_bounds _ (415.30 - 0.005) (415.30 + 0.005) 1 true);
      simpl; lra.
  - exists (IZR 4 * 12 + 9). repeat split; try lra.
    all: apply (equal_tempered_bounds _ (440.00 - 0.005) (440.00 + 0.005) 0 false);
      simpl; lra.
  - exists (IZR 4 * 12 + 10). repeat split; try lra.
    all: apply (equal_tempered_bounds _ (466.16 - 0.005) (466.16 + 0.005) 1 false);
      simpl; lra.
  - exists (IZR 4 * 12 + 11). repeat split; try lra.
    all: apply (equal_tempered_bounds _ (493.88 - 0.005) (493.88 + 0.005) 2 false);
      simpl; lra.
Qed.

Lemma note_match_not_inherited (note : string) (p : string * string) :
  note_match note = Some p -> inherited note = false.
Proof.
  intros Hm. destruct (inherited note) eqn:E; [|reflexivity].
  unfold inherited in E. apply existsb_exists in E.
  destruct E as [k [Hin Heq]]. apply String.eqb_eq in Heq. subst k.
  simpl in Hin.
  repeat (destruct Hin as [<-|Hin]; [discriminate Hm|]). contradiction.
Qed.



(** What [noteToFrequency] returns on a valid note name: the table
    entry for the twelve tabulated names, the equal-tempered frequency
    of the index for every other one. *)
Lemma noteToFrequency_valid (note : string) (i : R) :
  pitch_index note = Some i ->
  exists f, noteToFrequency note = JNum f
    /\ ((~ tabulated note /\ f = equal_tempered i)
        \/ (tabulated note /\ 48 <= i <= 59 /\ 261 <= f
            /\ f - 0.005 <= equal_tempered i <= f + 0.005)).
Proof.
  intros Hi. destruct (own_get simpleNoteMap note) as [v|] eqn:Htab.
  - destruct (simpleNoteMap_accuracy _ _ Htab) as (i' & Hi' & Hr & Hv & Hb).
    assert (i' = i) as -> by congruence.
    exists v. split.
    + unfold noteToFrequency, js_get. rewrite Htab. simpl.
      destruct (Req_dec_T v 0); [lra | reflexivity].
    + right. unfold tabulated. rewrite Htab. repeat split; try lra; discriminate.
  - exists (equal_tempered i). split.
    + unfold pitch_index in Hi. unfold noteToFrequency, js_get. rewrite Htab.
      destruct (note_match note) as [[nm ds]|] eqn:Hm; [|discriminate].
      rewrite (note_match_not_inherited _ _ Hm). cbn [truthy].
      destruct (own_get noteOffsets nm) as [off|]; [|discriminate].
      injection Hi as <-. unfold equal_tempered. do 3 f_equal. lra.
    + left. unfold tabulated. rewrite Htab. split; [tauto | reflexivity].
Qed.



Lemma equal_tempered_le (i j : R) :
  i <= j -> equal_tempered i <= equal_tempered j.
Proof.
  intros [H| ->]; [left; now apply equal_tempered_lt | right; reflexivity].
Qed.

End PitchFacts.

Section PitchClaims.
Import Pitch PitchSpec.
Local Open Scope R_scope.

(** A string the regular expression rejects is not a key of
    [simpleNoteMap]. *)
Lemma malformed_not_tabulated (note : string) :
  note_match note = None -> own_get simpleNoteMap note = None.
Proof.
  intros Hm. destruct (own_get simpleNoteMap note) as [v|] eqn:E; [|reflexivity].
  apply own_get_In in E. simpl in E.
  repeat (destruct E as [E|E]; [injection E as <- <-; discriminate Hm|]).
  contradiction.
Qed.

(** Malformed input that is not the name of a member of
    [Object.prototype] takes the warning branch and yields 440. *)
Lemma noteToFrequency_malformed (note : string) :
  note_match note = None -> inherited note = false ->
  noteToFrequency note = JNum 440.
Proof.
  intros Hm Hp. unfold noteToFrequency, js_get.
  now rewrite (malformed_not_tabulated _ Hm), Hp, Hm.
Qed.

Example note_match_sharp : note_match "C#4" = Some ("C#", "4").
Proof. reflexivity. Qed.

Example note_match_trailing : note_match "C4x" = None.
Proof. reflexivity. Qed.

Example noteToFrequency_lowercase : noteToFrequency "c4" = JNum 440.
Proof. now apply noteToFrequency_malformed. Qed.

(** A name that matches the format but has no semitone offset. *)
Example noteToFrequency_E_sharp : noteToFrequency "E#4" = JNum 440.
Proof. reflexivity. Qed.

(** The computed path gives A4 = 440 Hz exactly (here through the
    spelling with a leading zero, which is not a key of the table). *)
Example noteToFrequency_A04 : noteToFrequency "A04" = JNum 440.
Proof.
  destruct (noteToFrequency_valid "A04" (IZR 4 * 12 + 9) eq_refl)
    as (f & -> & [[_ ->]|(T & _)]).
  - f_equal. unfold equal_tempered, C4_FREQ, A4_FREQ.
    rewrite Rmult_assoc, <- Rpower_plus.
    replace (-9 / 12 + (IZR 4 * 12 + 9 - 48) / 12) with 0 by lra.
    rewrite Rpower_O; lra.
  - exfalso. apply T. reflexivity.
Qed.

(** C7 (the code departs from the claim).  The claim: every malformed
    note string yields 440.  The string ["constructor"] does not match
    the note format, yet the lookup [simpleNoteMap[note]] finds the
    member inherited from [Object.prototype], which is truthy, and
    [noteToFrequency] returns that member instead of 440. *)
Theorem noteToFrequency_constructor :
  note_match "constructor" = None
  /\ noteToFrequency "constructor" = JInherited "constructor"
  /\ noteToFrequency "constructor" <> JNum 440.
Proof.
  assert (noteToFrequency "constructor" = JInherited "constructor") as E
    by reflexivity.
  split; [reflexivity|]. split; [exact E | rewrite E; discriminate].
Qed.




End PitchClaims.

(* ===================================================================== *)
(** * Properties of the audio graph                                       *)
(* ===================================================================== *)

Section GraphFacts.
Import Graph Engine EngineSpec.

Context {A : Type} (p : node -> option A).

(** A parameter write at [i] that leaves the projection [p] of every
    node alone is invisible through [p], wherever it lands. *)
Lemma read_update_frame (f : node -> node) (g : graph) (i j : nat) :
  (forall n, p (f n) = p n) ->
  read p (update_node f i g) j = read p g j.
Proof.
  intros Hf. unfold read, update_node. simpl.
  destruct (decide (i = j)) as [->|ne].
  - rewrite list_lookup_alter_eq. destruct (nodes g !! j); simpl; auto.
  - now rewrite list_lookup_alter_ne.
Qed.

Lemma read_update_hit (f : node -> node) (g : graph) (i : nat) :
  read p (update_node f i g) i = nodes g !! i ≫= (fun n => p (f n)).
Proof.
  unfold read, update_node. simpl. rewrite list_lookup_alter_eq.
  now destruct (nodes g !! i).
Qed.

End GraphFacts.

Section GraphParameters.
Import Graph Engine EngineSpec.

Lemma length_update_node (f : node -> node) (i : nat) (g : graph) :
  length (nodes (update_node f i g)) = length (nodes g).
Proof. apply length_alter. Qed.

Lemma is_oscillator_update (f : node -> node) (g : graph) (i j : nat) :
  (forall n, frequency_value (f n) = None <-> frequency_value n = None) ->
  is_oscillator (update_node f i g) j = is_oscillator g j.
Proof.
  intros Hf. unfold is_oscillator, update_node. simpl.
  destruct (decide (i = j)) as [->|ne].
  - rewrite list_lookup_alter_eq. destruct (nodes g !! j) as [n|]; simpl; auto.
    specialize (Hf n). unfold frequency_value in Hf.
    destruct (f n) as [[] ? ?], n as [[] ? ?]; simpl in *; auto;
      destruct Hf as [H1 H2]; try (now discriminate H1); now discriminate H2.
  - now rewrite list_lookup_alter_ne.
Qed.

(** What each parameter write does to each projection. *)
Lemma gain_set_gain v n : is_Some (gain_value n) -> gain_value (set_gain v n) = Some v.
Proof. destruct n as [[] ? ?]; intros [x H]; now inversion H. Qed.

Lemma cutoff_set_cutoff v n :
  is_Some (cutoff_value n) -> cutoff_value (set_cutoff v n) = Some v.
Proof. destruct n as [[] ? ?]; intros [x H]; now inversion H. Qed.

Lemma frequency_set_frequency v n :
  is_Some (frequency_value n) -> frequency_value (set_frequency v n) = Some v.
Proof. destruct n as [[] ? ?]; intros [x H]; now inversion H. Qed.

Lemma gain_set_cutoff v n : gain_value (set_cutoff v n) = gain_value n.
Proof. now destruct n as [[] ? ?]. Qed.

Lemma gain_set_frequency v n : gain_value (set_frequency v n) = gain_value n.
Proof. now destruct n as [[] ? ?]. Qed.

Lemma cutoff_set_gain v n : cutoff_value (set_gain v n) = cutoff_value n.
Proof. now destruct n as [[] ? ?]. Qed.

Lemma cutoff_set_frequency v n : cutoff_value (set_frequency v n) = cutoff_value n.
Proof. now destruct n as [[] ? ?]. Qed.

Lemma frequency_set_gain v n : frequency_value (set_gain v n) = frequency_value n.
Proof. now destruct n as [[] ? ?]. Qed.

Lemma frequency_set_cutoff v n : frequency_value (set_cutoff v n) = frequency_value n.
Proof. now destruct n as [[] ? ?]. Qed.

Lemma is_oscillator_frequency (g : graph) (i : nat) :
  is_oscillator g i = true <-> is_Some (read frequency_value g i).
Proof.
  unfold is_oscillator, read.
  destruct (nodes g !! i) as [[[] ? ?]|]; simpl; split;
    (discriminate || eauto || (intros [? H]; discriminate H)).
Qed.

End GraphParameters.

(* ===================================================================== *)
(** * Properties of the sustained-note protocol                           *)
(* ===================================================================== *)

Section Modulation.
Import Graph Engine EngineSpec.
Local Open Scope R_scope.

Lemma truthy_nonzero (f : R) : f <> 0 -> truthy (JNum f) = true.
Proof. intros Hf. simpl. now destruct (Req_dec_T f 0). Qed.

(** The three parameter writes of [modulateSustainedNote], on an entry
    whose layer is still there. *)
Lemma modulate_registered (e : engine) (noteId : string) (pressure : R)
      (note : SustainedNote) (layer : AudioLayer) :
  sustainedNotes e !! noteId = Some note ->
  layers e !! layerId note = Some layer ->
  let e' := modulateSustainedNote noteId pressure e in
  e' = with_audio (audio e') e
  /\ length (nodes (audio e')) = length (nodes (audio e))
  /\ edges (audio e') = edges (audio e)
  /\ (is_Some (gain_of e note) ->
      gain_of e' note
      = Some (Rmax 0.1 (Rmin 1.0 pressure) * baseVolume note * volume layer))
  /\ (is_Some (cutoff_of e note) ->
      cutoff_of e' note = Some (200 + pressure * 3800))
  /\ (forall f, is_oscillator (audio e) (source note) = true ->
                baseFrequency note = JNum f -> f <> 0 ->
                frequency_of e' note
                = Some (JNum (f * (1 + (pressure - 0.5) * 0.02)))).
Proof.
  intros Hn Hl e'. subst e'. unfold modulateSustainedNote. rewrite Hn, Hl.
  set (g1 := update_node (set_gain _) (gain note) (audio e)).
  set (g2 := update_node (set_cutoff _) (filter note) g1).
  assert (is_oscillator g2 (source note) = is_oscillator (audio e) (source note))
    as Hosc.
  { unfold g2, g1. rewrite !is_oscillator_update; [reflexivity|..];
      intros n; [now rewrite frequency_set_gain | now rewrite frequency_set_cutoff]. }
  rewrite Hosc.
  split; [reflexivity|]. split.
  { destruct (_ && _); simpl; unfold g2, g1; simpl;
      now rewrite ?length_alter. }
  split; [now destruct (_ && _)|].
  split; [|split].
  - intros Hg. unfold gain_of in *. simpl.
    assert (read gain_value g2 (gain note)
            = Some (Rmax 0.1 (Rmin 1.0 pressure) * baseVolume note * volume layer))
      as E.
    { unfold g2. rewrite read_update_frame by apply gain_set_cutoff.
      unfold g1. rewrite read_update_hit. unfold read in Hg.
      destruct (nodes (audio e) !! gain note) as [n|]; simpl in *.
      - now apply gain_set_gain.
      - now destruct Hg. }
    destruct (_ && _); [|exact E].
    now rewrite read_update_frame by apply gain_set_frequency.
  - intros Hc. unfold cutoff_of in *. simpl.
    assert (read cutoff_value g2 (filter note) = Some (200 + pressure * 3800))
      as E.
    { unfold g2. rewrite read_update_hit. unfold g1, read, update_node. simpl.
      unfold read in Hc.
      destruct (decide (gain note = filter note)) as [Eq|ne].
      - rewrite <- Eq in *. rewrite list_lookup_alter_eq.
        destruct (nodes (audio e) !! gain note) as [n|]; simpl in *.
        + apply cutoff_set_cutoff. now rewrite cutoff_set_gain.
        + now destruct Hc.
      - rewrite list_lookup_alter_ne by assumption.
        destruct (nodes (audio e) !! filter note) as [n|]; simpl in *.
        + now apply cutoff_set_cutoff.
        + now destruct Hc. }
    destruct (_ && _); [|exact E].
    now rewrite read_update_frame by apply cutoff_set_frequency.
  - intros f Ho Hb Hf. rewrite Ho, Hb, (truthy_nonzero f Hf). simpl.
    unfold frequency_of. simpl. rewrite read_update_hit.
    assert (is_Some (read frequency_value g2 (source note))) as Hs.
    { apply is_oscillator_frequency. now rewrite Hosc. }
    unfold read in Hs. destruct (nodes g2 !! source note) as [n|]; simpl in *.
    + now apply frequency_set_frequency.
    + now destruct Hs.
Qed.

End Modulation.

Section ModulationClaims.
Import Graph Engine EngineSpec.
Local Open Scope R_scope.

Lemma held_A4_entry :
  sustainedNotes held_A4 !! "piano-A4-0"
  = Some (mkSustained 0 1 2 3 "piano" (0.6 * 0.4) (Pitch.noteToFrequency "A4")).
Proof. reflexivity. Qed.

Lemma held_A4_frequency : Pitch.noteToFrequency "A4" = JNum 440.00.
Proof.
  unfold Pitch.noteToFrequency, js_get. simpl.
  destruct (Req_dec_T 440.00 0); [lra | reflexivity].
Qed.

(** C10.  An entry of the registry whose layer is no longer in the layer
    map: [modulateSustainedNote] returns the engine as it was, so no
    gain, cutoff or frequency is written and the entry stays. *)
Theorem modulate_without_layer (e : engine) (noteId : string) (pressure : R)
        (note : SustainedNote) :
  sustainedNotes e !! noteId = Some note ->
  layers e !! layerId note = None ->
  modulateSustainedNote noteId pressure e = e.
Proof.
  intros Hn Hl. unfold modulateSustainedNote. now rewrite Hn, Hl.
Qed.

Lemma modulate_without_layer_witness :
  modulateSustainedNote "piano-A4-0" 0.9 orphaned_A4 = orphaned_A4.
Proof.
  apply (modulate_without_layer orphaned_A4 "piano-A4-0" 0.9
           (mkSustained 0 1 2 3 "piano" (0.6 * 0.4)
                        (Pitch.noteToFrequency "A4")));
    reflexivity.
Defined.

(** C1, as the code has it.  On an id that is not registered the call
    changes nothing.  On a registered id whose layer exists (and whose
    entry refers to a gain and a filter node, as every entry of a
    reachable engine does) it allocates
    no node and leaves the registry alone; it sets the gain to
    clamp(pressure, 0.1, 1) × baseVolume × layer.volume (the floor is
    0.1, not 0; above 0.1 this is clamp(pressure, 0, 1) × ...); it sets
    the cutoff to 200 + 3800 × pressure, strictly increasing in the
    pressure and mapping [0,1] onto [200, 4000]; and for an oscillator
    with a non-zero base frequency it sets the frequency to
    base × (1 + 0.02 × (pressure − 0.5)), within 1 % of the base for a
    pressure in [0,1]. *)
Theorem modulateSustainedNote_spec (e : engine) (noteId : string)
        (pressure : R) :
  (sustainedNotes e !! noteId = None ->
   modulateSustainedNote noteId pressure e = e)
  /\ (forall note layer,
        sustainedNotes e !! noteId = Some note ->
        layers e !! layerId note = Some layer ->
        chain_wired e note ->
        let e' := modulateSustainedNote noteId pressure e in
        sustainedNotes e' = sustainedNotes e
        /\ length (nodes (audio e')) = length (nodes (audio e))
        /\ gain_of e' note
           = Some (Rmax 0.1 (Rmin 1.0 pressure) * baseVolume note * volume layer)
        /\ (0.1 <= pressure ->
            gain_of e' note
            = Some (Rmax 0 (Rmin 1 pressure) * baseVolume note * volume layer))
        /\ cutoff_of e' note = Some (200 + pressure * 3800)
        /\ (0 <= pressure <= 1 -> 200 <= 200 + pressure * 3800 <= 4000)
        /\ (forall q c c',
              cutoff_of e' note = Some c ->
              cutoff_of (modulateSustainedNote noteId q e) note = Some c' ->
              pressure < q -> c < c')
        /\ (forall c, 200 <= c <= 4000 ->
              exists q, 0 <= q <= 1
                /\ cutoff_of (modulateSustainedNote noteId q e) note = Some c)
        /\ (forall f,
              is_oscillator (audio e) (source note) = true ->
              baseFrequency note = JNum f -> f <> 0 ->
              frequency_of e' note
              = Some (JNum (f * (1 + (pressure - 0.5) * 0.02)))
              /\ (0 <= pressure <= 1 ->
                  Rabs (f * (1 + (pressure - 0.5) * 0.02) - f)
                  <= 0.01 * Rabs f))).
Proof.
  split.
  { intros Hn. unfold modulateSustainedNote. now rewrite Hn. }
  intros note layer Hn Hl [Hg Hc] e'.
  destruct (modulate_registered e noteId pressure note layer Hn Hl)
    as (He & Hlen & _ & Hgain & Hcut & Hfreq).
  fold e' in He, Hlen, Hgain, Hcut, Hfreq.
  split; [now rewrite He|]. split; [assumption|].
  split; [now apply Hgain|]. split.
  { intros Hp. rewrite (Hgain Hg). do 3 f_equal.
    unfold Rmax, Rmin. repeat destruct Rle_dec; lra. }
  split; [now apply Hcut|]. split; [intros; lra|]. split.
  { intros q c c' Ec Ec' Hlt.
    destruct (modulate_registered e noteId q note layer Hn Hl)
      as (_ & _ & _ & _ & Hcut' & _).
    rewrite (Hcut Hc) in Ec. rewrite (Hcut' Hc) in Ec'.
    injection Ec as <-. injection Ec' as <-. lra. }
  split.
  { intros c Hr. exists ((c - 200) / 3800). split; [lra|].
    destruct (modulate_registered e noteId ((c - 200) / 3800) note layer Hn Hl)
      as (_ & _ & _ & _ & Hcut' & _).
    rewrite (Hcut' Hc). f_equal. lra. }
  intros f Ho Hb Hf. split; [now apply Hfreq|].
  intros Hp.
  replace (f * (1 + (pressure - 0.5) * 0.02) - f)
    with (f * ((pressure - 0.5) * 0.02)) by ring.
  rewrite Rabs_mult, Rmult_comm.
  apply Rmult_le_compat_r; [apply Rabs_pos|]. apply Rabs_le. lra.
Qed.

Lemma modulateSustainedNote_spec_witness :
  let note := mkSustained 0 1 2 3 "piano" (0.6 * 0.4)
                          (Pitch.noteToFrequency "A4") in
  let e' := modulateSustainedNote "piano-A4-0" 0.9 held_A4 in
  gain_of e' note = Some (Rmax 0.1 (Rmin 1.0 0.9) * (0.6 * 0.4) * 0.6)
  /\ cutoff_of e' note = Some (200 + 0.9 * 3800)
  /\ frequency_of e' note = Some (JNum (440.00 * (1 + (0.9 - 0.5) * 0.02))).
Proof.
  intros note e'.
  destruct (proj2 (modulateSustainedNote_spec held_A4 "piano-A4-0" 0.9)
              note piano eq_refl eq_refl)
    as (_ & _ & Hg & _ & Hc & _ & _ & _ & Hf).
  { split; eexists; reflexivity. }
  split; [exact Hg|]. split; [exact Hc|].
  apply (Hf 440.00); [reflexivity | apply held_A4_frequency | lra].
Defined.

(** C1 as stated fails at pressure 0: the gain written is
    0.1 × baseVolume × layer.volume = 0.0144, while
    clamp(0, 0, 1) × baseVolume × layer.volume is 0. *)
Lemma modulate_zero_pressure_gain :
  exists note layer g,
    sustainedNotes held_A4 !! "piano-A4-0" = Some note
    /\ layers held_A4 !! layerId note = Some layer
    /\ gain_of (modulateSustainedNote "piano-A4-0" 0 held_A4) note = Some g
    /\ g <> Rmax 0 (Rmin 1 0) * baseVolume note * volume layer.
Proof.
  exists (mkSustained 0 1 2 3 "piano" (0.6 * 0.4) (Pitch.noteToFrequency "A4")),
         piano, (Rmax 0.1 (Rmin 1.0 0) * (0.6 * 0.4) * 0.6).
  split; [reflexivity|]. split; [reflexivity|]. split.
  - destruct (modulate_registered held_A4 "piano-A4-0" 0 _ piano
                held_A4_entry eq_refl) as (_ & _ & _ & Hg & _).
    apply Hg. eexists. reflexivity.
  - simpl. unfold Rmax, Rmin. repeat destruct Rle_dec; lra.
Qed.

End ModulationClaims.

(* ===================================================================== *)
(** * Timers and the lifetime of a sustained note                         *)
(* ===================================================================== *)

Section Timers.
Import Graph Engine EngineSpec.

Lemma schedule_In (due : N) (a : timer_action) (q : list (N * timer_action))
      (x : N * timer_action) :
  In x (schedule due a q) <-> x = (due, a) \/ In x q.
Proof.
  induction q as [|[d b] rest IH]; simpl.
  - intuition.
  - destruct (d <=? due)%N; simpl; rewrite ?IH; intuition.
Qed.

(** A timer callback touches the audio graph and, for the cleanup of a
    sustained note, removes one id from the registry: nothing else. *)
Lemma run_timer_registry (a : timer_action) (e : engine) :
  sustainedNotes (run_timer a e)
  = match a with
    | CleanupSustained noteId _ => delete noteId (sustainedNotes e)
    | _ => sustainedNotes e
    end.
Proof. now destruct a. Qed.

Lemma run_timer_frame (a : timer_action) (e : engine) :
  timers (run_timer a e) = timers e /\ clock (run_timer a e) = clock e
  /\ layers (run_timer a e) = layers e /\ pending (run_timer a e) = pending e
  /\ context (run_timer a e) = context e.
Proof. now destruct a. Qed.

Lemma fire_timers_frame (l : list (N * timer_action)) (e : engine) :
  timers (fire_timers l e) = timers e /\ clock (fire_timers l e) = clock e
  /\ layers (fire_timers l e) = layers e.
Proof.
  revert e. induction l as [|x l IH]; intros e; simpl; [auto|].
  destruct (IH (run_timer (snd x) e)) as (-> & -> & ->).
  destruct (run_timer_frame (snd x) e) as (-> & -> & -> & _). auto.
Qed.

Lemma fire_timers_absent (l : list (N * timer_action)) (e : engine)
      (noteId : string) :
  sustainedNotes e !! noteId = None ->
  sustainedNotes (fire_timers l e) !! noteId = None.
Proof.
  revert e. induction l as [|[d a] l IH]; intros e H; simpl; [assumption|].
  apply IH. rewrite run_timer_registry. destruct a; simpl; try assumption.
  rewrite lookup_delete. now case_decide.
Qed.

Lemma fire_timers_cleanup (l : list (N * timer_action)) (e : engine)
      (noteId : string) (due : N) (note : SustainedNote) :
  In (due, CleanupSustained noteId note) l ->
  sustainedNotes (fire_timers l e) !! noteId = None.
Proof.
  revert e. induction l as [|x l IH]; intros e; simpl; [contradiction|].
  intros [->|Hin]; [|now apply IH].
  apply fire_timers_absent. simpl. apply lookup_delete_eq.
Qed.


Lemma advance_unfold (ms : N) (e : engine) :
  advance ms e
  = fire_timers (List.filter (is_due (clock e + ms)) (timers e))
      (with_timers (List.filter (fun x => negb (is_due (clock e + ms) x))
                                (timers e))
                   (with_clock (clock e + ms)%N e)).
Proof. reflexivity. Qed.

Lemma advance_clock (ms : N) (e : engine) :
  clock (advance ms e) = (clock e + ms)%N.
Proof.
  rewrite advance_unfold.
  now destruct (fire_timers_frame
                  (List.filter (is_due (clock e + ms)) (timers e))
                  (with_timers (List.filter (fun x => negb (is_due (clock e + ms) x))
                                            (timers e))
                               (with_clock (clock e + ms)%N e)))
    as (_ & -> & _).
Qed.

Lemma advance_absent (ms : N) (e : engine) (noteId : string) :
  sustainedNotes e !! noteId = None ->
  sustainedNotes (advance ms e) !! noteId = None.
Proof. intros H. rewrite advance_unfold. now apply fire_timers_absent. Qed.

(** A cleanup that falls due within the wait removes its id. *)
Lemma advance_cleanup (ms : N) (e : engine) (noteId : string) (due : N)
      (note : SustainedNote) :
  In (due, CleanupSustained noteId note) (timers e) ->
  (due <= clock e + ms)%N ->
  sustainedNotes (advance ms e) !! noteId = None.
Proof.
  intros Hin Hdue. rewrite advance_unfold.
  apply fire_timers_cleanup with due note.
  apply filter_In. split; [assumption|].
  unfold is_due. simpl. now apply N.leb_le.
Qed.

(** A timer that is not yet due is still in the queue after the wait. *)
Lemma advance_not_due (ms : N) (e : engine) (x : N * timer_action) :
  In x (timers e) -> (clock e + ms < fst x)%N -> In x (timers (advance ms e)).
Proof.
  intros Hin Hlt. rewrite advance_unfold.
  destruct (fire_timers_frame
              (List.filter (is_due (clock e + ms)) (timers e))
              (with_timers (List.filter (fun x => negb (is_due (clock e + ms) x))
                                        (timers e))
                           (with_clock (clock e + ms)%N e)))
    as (-> & _). simpl.
  apply filter_In. split; [assumption|].
  unfold is_due. apply negb_true_iff. now apply N.leb_gt.
Qed.


Lemma stop_absent (noteId : string) (e : engine) :
  sustainedNotes e !! noteId = None -> stopSustainedNote noteId e = e.
Proof. intros H. unfold stopSustainedNote. now rewrite H. Qed.

Lemma stop_frame (noteId : string) (e : engine) :
  sustainedNotes (stopSustainedNote noteId e) = sustainedNotes e
  /\ clock (stopSustainedNote noteId e) = clock e
  /\ (forall x, In x (timers e) -> In x (timers (stopSustainedNote noteId e))).
Proof.
  unfold stopSustainedNote. destruct (sustainedNotes e !! noteId); [|auto].
  repeat split; try reflexivity.
  intros x Hin. simpl. apply schedule_In. now right.
Qed.

Lemma stop_schedules (noteId : string) (e : engine) (note : SustainedNote) :
  sustainedNotes e !! noteId = Some note ->
  In ((clock e + 500)%N, CleanupSustained noteId note)
     (timers (stopSustainedNote noteId e)).
Proof.
  intros H. unfold stopSustainedNote. rewrite H. simpl.
  apply schedule_In. now left.
Qed.

(** After [stopSustainedNote], 500 ms are enough for the id to be gone,
    whether or not it was registered. *)
Lemma stop_then_wait (noteId : string) (e : engine) (ms : N) :
  (500 <= ms)%N ->
  sustainedNotes (advance ms (stopSustainedNote noteId e)) !! noteId = None.
Proof.
  intros Hms. destruct (sustainedNotes e !! noteId) as [note|] eqn:E.
  - apply advance_cleanup with (clock e + 500)%N note.
    + now apply stop_schedules.
    + destruct (stop_frame noteId e) as (_ & -> & _). lia.
  - rewrite stop_absent by assumption. now apply advance_absent.
Qed.

End Timers.

Section Disposal.
Import Graph Engine EngineSpec.

Lemma disposed_at_update (f : node -> node) (i : nat) (g : graph) (j : nat) :
  (forall n, disposed n = true -> disposed (f n) = true) ->
  disposed_at g j -> disposed_at (update_node f i g) j.
Proof.
  intros Hf (n & Hn & Hd). unfold disposed_at, update_node. simpl.
  destruct (decide (i = j)) as [->|ne].
  - exists (f n). rewrite list_lookup_alter_eq, Hn. auto.
  - exists n. rewrite list_lookup_alter_ne by assumption. auto.
Qed.

Lemma dispose_length (i : nat) (g : graph) :
  length (nodes (Graph.dispose i g)) = length (nodes g).
Proof. apply length_alter. Qed.

Lemma dispose_keeps (i : nat) (g : graph) (j : nat) :
  disposed_at g j -> disposed_at (Graph.dispose i g) j.
Proof.
  intros H.
  apply (disposed_at_update (fun n => mkNode (kind n) (started n) true) i) in H;
    [exact H | reflexivity].
Qed.

Lemma dispose_disposes (i : nat) (g : graph) :
  (i < length (nodes g))%nat -> disposed_at (Graph.dispose i g) i.
Proof.
  intros Hi. destruct (lookup_lt_is_Some_2 _ _ Hi) as [n Hn].
  exists (mkNode (kind n) (started n) true). simpl.
  now rewrite list_lookup_alter_eq, Hn.
Qed.

Lemma dispose_unless_length (i : nat) (g : graph) :
  length (nodes (dispose_unless_disposed i g)) = length (nodes g).
Proof.
  unfold dispose_unless_disposed.
  destruct (nodes g !! i) as [n|]; [|reflexivity].
  destruct (disposed n); [reflexivity | apply dispose_length].
Qed.

Lemma dispose_unless_keeps (i : nat) (g : graph) (j : nat) :
  disposed_at g j -> disposed_at (dispose_unless_disposed i g) j.
Proof.
  intros H. unfold dispose_unless_disposed.
  destruct (nodes g !! i) as [n|]; [|assumption].
  destruct (disposed n); [assumption | now apply dispose_keeps].
Qed.

Lemma dispose_unless_disposes (i : nat) (g : graph) :
  (i < length (nodes g))%nat -> disposed_at (dispose_unless_disposed i g) i.
Proof.
  intros Hi. unfold dispose_unless_disposed.
  destruct (nodes g !! i) as [n|] eqn:Hn.
  - destruct (disposed n) eqn:Hd; [now exists n | now apply dispose_disposes].
  - apply lookup_ge_None in Hn. lia.
Qed.

Lemma run_timer_length (a : timer_action) (e : engine) :
  length (nodes (audio (run_timer a e))) = length (nodes (audio e)).
Proof.
  destruct a as [src env gn|osc env gn|noteId note|osc env gn chain];
    cbn [run_timer audio with_audio with_sustainedNotes];
    rewrite ?dispose_unless_length, ?dispose_length; try reflexivity.
  destruct (chain =? env)%nat; now rewrite ?dispose_length.
Qed.

Lemma run_timer_keeps (a : timer_action) (e : engine) (j : nat) :
  disposed_at (audio e) j -> disposed_at (audio (run_timer a e)) j.
Proof.
  intros H.
  destruct a as [src env gn|osc env gn|noteId note|osc env gn chain];
    cbn [run_timer audio with_audio with_sustainedNotes];
    try destruct (chain =? env)%nat;
    repeat first [apply dispose_unless_keeps | apply dispose_keeps];
    assumption.
Qed.

Lemma run_cleanup_disposes (noteId : string) (note : SustainedNote)
      (e : engine) :
  chain_allocated (audio e) note ->
  let g := audio (run_timer (CleanupSustained noteId note) e) in
  disposed_at g (source note) /\ disposed_at g (envelope note)
  /\ disposed_at g (gain note) /\ disposed_at g (filter note).
Proof.
  intros (Hs & He & Hg & Hf). cbn [run_timer audio with_audio with_sustainedNotes].
  repeat split.
  - do 3 apply dispose_unless_keeps. now apply dispose_unless_disposes.
  - do 2 apply dispose_unless_keeps. apply dispose_unless_disposes.
    now rewrite dispose_unless_length.
  - apply dispose_unless_keeps. apply dispose_unless_disposes.
    now rewrite !dispose_unless_length.
  - apply dispose_unless_disposes. now rewrite !dispose_unless_length.
Qed.

Lemma fire_timers_length (l : list (N * timer_action)) (e : engine) :
  length (nodes (audio (fire_timers l e))) = length (nodes (audio e)).
Proof.
  revert e. induction l as [|x l IH]; intros e; simpl; [reflexivity|].
  unfold fire_timers in IH. now rewrite IH, run_timer_length.
Qed.

Lemma fire_timers_keeps (l : list (N * timer_action)) (e : engine) (j : nat) :
  disposed_at (audio e) j -> disposed_at (audio (fire_timers l e)) j.
Proof.
  revert e. induction l as [|x l IH]; intros e H; simpl; [assumption|].
  apply IH. now apply run_timer_keeps.
Qed.

Lemma fire_timers_disposes (l : list (N * timer_action)) (e : engine)
      (noteId : string) (due : N) (note : SustainedNote) :
  In (due, CleanupSustained noteId note) l ->
  chain_allocated (audio e) note ->
  Disposed (fire_timers l e) noteId note.
Proof.
  intros Hin Ha. split; [now apply fire_timers_cleanup with due note|].
  revert e Ha. induction l as [|x l IH]; intros e Ha; [contradiction|].
  destruct Hin as [->|Hin].
  - simpl. destruct (run_cleanup_disposes noteId note e Ha) as (? & ? & ? & ?).
    repeat split; now apply fire_timers_keeps.
  - simpl. apply IH; [assumption|].
    unfold chain_allocated. now rewrite run_timer_length.
Qed.

(** A pending cleanup that falls due within the wait brings its note to
    [Disposed]. *)
Lemma advance_disposes (ms : N) (e : engine) (noteId : string) (due : N)
      (note : SustainedNote) :
  In (due, CleanupSustained noteId note) (timers e) ->
  (due <= clock e + ms)%N ->
  chain_allocated (audio e) note ->
  Disposed (advance ms e) noteId note.
Proof.
  intros Hin Hdue Ha. rewrite advance_unfold.
  apply fire_timers_disposes with due; [|exact Ha].
  apply filter_In. split; [assumption|].
  unfold is_due. simpl. now apply N.leb_le.
Qed.

Lemma stop_then_wait_disposed (noteId : string) (e : engine) (ms : N)
      (note : SustainedNote) :
  sustainedNotes e !! noteId = Some note ->
  chain_allocated (audio e) note ->
  (500 <= ms)%N ->
  Disposed (advance ms (stopSustainedNote noteId e)) noteId note.
Proof.
  intros Hn Ha Hms.
  apply advance_disposes with (clock e + 500)%N.
  - now apply stop_schedules.
  - destruct (stop_frame noteId e) as (_ & -> & _). lia.
  - unfold stopSustainedNote. rewrite Hn. unfold chain_allocated. simpl.
    now rewrite length_alter.
Qed.

End Disposal.

Section Starting.
Import Graph Engine EngineSpec.

Lemma sustain_id_nonempty (layerId what : string) (now : N) :
  sustain_id layerId what now <> "".
Proof. unfold sustain_id. destruct layerId; discriminate. Qed.

Lemma start_note_refused (e : engine) (note layerId : string) (v : R) :
  layers e !! layerId = None
  \/ (exists l, layers e !! layerId = Some l /\ muted l = true) ->
  startSustainedNote note layerId v e = ("", e).
Proof.
  unfold startSustainedNote. intros [->|(l & -> & ->)]; reflexivity.
Qed.

Lemma start_drum_refused (e : engine) (drumType layerId : string) (v : R) :
  layers e !! layerId = None
  \/ (exists l, layers e !! layerId = Some l /\ muted l = true) ->
  startSustainedDrum drumType layerId v e = ("", e).
Proof.
  unfold startSustainedDrum. intros [->|(l & -> & ->)]; reflexivity.
Qed.

(** The store after a chain of four nodes was appended to it. *)
Ltac chain_nodes :=
  cbn [nodes edges audio with_audio with_sustainedNotes];
  rewrite ?length_alter, ?length_app; cbn [length];
  rewrite <- ?app_assoc; cbn [app];
  rewrite ?alter_app_r_alt by lia;
  rewrite ?lookup_app_r by lia;
  repeat match goal with
         | |- context [(?n + 1 + 1 + 1 - ?n)%nat] =>
             replace (n + 1 + 1 + 1 - n)%nat with 3%nat by lia
         | |- context [(?n + 1 + 1 - ?n)%nat] =>
             replace (n + 1 + 1 - n)%nat with 2%nat by lia
         | |- context [(?n + ?k - ?n)%nat] =>
             replace (n + k - n)%nat with k by lia
         | |- context [(?n - ?n)%nat] =>
             replace (n - n)%nat with 0%nat by lia
         end.

Lemma startSustainedNote_started (e : engine) (note layerId : string) (v : R)
      (l : AudioLayer) :
  layers e !! layerId = Some l -> muted l = false ->
  sustained_started e layerId note (startSustainedNote note layerId v e).
Proof.
  intros Hl Hm. unfold startSustainedNote. rewrite Hl, Hm.
  cbv beta iota zeta delta [alloc connect Graph.start update_node].
  split; [reflexivity|]. split; [apply sustain_id_nonempty|].
  eexists. split; [reflexivity|]. split; [reflexivity|].
  destruct (audio e) as [ns es] eqn:Ea. split; [|split; [|split]].
  - unfold phase_of, read. cbn [envelope]. chain_nodes. reflexivity.
  - unfold chain_allocated. cbn [source envelope gain filter]. chain_nodes. lia.
  - split; [unfold gain_of | unfold cutoff_of]; unfold read;
      cbn [gain filter]; chain_nodes; simpl; eauto.
  - repeat split.
Qed.

Lemma startSustainedDrum_started (e : engine) (drumType layerId : string)
      (v : R) (l : AudioLayer) :
  layers e !! layerId = Some l -> muted l = false ->
  sustained_started e layerId drumType (startSustainedDrum drumType layerId v e).
Proof.
  intros Hl Hm. unfold startSustainedDrum. rewrite Hl, Hm.
  destruct (audio e) as [ns es] eqn:Ea.
  destruct (String.eqb drumType "kick"), (String.eqb drumType "snare"),
    (includes drumType "hat");
    cbv beta iota zeta delta [alloc connect Graph.start update_node];
    (split; [reflexivity|]); (split; [apply sustain_id_nonempty|]);
    (eexists; split; [reflexivity|]; split; [reflexivity|]);
    (split; [|split; [|split]]);
    try (unfold phase_of, read; cbn [envelope]; chain_nodes; reflexivity);
    try (unfold chain_allocated; cbn [source envelope gain filter];
         chain_nodes; lia);
    try (split; [unfold gain_of | unfold cutoff_of]; unfold read;
         cbn [gain filter]; chain_nodes; simpl; eauto);
    repeat split.
Qed.


End Starting.

(* ===================================================================== *)
(** * An invariant of the registry                                        *)
(* ===================================================================== *)

Section Wiring.
Import Graph Engine EngineSpec.

Lemma wiring_kept_refl (g : graph) : wiring_kept g g.
Proof. intros i. auto. Qed.

Lemma wiring_kept_trans (g1 g2 g3 : graph) :
  wiring_kept g1 g2 -> wiring_kept g2 g3 -> wiring_kept g1 g3.
Proof.
  intros H12 H23 i. destruct (H12 i), (H23 i). auto.
Qed.

Lemma wiring_kept_nodes (g g' : graph) :
  nodes g' = nodes g -> wiring_kept g g'.
Proof. intros E i. unfold read. rewrite E. auto. Qed.

Lemma kept_connect (g0 g : graph) (a : nat) (d : dest) :
  wiring_kept g0 g -> wiring_kept g0 (connect a d g).
Proof.
  intros H. apply wiring_kept_trans with g; [assumption|].
  now apply wiring_kept_nodes.
Qed.

Lemma kept_disconnect (g0 g : graph) (a : nat) :
  wiring_kept g0 g -> wiring_kept g0 (disconnect a g).
Proof.
  intros H. apply wiring_kept_trans with g; [assumption|].
  now apply wiring_kept_nodes.
Qed.

Lemma kept_alloc (g0 g : graph) (n : node) :
  wiring_kept g0 g -> wiring_kept g0 (mkGraph (nodes g ++ [n]) (edges g)).
Proof.
  intros H. apply wiring_kept_trans with g; [assumption|].
  intros i. unfold read. simpl.
  destruct (nodes g !! i) as [m|] eqn:E.
  - rewrite (lookup_app_l_Some _ _ _ _ E). auto.
  - simpl. split; intros [x Hx]; discriminate Hx.
Qed.

Lemma kept_update (g0 g : graph) (f : node -> node) (i : nat) :
  keeps_kind f -> wiring_kept g0 g -> wiring_kept g0 (update_node f i g).
Proof.
  intros Hf H. apply wiring_kept_trans with g; [assumption|].
  intros j. unfold read, update_node. simpl.
  destruct (decide (i = j)) as [->|ne].
  - rewrite list_lookup_alter_eq. destruct (nodes g !! j) as [n|]; simpl; [|auto].
    apply Hf.
  - rewrite list_lookup_alter_ne by assumption. auto.
Qed.

Lemma keeps_kind_started b : keeps_kind (fun n => mkNode (kind n) b (disposed n)).
Proof. intros n. auto. Qed.

Lemma keeps_kind_disposed b : keeps_kind (fun n => mkNode (kind n) (started n) b).
Proof. intros n. auto. Qed.

Lemma keeps_kind_set_phase p : keeps_kind (set_phase p).
Proof. intros [[] ? ?]; simpl; auto. Qed.

Lemma keeps_kind_set_gain v : keeps_kind (set_gain v).
Proof. intros [[] ? ?]; simpl; auto. Qed.

Lemma keeps_kind_set_cutoff v : keeps_kind (set_cutoff v).
Proof. intros [[] ? ?]; simpl; auto. Qed.

Lemma keeps_kind_set_Q v : keeps_kind (set_Q v).
Proof. intros [[] ? ?]; simpl; auto. Qed.

Lemma keeps_kind_set_frequency v : keeps_kind (set_frequency v).
Proof. intros [[] ? ?]; simpl; auto. Qed.

Lemma kept_start (g0 g : graph) (i : nat) :
  wiring_kept g0 g -> wiring_kept g0 (Graph.start i g).
Proof. apply kept_update, keeps_kind_started. Qed.

Lemma kept_dispose (g0 g : graph) (i : nat) :
  wiring_kept g0 g -> wiring_kept g0 (Graph.dispose i g).
Proof.
  intros H. apply kept_disconnect, kept_update;
    [apply keeps_kind_disposed | assumption].
Qed.

Lemma kept_dispose_unless (g0 g : graph) (i : nat) :
  wiring_kept g0 g -> wiring_kept g0 (dispose_unless_disposed i g).
Proof.
  intros H. unfold dispose_unless_disposed.
  destruct (nodes g !! i) as [n|]; [|assumption].
  destruct (disposed n); [assumption | now apply kept_dispose].
Qed.

Ltac kept :=
  repeat first
    [ apply wiring_kept_refl
    | apply kept_connect | apply kept_disconnect | apply kept_alloc
    | apply kept_start | apply kept_dispose | apply kept_dispose_unless
    | apply kept_update;
      [first [apply keeps_kind_set_phase | apply keeps_kind_set_gain
             | apply keeps_kind_set_cutoff | apply keeps_kind_set_Q
             | apply keeps_kind_set_frequency]|] ].

Ltac open_op :=
  cbv beta iota zeta delta [alloc];
  repeat match goal with
         | |- context [match ?x with _ => _ end] =>
             match type of x with
             | bool => destruct x
             | option _ => destruct x
             | ctx_state => destruct x
             end; cbv beta iota zeta delta [alloc]
         end.

Lemma chain_wired_kept (e e' : engine) (note : SustainedNote) :
  wiring_kept (audio e) (audio e') -> chain_wired e note -> chain_wired e' note.
Proof.
  intros H [Hg Hc]. split.
  - now apply (proj1 (H (gain note))).
  - now apply (proj2 (H (filter note))).
Qed.

Lemma sound_refl (e : engine) : sound e e.
Proof. split; [apply wiring_kept_refl | auto]. Qed.

Lemma sound_trans (e1 e2 e3 : engine) : sound e1 e2 -> sound e2 e3 -> sound e1 e3.
Proof.
  intros [K12 R12] [K23 R23]. split.
  - now apply wiring_kept_trans with (audio e2).
  - intros noteId note H3. destruct (R23 _ _ H3) as [H2|W]; [|now right].
    destruct (R12 _ _ H2) as [H1|W]; [now left | right].
    now apply chain_wired_kept with e2.
Qed.

(** A step that leaves the registry alone. *)
Lemma sound_same_registry (e e' : engine) :
  sustainedNotes e' = sustainedNotes e ->
  wiring_kept (audio e) (audio e') -> sound e e'.
Proof. intros E K. split; [assumption|]. intros noteId note. rewrite E. auto. Qed.

Lemma sound_playSyntheticDrum drumType vol e :
  sound e (playSyntheticDrum drumType vol e).
Proof.
  apply sound_same_registry.
  - unfold playSyntheticDrum. open_op; reflexivity.
  - unfold playSyntheticDrum.
    open_op; cbn [audio setTimeout with_timers with_audio]; kept.
Qed.

Lemma sound_playSampleInternal sampleId layerId v e :
  sound e (playSampleInternal sampleId layerId v e).
Proof.
  unfold playSampleInternal.
  destruct (layers e !! layerId) as [l|]; [|apply sound_refl].
  destruct (muted l); [apply sound_refl | apply sound_playSyntheticDrum].
Qed.

Lemma sound_on_resumed t e : sound e (on_resumed t e).
Proof. apply sound_same_registry; [reflexivity | apply wiring_kept_refl]. Qed.

Lemma sound_playSample sampleId layerId v e :
  sound e (playSample sampleId layerId v e).
Proof.
  unfold playSample.
  destruct (layers e !! layerId) as [l|]; [|apply sound_refl].
  destruct (muted l); [apply sound_refl|].
  destruct (context e);
    [apply sound_on_resumed | apply sound_playSampleInternal
    | apply sound_on_resumed].
Qed.

Lemma sound_playSyntheticNote note layerId v e :
  sound e (playSyntheticNote note layerId v e).
Proof.
  unfold playSyntheticNote.
  destruct (layers e !! layerId) as [l|]; [|apply sound_refl].
  destruct (muted l); [apply sound_refl|].
  apply sound_same_registry; [open_op; reflexivity|].
  open_op; cbn [audio setTimeout with_timers with_audio]; kept.
Qed.

Lemma sound_playAdvancedSynthInternal f layerId v ty ps e :
  sound e (playAdvancedSynthInternal f layerId v ty ps e).
Proof.
  unfold playAdvancedSynthInternal.
  destruct (layers e !! layerId) as [l|]; [|apply sound_refl].
  destruct (muted l); [apply sound_refl|].
  destruct (p_filter (default default_params ps)),
    (p_modulation (default default_params ps));
    (apply sound_same_registry; [open_op; reflexivity|]);
    open_op; cbn [audio setTimeout with_timers with_audio]; kept.
Qed.

Lemma sound_playAdvancedSynth f layerId v ty ps e :
  sound e (playAdvancedSynth f layerId v ty ps e).
Proof.
  unfold playAdvancedSynth.
  destruct (context e);
    [apply sound_on_resumed | apply sound_playAdvancedSynthInternal
    | apply sound_playAdvancedSynthInternal].
Qed.

Lemma sound_started (e : engine) (layerId what : string) (r : string * engine) :
  sustained_started e layerId what r ->
  wiring_kept (audio e) (audio (snd r)) -> sound e (snd r).
Proof.
  destruct r as [noteId e']. simpl.
  intros (_ & _ & entry & Hreg & _ & _ & _ & Hw & _) K.
  split; [assumption|]. intros id note. rewrite Hreg.
  intros [[_ <-]|[_ H]]%lookup_insert_Some; [now right | now left].
Qed.

Lemma sound_startSustainedNote note layerId v e :
  sound e (snd (startSustainedNote note layerId v e)).
Proof.
  destruct (layers e !! layerId) as [l|] eqn:Hl;
    [destruct (muted l) eqn:Hm|].
  - rewrite start_note_refused by eauto. apply sound_refl.
  - apply sound_started with layerId note;
      [now apply startSustainedNote_started with l|].
    unfold startSustainedNote. rewrite Hl, Hm.
    open_op; cbn [snd audio with_sustainedNotes with_audio]; kept.
  - rewrite start_note_refused by eauto. apply sound_refl.
Qed.

Lemma sound_startSustainedDrum drumType layerId v e :
  sound e (snd (startSustainedDrum drumType layerId v e)).
Proof.
  destruct (layers e !! layerId) as [l|] eqn:Hl;
    [destruct (muted l) eqn:Hm|].
  - rewrite start_drum_refused by eauto. apply sound_refl.
  - apply sound_started with layerId drumType;
      [now apply startSustainedDrum_started with l|].
    unfold startSustainedDrum. rewrite Hl, Hm.
    open_op; cbn [snd audio with_sustainedNotes with_audio]; kept.
  - rewrite start_drum_refused by eauto. apply sound_refl.
Qed.

Lemma sound_modulateSustainedNote noteId pressure e :
  sound e (modulateSustainedNote noteId pressure e).
Proof.
  unfold modulateSustainedNote.
  destruct (sustainedNotes e !! noteId) as [note|]; [|apply sound_refl].
  destruct (layers e !! layerId note) as [l|]; [|apply sound_refl].
  apply sound_same_registry; [reflexivity|].
  cbn [audio with_audio]. destruct (_ && _); kept.
Qed.

Lemma sound_stopSustainedNote noteId e : sound e (stopSustainedNote noteId e).
Proof.
  unfold stopSustainedNote.
  destruct (sustainedNotes e !! noteId) as [note|]; [|apply sound_refl].
  apply sound_same_registry; [reflexivity|].
  cbn [audio setTimeout with_timers with_audio]. kept.
Qed.

Lemma sound_run_timer a e : sound e (run_timer a e).
Proof.
  destruct a as [src env gn|osc env gn|noteId note|osc env gn chain].
  - apply sound_same_registry; [reflexivity|]. cbn [run_timer audio with_audio]. kept.
  - apply sound_same_registry; [reflexivity|]. cbn [run_timer audio with_audio]. kept.
  - split.
    + cbn [run_timer audio with_audio with_sustainedNotes]. kept.
    + intros id n. cbn [run_timer sustainedNotes with_sustainedNotes with_audio].
      intros [_ H]%lookup_delete_Some. now left.
  - apply sound_same_registry; [reflexivity|]. cbn [run_timer audio with_audio].
    destruct (chain =? env)%nat; kept.
Qed.

Lemma sound_fire_timers l e : sound e (fire_timers l e).
Proof.
  revert e. induction l as [|x l IH]; intros e; [apply sound_refl|].
  apply sound_trans with (run_timer (snd x) e);
    [apply sound_run_timer | apply IH].
Qed.

Lemma sound_advance ms e : sound e (advance ms e).
Proof.
  rewrite advance_unfold.
  apply sound_trans
    with (with_timers (List.filter (fun x => negb (is_due (clock e + ms) x))
                                   (timers e))
                      (with_clock (clock e + ms)%N e));
    [|apply sound_fire_timers].
  apply sound_same_registry; [reflexivity | apply wiring_kept_refl].
Qed.

Lemma sound_run_tasks ts e :
  sound e (fold_left (fun e' t => run_task t e') ts e).
Proof.
  revert e. induction ts as [|t ts IH]; intros e; [apply sound_refl|].
  apply sound_trans with (run_task t e); [|apply IH].
  destruct t; [apply sound_playSampleInternal
              | apply sound_playAdvancedSynthInternal].
Qed.

Lemma sound_settle e : sound e (settle e).
Proof.
  unfold settle. destruct (pending e) as [|t ts]; [apply sound_refl|].
  destruct (context e);
    try (apply sound_same_registry; [reflexivity | apply wiring_kept_refl]);
    (eapply sound_trans; [|apply sound_run_tasks]);
    (apply sound_same_registry; [reflexivity | apply wiring_kept_refl]).
Qed.

Lemma sound_clearLayer layerId e : sound e (clearLayer layerId e).
Proof.
  unfold clearLayer.
  destruct (activeSources e !! layerId) as [sources|]; [|apply sound_refl].
  apply sound_same_registry; [reflexivity|]. cbn [audio].
  assert (forall g', wiring_kept (audio e) g' ->
            wiring_kept (audio e)
              (fold_left (fun g0 i => Graph.dispose i g0) sources g'))
    as H.
  { induction sources as [|i sources IH]; intros g' K; [exact K|].
    simpl. apply IH. now apply kept_dispose. }
  apply H, wiring_kept_refl.
Qed.

Lemma sound_step (e e' : engine) : step e e' -> sound e e'.
Proof.
  intros H.
  destruct H as [layer e|lid v e|lid e|v e|lid e|e|sid ok e|sid lid v e
                |n lid v e|f lid v ty ps e|n lid v e|d lid v e|nid p e|nid e
                |ms e|e];
    try (apply sound_same_registry; [reflexivity | apply wiring_kept_refl]).
  - unfold updateLayerVolume. destruct (layers e !! lid);
      [apply sound_same_registry; [reflexivity | apply wiring_kept_refl]
      | apply sound_refl].
  - unfold toggleLayerMute. destruct (layers e !! lid);
      [apply sound_same_registry; [reflexivity | apply wiring_kept_refl]
      | apply sound_refl].
  - apply sound_clearLayer.
  - unfold loadSample. destruct (bufferPool e !! sid);
      [apply sound_refl|]. destruct ok;
      [apply sound_same_registry; [reflexivity | apply wiring_kept_refl]
      | apply sound_refl].
  - apply sound_playSample.
  - apply sound_playSyntheticNote.
  - apply sound_playAdvancedSynth.
  - apply sound_startSustainedNote.
  - apply sound_startSustainedDrum.
  - apply sound_modulateSustainedNote.
  - apply sound_stopSustainedNote.
  - apply sound_advance.
  - apply sound_settle.
Qed.

(** In every state the engine can reach, each entry of the registry
    refers to a gain node and a filter node: the hypothesis
    [chain_wired] of the modulation theorem always holds. *)
Lemma reachable_registry_wired (e : engine) :
  reachable e -> registry_wired e.
Proof.
  intros (state & now & Hr).
  assert (sound (new state now) e) as [_ Hs].
  { induction Hr as [|e1 e2 e3 H12 _ IH]; [apply sound_refl|].
    apply sound_trans with e2; [now apply sound_step | exact IH]. }
  intros noteId note Hn. destruct (Hs _ _ Hn) as [H|H]; [|exact H].
  discriminate H.
Qed.

End Wiring.


Section LifetimeClaims.
Import Graph Engine EngineSpec.



(** C5.  [stopSustainedNote] on an id that is not registered changes
    nothing.  A second stop on the same id, whenever it comes, is
    harmless: 500 ms after the first one the id is out of the registry.
    And a note that is started and then stopped is out of the registry
    once 500 ms have passed. *)
Theorem stopSustainedNote_spec (e : engine) (noteId : string) :
  (sustainedNotes e !! noteId = None -> stopSustainedNote noteId e = e)
  /\ (forall d1 d2 : N,
        (500 <= d1 + d2)%N ->
        sustainedNotes
          (advance d2 (stopSustainedNote noteId
                         (advance d1 (stopSustainedNote noteId e))))
        !! noteId = None)
  /\ (forall (note layerId : string) (v : R) (ms : N),
        (500 <= ms)%N ->
        let started := startSustainedNote note layerId v e in
        sustainedNotes
          (advance ms (stopSustainedNote (fst started) (snd started)))
        !! fst started = None).
Proof.
  split; [apply stop_absent|]. split.
  - intros d1 d2 Hd.
    destruct (sustainedNotes e !! noteId) as [note|] eqn:E.
    + pose proof (stop_schedules noteId e note E) as Hin.
      destruct (stop_frame noteId e) as (_ & Hclock & _).
      set (e1 := stopSustainedNote noteId e) in *.
      destruct (N.le_gt_cases (clock e + 500) (clock e1 + d1)) as [Hdue|Hlater].
      * pose proof (advance_cleanup d1 e1 noteId _ note Hin Hdue) as Hgone.
        rewrite (stop_absent _ _ Hgone). now apply advance_absent.
      * pose proof (advance_not_due d1 e1 _ Hin Hlater) as Hin2.
        destruct (stop_frame noteId (advance d1 e1)) as (_ & Hc2 & Hkeep).
        apply advance_cleanup with (clock e + 500)%N note; [now apply Hkeep|].
        rewrite Hc2, advance_clock. lia.
    + rewrite (stop_absent _ _ E).
      pose proof (advance_absent d1 e noteId E) as H1.
      rewrite (stop_absent _ _ H1). now apply advance_absent.
  - intros note layerId v ms Hms started. now apply stop_then_wait.
Qed.

Lemma stopSustainedNote_spec_witness :
  let e := addLayer piano (new Running 0) in
  sustainedNotes
    (advance 500 (stopSustainedNote "piano-A4-0"
                    (snd (startSustainedNote "A4" "piano" 0.7%R e))))
  !! "piano-A4-0" = None.
Proof.
  intros e.
  apply (proj2 (proj2 (stopSustainedNote_spec e "")) "A4" "piano" 0.7%R 500%N).
  rewrite <- N.leb_le. reflexivity.
Defined.




End LifetimeClaims.

(* ===================================================================== *)
(** * One-shot triggers                                                   *)
(* ===================================================================== *)

Section OneShot.
Import Graph Engine EngineSpec.

Lemma with_pending_same (e : engine) : with_pending (pending e) e = e.
Proof. now destruct e. Qed.

Lemma with_pending_twice (p q : list task) (e : engine) :
  with_pending q (with_pending p e) = with_pending q e.
Proof. reflexivity. Qed.

Lemma playSample_muted (e : engine) (sampleId layerId : string) (v : R)
      (l : AudioLayer) :
  layers e !! layerId = Some l -> muted l = true ->
  playSample sampleId layerId v e = e.
Proof. intros Hl Hm. unfold playSample. now rewrite Hl, Hm. Qed.

Lemma playSampleInternal_muted (e : engine) (sampleId layerId : string) (v : R)
      (l : AudioLayer) :
  layers e !! layerId = Some l -> muted l = true ->
  playSampleInternal sampleId layerId v e = e.
Proof. intros Hl Hm. unfold playSampleInternal. now rewrite Hl, Hm. Qed.

Lemma playSyntheticNote_muted (e : engine) (note layerId : string) (v : R)
      (l : AudioLayer) :
  layers e !! layerId = Some l -> muted l = true ->
  playSyntheticNote note layerId v e = e.
Proof. intros Hl Hm. unfold playSyntheticNote. now rewrite Hl, Hm. Qed.

Lemma playAdvancedSynthInternal_muted (e : engine) (f : R) (layerId : string)
      (v : R) (ty : string) (ps : option SynthParams) (l : AudioLayer) :
  layers e !! layerId = Some l -> muted l = true ->
  playAdvancedSynthInternal f layerId v ty ps e = e.
Proof. intros Hl Hm. unfold playAdvancedSynthInternal. now rewrite Hl, Hm. Qed.

(** On a running (or closed) context [playAdvancedSynth] reaches the mute
    check and returns; on a suspended one it defers itself first. *)
Lemma playAdvancedSynth_muted (e : engine) (f : R) (layerId : string)
      (v : R) (ty : string) (ps : option SynthParams) (l : AudioLayer) :
  layers e !! layerId = Some l -> muted l = true ->
  playAdvancedSynth f layerId v ty ps e
  = match context e with
    | Suspended => on_resumed (RetrySynth f layerId v ty ps) e
    | _ => e
    end.
Proof.
  intros Hl Hm. unfold playAdvancedSynth.
  destruct (context e); try reflexivity;
    now apply playAdvancedSynthInternal_muted with l.
Qed.

Lemma fire_muted (e : engine) (layerId : string) (l : AudioLayer)
      (t : trigger) :
  layers e !! layerId = Some l -> muted l = true ->
  exists deferred,
    fire layerId t e = with_pending (pending e ++ deferred) e
    /\ (context e <> Suspended -> deferred = [])
    /\ Forall (returns_at_mute_check layerId) deferred.
Proof.
  intros Hl Hm. destruct t as [s v|n v|f v ty ps]; simpl.
  - exists []. rewrite (playSample_muted _ _ _ _ _ Hl Hm), app_nil_r.
    now rewrite with_pending_same.
  - exists []. rewrite (playSyntheticNote_muted _ _ _ _ _ Hl Hm), app_nil_r.
    now rewrite with_pending_same.
  - rewrite (playAdvancedSynth_muted _ _ _ _ _ _ _ Hl Hm).
    destruct (context e) eqn:Ec.
    + exists [RetrySynth f layerId v ty ps]. split; [reflexivity|].
      split; [congruence|]. constructor; [|constructor].
      intros x lx Hx Hmx. simpl.
      now apply playAdvancedSynthInternal_muted with lx.
    + exists []. rewrite app_nil_r. now rewrite with_pending_same.
    + exists []. rewrite app_nil_r. now rewrite with_pending_same.
Qed.

Lemma fire_all_muted (ts : list trigger) (e : engine) (layerId : string)
      (l : AudioLayer) :
  layers e !! layerId = Some l -> muted l = true ->
  exists deferred,
    fire_all layerId ts e = with_pending (pending e ++ deferred) e
    /\ (context e <> Suspended -> deferred = [])
    /\ Forall (returns_at_mute_check layerId) deferred.
Proof.
  revert e. induction ts as [|t ts IH]; intros e Hl Hm.
  - exists []. simpl. rewrite app_nil_r. now rewrite with_pending_same.
  - destruct (fire_muted e layerId l t Hl Hm) as (d1 & E1 & N1 & F1).
    change (fire_all layerId (t :: ts) e)
      with (fire_all layerId ts (fire layerId t e)).
    rewrite E1.
    destruct (IH (with_pending (pending e ++ d1) e) Hl Hm) as (d2 & E2 & N2 & F2).
    exists (d1 ++ d2)%list. rewrite E2. simpl. split; [|split].
    + now rewrite with_pending_twice, app_assoc.
    + intros Hc. now rewrite (N1 Hc), (N2 Hc).
    + now apply Forall_app.
Qed.

(** Whatever the sample pool holds, [playSample] on an audible layer of a
    running engine is [playSyntheticDrum]. *)
Lemma playSample_always_synthetic (e : engine) (sampleId layerId : string)
      (v : R) (l : AudioLayer) :
  layers e !! layerId = Some l -> muted l = false -> context e = Running ->
  playSample sampleId layerId v e
  = playSyntheticDrum sampleId (v * volume l) e.
Proof.
  intros Hl Hm Hc. unfold playSample, playSampleInternal.
  now rewrite Hl, Hm, Hc.
Qed.

End OneShot.

Section OneShotClaims.
Import Graph Engine EngineSpec.

(** C8, as the code has it.  Any number of one-shot triggers on a muted
    layer allocate no node and connect nothing: the audio graph, and with
    it what feeds the master bus, is as before.  [playSample] and
    [playSyntheticNote] return the engine unchanged; so does the whole
    series when the context is not suspended.  On a suspended context
    [playAdvancedSynth] first asks the context to resume and defers
    itself: the engine differs by these deferred calls, each of which
    returns at the mute check when it runs. *)
Theorem muted_layer_triggers (e : engine) (layerId : string) (l : AudioLayer)
        (ts : list trigger) :
  layers e !! layerId = Some l -> muted l = true ->
  let e' := fire_all layerId ts e in
  audio e' = audio e
  /\ master_inputs (audio e') = master_inputs (audio e)
  /\ (forall sampleId v, playSample sampleId layerId v e = e)
  /\ (forall note v, playSyntheticNote note layerId v e = e)
  /\ (context e <> Suspended -> e' = e)
  /\ exists deferred,
       e' = with_pending (pending e ++ deferred) e
       /\ Forall (returns_at_mute_check layerId) deferred.
Proof.
  intros Hl Hm e'.
  destruct (fire_all_muted ts e layerId l Hl Hm) as (d & E & Hn & Hf).
  fold e' in E.
  split; [now rewrite E|]. split; [now rewrite E|].
  split; [intros; now apply playSample_muted with l|].
  split; [intros; now apply playSyntheticNote_muted with l|].
  split.
  - intros Hc. rewrite E, (Hn Hc), app_nil_r. apply with_pending_same.
  - exists d. split; assumption.
Qed.

Lemma muted_layer_triggers_witness :
  let ts := [Sample "kick" 1%R; SyntheticNote "C4" 1%R;
             AdvancedSynth 440%R 0.8%R "lead" None] in
  audio (fire_all "pads" ts suspended_muted) = audio suspended_muted.
Proof.
  intros ts.
  exact (proj1 (muted_layer_triggers suspended_muted "pads" muted_pads ts
                  eq_refl eq_refl)).
Defined.

(** C8 as stated fails: on a suspended context [playAdvancedSynth] on a
    muted layer does not leave the engine as it was.  It defers itself
    until the context has resumed, and once the promise settles the
    context is running, where without the call it stays suspended. *)
Lemma muted_trigger_resumes_context :
  let e := suspended_muted in
  let e' := playAdvancedSynth 440%R "pads" 0.8%R "lead" None e in
  layers e !! "pads" = Some muted_pads /\ muted muted_pads = true
  /\ e' <> e
  /\ context (settle e) = Suspended
  /\ context (settle e') = Running.
Proof.
  intros e e'. split; [reflexivity|]. split; [reflexivity|]. split.
  - intros H. apply (f_equal pending) in H. discriminate H.
  - split; reflexivity.
Qed.

(** C3 (the code departs from the claim).  The kick sample is loaded, the
    layer exists and is audible, the context is running; [playSample]
    builds the synthetic kick (a 60 Hz sine through an envelope and a
    gain) exactly as [playSyntheticDrum] does, and the loaded buffer is
    not played. *)
Theorem playSample_ignores_loaded_sample :
  let e := kick_loaded in
  bufferPool e !! "kick" = Some true
  /\ layers e !! "drums" = Some drums /\ muted drums = false
  /\ context e = Running
  /\ playSample "kick" "drums" 1%R e = playSyntheticDrum "kick" (1 * 0.8)%R e
  /\ map kind (nodes (audio (playSample "kick" "drums" 1%R e)))
     = [Oscillator (JNum 60) "sine";
        AmplitudeEnvelope 0.01 0.2 0 0.3 (EnvAttackRelease "8n");
        Gain (Rmin (1 * 0.8 * 0.5) 0.8)].
Proof.
  intros e. repeat split.
Qed.

End OneShotClaims.

(* ===================================================================== *)
(** * Properties of the WAV encoder                                       *)
(* ===================================================================== *)

Section WavFacts.
Import Wav.
Local Open Scope list_scope.

(** A 16-bit write right after a prefix [pre] replaces the two bytes that
    follow it. *)
Lemma setUint16_at (pre post : bytes) (x y v : Z) :
  setUint16 (Datatypes.length pre) v (pre ++ x :: y :: post)
  = Some (pre ++ le16 v ++ post).
Proof.
  unfold setUint16. rewrite length_app. simpl.
  destruct (Nat.leb_spec (Datatypes.length pre + 2)
              (Datatypes.length pre + S (S (Datatypes.length post))));
    [|lia].
  f_equal.
  rewrite (insert_app_r_alt pre _ (Datatypes.length pre)) by lia.
  rewrite (insert_app_r_alt pre _ (Datatypes.length pre + 1)) by lia.
  replace (Datatypes.length pre - Datatypes.length pre)%nat with 0%nat by lia.
  replace (Datatypes.length pre + 1 - Datatypes.length pre)%nat with 1%nat by lia.
  reflexivity.
Qed.

(** The inner loop fills the slots of one frame, channel by channel. *)
Lemma write_channels (buffer : AudioBuffer) (i k : nat) :
  forall (c : nat) (pre post : bytes),
    Datatypes.length pre = (44 + (i * numberOfChannels buffer + c) * 2)%nat ->
    fold_left
      (fun acc channel =>
         a' ← acc;
         setInt16 (44 + (i * numberOfChannels buffer + channel) * 2)
                  (scaled_sample buffer channel i) a')
      (seq c k) (Some (pre ++ repeat 0%Z (k * 2) ++ post))
    = Some (pre
            ++ flat_map
                 (fun channel => le16 (ToInteger (scaled_sample buffer channel i)))
                 (seq c k)
            ++ post).
Proof.
  induction k as [|k IH]; intros c pre post Hlen; [reflexivity|].
  cbn [seq fold_left flat_map]. change (S k * 2)%nat with (S (S (k * 2))).
  cbn [repeat app mbind option_bind]. unfold setInt16.
  rewrite <- Hlen, setUint16_at.
  rewrite (app_assoc pre (le16 _)). rewrite IH.
  - now rewrite <- !app_assoc.
  - rewrite length_app, Hlen. simpl. lia.
Qed.

Lemma write_frame_at (buffer : AudioBuffer) (i : nat) (pre post : bytes) :
  Datatypes.length pre = (44 + i * numberOfChannels buffer * 2)%nat ->
  write_frame buffer i
    (Some (pre ++ repeat 0%Z (numberOfChannels buffer * 2) ++ post))
  = Some (pre ++ wav_frame buffer i ++ post).
Proof.
  intros Hlen. unfold write_frame, wav_frame. apply write_channels. lia.
Qed.

Lemma wav_frame_length (buffer : AudioBuffer) (i : nat) :
  Datatypes.length (wav_frame buffer i) = (numberOfChannels buffer * 2)%nat.
Proof.
  unfold wav_frame. generalize 0%nat at 1.
  induction (numberOfChannels buffer) as [|n IH]; intros c; [reflexivity|].
  cbn [seq flat_map]. rewrite length_app, IH. simpl. lia.
Qed.

(** The outer loop fills the frames one after the other. *)
Lemma write_frames (buffer : AudioBuffer) (m : nat) :
  forall (i : nat) (pre : bytes),
    Datatypes.length pre = (44 + i * numberOfChannels buffer * 2)%nat ->
    fold_left (fun acc j => write_frame buffer j acc) (seq i m)
      (Some (pre ++ repeat 0%Z (m * numberOfChannels buffer * 2)))
    = Some (pre ++ flat_map (wav_frame buffer) (seq i m)).
Proof.
  induction m as [|m IH]; intros i pre Hlen; [reflexivity|].
  cbn [seq fold_left flat_map].
  replace (S m * numberOfChannels buffer * 2)%nat
    with (numberOfChannels buffer * 2 + m * numberOfChannels buffer * 2)%nat
    by lia.
  rewrite repeat_app, write_frame_at by assumption.
  rewrite (app_assoc pre (wav_frame buffer i)). rewrite IH.
  - now rewrite <- app_assoc.
  - rewrite length_app, wav_frame_length, Hlen. lia.
Qed.

(** The thirteen header writes, run on the zeroed buffer. *)
Lemma header_written (buffer : AudioBuffer) :
  bufferToWAV buffer
  = fold_left (fun acc i => write_frame buffer i acc) (seq 0 (length buffer))
      (Some (wav_header buffer
             ++ ArrayBuffer (length buffer * numberOfChannels buffer * 2))).
Proof. reflexivity. Qed.

(** [bufferToWAV] never fails, and the file is the canonical layout. *)
Lemma bufferToWAV_layout (buffer : AudioBuffer) :
  bufferToWAV buffer = Some (wav_header buffer ++ wav_data buffer).
Proof.
  rewrite header_written. unfold ArrayBuffer, wav_data.
  apply write_frames. reflexivity.
Qed.

End WavFacts.

Section WavBytes.
Import Wav WavSpec.
Local Open Scope list_scope.

Lemma flat_map_chunk_lookup {A B : Type} (f : A -> list B) (k : nat)
      (l : list A) :
  (forall a, Datatypes.length (f a) = k) ->
  forall (j r : nat) (x : A),
    l !! j = Some x -> (r < k)%nat ->
    flat_map f l !! (j * k + r)%nat = f x !! r.
Proof.
  intros Hk. induction l as [|a l IH]; intros j r x Hj Hr; [discriminate|].
  cbn [flat_map]. destruct j as [|j].
  - injection Hj as ->. simpl. rewrite lookup_app_l; [reflexivity|].
    now rewrite Hk.
  - rewrite lookup_app_r by (rewrite Hk; lia).
    rewrite Hk. replace (S j * k + r - k)%nat with (j * k + r)%nat by lia.
    now apply IH.
Qed.

Lemma wav_data_lookup (buffer : AudioBuffer) (channel i r : nat) :
  (channel < numberOfChannels buffer)%nat -> (i < length buffer)%nat ->
  (r < 2)%nat ->
  wav_data buffer !! ((i * numberOfChannels buffer + channel) * 2 + r)%nat
  = le16 (ToInteger (scaled_sample buffer channel i)) !! r.
Proof.
  intros Hc Hi Hr. unfold wav_data.
  replace ((i * numberOfChannels buffer + channel) * 2 + r)%nat
    with (i * (numberOfChannels buffer * 2) + (channel * 2 + r))%nat by lia.
  rewrite (flat_map_chunk_lookup (wav_frame buffer)
             (numberOfChannels buffer * 2) _ (wav_frame_length buffer) i _ i);
    [|now apply lookup_seq_lt | lia].
  unfold wav_frame.
  apply (flat_map_chunk_lookup
           (fun ch => le16 (ToInteger (scaled_sample buffer ch i))) 2);
    [reflexivity | now apply lookup_seq_lt | assumption].
Qed.

Lemma wav_header_length (buffer : AudioBuffer) :
  Datatypes.length (wav_header buffer) = 44%nat.
Proof. reflexivity. Qed.

Lemma wav_data_length (buffer : AudioBuffer) :
  Datatypes.length (wav_data buffer)
  = (length buffer * numberOfChannels buffer * 2)%nat.
Proof.
  unfold wav_data. generalize 0%nat at 1.
  induction (length buffer) as [|m IH]; intros i; [reflexivity|].
  cbn [seq flat_map]. rewrite length_app, wav_frame_length, IH. lia.
Qed.

Lemma le16_decode (v : Z) :
  (v mod 256 + 256 * ((v / 256) mod 256) = v mod 65536)%Z.
Proof. Z.div_mod_to_equations; lia. Qed.

Lemma le32_decode (v : Z) :
  (v mod 256 + 256 * ((v / 256) mod 256) + 65536 * ((v / 65536) mod 256)
   + 16777216 * ((v / 16777216) mod 256) = v mod 4294967296)%Z.
Proof. Z.div_mod_to_equations; lia. Qed.

Lemma getUint16_at (off : nat) (pre post : bytes) (v : Z) :
  Datatypes.length pre = off ->
  getUint16 off (pre ++ le16 v ++ post) = (v mod 65536)%Z.
Proof.
  intros <-. unfold getUint16, getUint8.
  rewrite !(lookup_app_r pre) by lia.
  replace (Datatypes.length pre - Datatypes.length pre)%nat with 0%nat by lia.
  replace (Datatypes.length pre + 1 - Datatypes.length pre)%nat with 1%nat by lia.
  apply le16_decode.
Qed.

Lemma getUint32_at (off : nat) (pre post : bytes) (v : Z) :
  Datatypes.length pre = off ->
  getUint32 off (pre ++ le32 v ++ post) = (v mod 4294967296)%Z.
Proof.
  intros <-. unfold getUint32, getUint8.
  rewrite !(lookup_app_r pre) by lia.
  replace (Datatypes.length pre - Datatypes.length pre)%nat with 0%nat by lia.
  replace (Datatypes.length pre + 1 - Datatypes.length pre)%nat with 1%nat by lia.
  replace (Datatypes.length pre + 2 - Datatypes.length pre)%nat with 2%nat by lia.
  replace (Datatypes.length pre + 3 - Datatypes.length pre)%nat with 3%nat by lia.
  apply le32_decode.
Qed.

(** Reading a signed 16-bit value back gives the integer that was
    written, as long as it is in the 16-bit range. *)
Lemma getInt16_at (off : nat) (pre post : bytes) (v : Z) :
  Datatypes.length pre = off -> (-32768 <= v < 32768)%Z ->
  getInt16 off (pre ++ le16 v ++ post) = v.
Proof.
  intros Hoff Hv. unfold getInt16. rewrite (getUint16_at off pre post v Hoff).
  destruct (Z.ltb_spec (v mod 65536) 32768) as [L|L];
    revert L; Z.div_mod_to_equations; lia.
Qed.

(** Dropping the fraction moves a number by less than one. *)
Lemma ToInteger_near (q : Q) :
  (inject_Z (ToInteger q) - 1 < q /\ q < inject_Z (ToInteger q) + 1)%Q.
Proof.
  destruct q as [a b].
  unfold ToInteger, Qlt, Qplus, Qminus, Qopp, inject_Z. simpl.
  pose proof (Z.quot_rem' a (Z.pos b)) as E.
  pose proof (Z.rem_bound_abs a (Z.pos b) ltac:(lia)) as B.
  nia.
Qed.

Lemma clamp_range (x : Q) : (-1 <= clamp x /\ clamp x <= 1)%Q.
Proof.
  unfold clamp.
  destruct (Q.max_spec (-1) (Qmin 1 x)) as [[H1 E1]|[H1 E1]];
    destruct (Q.min_spec 1 x) as [[H2 E2]|[H2 E2]]; lra.
Qed.

Lemma clamp_inside (x : Q) : (-1 <= x <= 1)%Q -> (clamp x == x)%Q.
Proof.
  intros [Hlo Hhi]. unfold clamp.
  destruct (Q.max_spec (-1) (Qmin 1 x)) as [[H1 E1]|[H1 E1]];
    destruct (Q.min_spec 1 x) as [[H2 E2]|[H2 E2]]; lra.
Qed.

Lemma scaled_int16_range (x : Q) :
  (-32768 <= ToInteger (clamp x * 32767) < 32768)%Z.
Proof.
  destruct (ToInteger_near (clamp x * 32767)) as [Hlo Hhi].
  destruct (clamp_range x) as [Cl Ch].
  set (v := ToInteger (clamp x * 32767)) in *.
  assert (inject_Z (-32768) < inject_Z v)%Q as H1
    by (change (inject_Z (-32768)) with (-32768 # 1)%Q; lra).
  assert (inject_Z v < inject_Z 32768)%Q as H2
    by (change (inject_Z 32768) with (32768 # 1)%Q; lra).
  rewrite <- Zlt_Qlt in H1, H2. lia.
Qed.

End WavBytes.

Section WavClaims.
Import Wav WavSpec.
Local Open Scope list_scope.

(** The sample stored for channel [channel] of frame [i] decodes to the
    integer the encoder computed, which is within one unit of the clamped
    sample scaled by 32767. *)
Lemma stored_sample (buffer : AudioBuffer) (channel i : nat) (data : list Q)
      (x : Q) :
  well_formed buffer ->
  channelData buffer !! channel = Some data -> data !! i = Some x ->
  let file := wav_header buffer ++ wav_data buffer in
  let v := getInt16 (44 + (i * numberOfChannels buffer + channel) * 2) file in
  v = ToInteger (clamp x * 32767)
  /\ (clamp x * 32767 - 1 < inject_Z v /\ inject_Z v < clamp x * 32767 + 1)%Q
  /\ (Qabs (decode_sample file (numberOfChannels buffer) channel i - clamp x)
      < 1 # 32767)%Q.
Proof.
  intros [Hn Hlen] Hc Hi file v.
  assert (channel < numberOfChannels buffer)%nat as Lc.
  { rewrite <- Hn. now apply lookup_lt_Some with data. }
  assert (i < length buffer)%nat as Li.
  { rewrite Forall_forall in Hlen.
    rewrite <- (Hlen data) by (apply list_elem_of_lookup; eauto).
    now apply lookup_lt_Some with x. }
  assert (scaled_sample buffer channel i = (clamp x * 32767)%Q) as Es.
  { unfold scaled_sample. rewrite Hc. simpl. now rewrite Hi. }
  pose proof (wav_data_lookup buffer channel i 0 Lc Li ltac:(lia)) as B0.
  pose proof (wav_data_lookup buffer channel i 1 Lc Li ltac:(lia)) as B1.
  rewrite Es in B0, B1. simpl in B0, B1.
  assert (v = ToInteger (clamp x * 32767)) as Ev.
  { subst v file. unfold getInt16, getUint16, getUint8.
    rewrite !(lookup_app_r (wav_header buffer)) by (rewrite wav_header_length; lia).
    rewrite wav_header_length.
    replace (44 + (i * numberOfChannels buffer + channel) * 2 - 44)%nat
      with ((i * numberOfChannels buffer + channel) * 2 + 0)%nat by lia.
    replace (44 + (i * numberOfChannels buffer + channel) * 2 + 1 - 44)%nat
      with ((i * numberOfChannels buffer + channel) * 2 + 1)%nat by lia.
    rewrite B0, B1. simpl. rewrite le16_decode.
    pose proof (scaled_int16_range x) as R.
    destruct (Z.ltb_spec (ToInteger (clamp x * 32767) mod 65536) 32768) as [L|L];
      revert L; Z.div_mod_to_equations; lia. }
  split; [exact Ev|].
  destruct (ToInteger_near (clamp x * 32767)) as [Hlo Hhi].
  split; [rewrite Ev; split; lra|].
  apply Qabs_Qlt_condition. unfold decode_sample. fold file. fold v.
  rewrite Ev. unfold Qdiv.
  change (/ 32767)%Q with (1 # 32767)%Q. lra.
Qed.

(** C9.  For a buffer whose channels all have [length] samples and whose
    sizes fit the fields of a RIFF file, [bufferToWAV] returns a file of
    44 + length × channels × 2 bytes: the chunk ids RIFF, WAVE, "fmt " and
    data at offsets 0, 8, 12 and 36; little-endian sizes 36 + data size
    and data size; format 1, the channel count, the sample rate, the byte
    rate, the block size and 16 bits per sample; then the samples,
    interleaved, each clamped to [-1,1], scaled by 32767 and stored as a
    little-endian 16-bit integer that is less than one unit away from the
    scaled sample, so that decoding returns the clamped sample (the sample
    itself when it lies in [-1,1]) to within one step of 1/32767. *)
Theorem bufferToWAV_spec (buffer : AudioBuffer) :
  well_formed buffer -> riff_sized buffer ->
  exists file,
    bufferToWAV buffer = Some file
    /\ Datatypes.length file
       = (44 + length buffer * numberOfChannels buffer * 2)%nat
    /\ take 4 file = ascii_codes "RIFF"
    /\ take 4 (drop 8 file) = ascii_codes "WAVE"
    /\ take 4 (drop 12 file) = ascii_codes "fmt "
    /\ take 4 (drop 36 file) = ascii_codes "data"
    /\ getUint32 4 file = (36 + data_size buffer)%Z
    /\ getUint32 16 file = 16%Z
    /\ getUint16 20 file = 1%Z
    /\ getUint16 22 file = channels buffer
    /\ getUint32 24 file = sampleRate buffer
    /\ getUint32 28 file = (sampleRate buffer * channels buffer * 2)%Z
    /\ getUint16 32 file = (channels buffer * 2)%Z
    /\ getUint16 34 file = 16%Z
    /\ getUint32 40 file = data_size buffer
    /\ forall (channel i : nat) (data : list Q) (x : Q),
         channelData buffer !! channel = Some data -> data !! i = Some x ->
         let v := getInt16 (44 + (i * numberOfChannels buffer + channel) * 2)
                           file in
         v = ToInteger (clamp x * 32767)
         /\ (clamp x * 32767 - 1 < inject_Z v /\ inject_Z v < clamp x * 32767 + 1)%Q
         /\ (Qabs (decode_sample file (numberOfChannels buffer) channel i
                   - clamp x) < 1 # 32767)%Q
         /\ ((-1 <= x <= 1)%Q -> (clamp x == x)%Q).
Proof.
  intros Hwf (Hr0 & Hr1 & Hr2 & Hr3). unfold data_size, channels in *.
  assert (0 <= Z.of_nat (length buffer) * Z.of_nat (numberOfChannels buffer))%Z
    as Pln by (apply Z.mul_nonneg_nonneg; lia).
  assert (0 <= sampleRate buffer * Z.of_nat (numberOfChannels buffer))%Z as Prn
    by (apply Z.mul_nonneg_nonneg; lia).
  assert (forall v : Z, (0 <= v < 4294967296)%Z -> (v mod 4294967296 = v)%Z)
    as M32 by (intros; now apply Z.mod_small).
  assert (forall v : Z, (0 <= v < 65536)%Z -> (v mod 65536 = v)%Z)
    as M16 by (intros; now apply Z.mod_small).
  exists (wav_header buffer ++ wav_data buffer).
  split; [apply bufferToWAV_layout|].
  split; [now rewrite length_app, wav_header_length, wav_data_length|].
  do 4 (split; [reflexivity|]).
  set (h := wav_header buffer). set (data := wav_data buffer).
  split.
  { etransitivity;
      [exact (getUint32_at 4 (take 4 h) _ _ eq_refl) | apply M32; lia]. }
  split.
  { etransitivity;
      [exact (getUint32_at 16 (take 16 h) _ _ eq_refl) | reflexivity]. }
  split.
  { etransitivity;
      [exact (getUint16_at 20 (take 20 h) _ _ eq_refl) | reflexivity]. }
  split.
  { etransitivity;
      [exact (getUint16_at 22 (take 22 h) _ _ eq_refl) | apply M16; lia]. }
  split.
  { etransitivity;
      [exact (getUint32_at 24 (take 24 h) _ _ eq_refl) | apply M32; lia]. }
  split.
  { etransitivity;
      [exact (getUint32_at 28 (take 28 h) _ _ eq_refl) | apply M32; lia]. }
  split.
  { etransitivity;
      [exact (getUint16_at 32 (take 32 h) _ _ eq_refl) | apply M16; lia]. }
  split.
  { etransitivity;
      [exact (getUint16_at 34 (take 34 h) _ _ eq_refl) | reflexivity]. }
  split.
  { etransitivity;
      [exact (getUint32_at 40 (take 40 h) _ _ eq_refl) | apply M32; lia]. }
  intros channel i d x Hc Hi. subst h data.
  destruct (stored_sample buffer channel i d x Hwf Hc Hi) as (Ev & Hq & Hd).
  split; [exact Ev|]. split; [exact Hq|]. split; [exact Hd|].
  apply clamp_inside.
Qed.

Lemma bufferToWAV_spec_witness :
  exists file,
    bufferToWAV two_frames = Some file
    /\ Datatypes.length file = 52%nat
    /\ getUint32 4 file = 44%Z
    /\ getUint16 22 file = 2%Z
    /\ getUint32 24 file = 44100%Z
    /\ getUint32 40 file = 8%Z
    /\ getInt16 44 file = 16383%Z.
Proof.
  assert (well_formed two_frames) as Hwf
    by (split; [reflexivity | repeat constructor]).
  assert (riff_sized two_frames) as Hs
    by (unfold riff_sized, data_size, channels; simpl; lia).
  destruct (bufferToWAV_spec two_frames Hwf Hs)
    as (file & E & L & _ & _ & _ & _ & S1 & _ & _ & C & R & _ & _ & _ & S2 & Hx).
  exists file. split; [exact E|]. split; [exact L|]. split; [exact S1|].
  split; [exact C|]. split; [exact R|]. split; [exact S2|].
  exact (proj1 (Hx 0%nat 0%nat [1 # 2; -3 # 2]%Q (1 # 2)%Q eq_refl eq_refl)).
Defined.

(** The encoder run on the example: two stereo frames give 52 bytes. *)
Example bufferToWAV_two_frames :
  bufferToWAV two_frames
  = Some [82; 73; 70; 70; 44; 0; 0; 0; 87; 65; 86; 69; 102; 109; 116; 32;
          16; 0; 0; 0; 1; 0; 2; 0; 68; 172; 0; 0; 16; 177; 2; 0; 4; 0; 16; 0;
          100; 97; 116; 97; 8; 0; 0; 0;
          255; 63; 170; 42; 1; 128; 255; 255]%Z.
Proof. vm_compute. reflexivity. Qed.

End WavClaims.

(* ===================================================================== *)
(** * Layer controls and held notes                                     *)
(* ===================================================================== *)

Section LayerControls.
Import Graph Engine EngineSpec.
Local Open Scope R_scope.

Lemma layer_eta (l : AudioLayer) :
  mkLayer (id l) (name l) (volume l) (muted l) (solo l) (effects l) = l.
Proof. now destruct l. Qed.

Lemma with_layers_same (e : engine) : with_layers (layers e) e = e.
Proof. now destruct e. Qed.

(** X1.  [toggleLayerMute] is an involution: toggling the mute of a
    layer twice gives back the engine it started from, whether the layer
    exists or not.  One toggle negates the [muted] flag of that layer and
    keeps its volume; it touches no other layer, no node of the graph,
    no registry entry and no timer (a note that is sounding is not
    silenced by muting its layer). *)
Theorem toggleLayerMute_involutive (layerId : string) (e : engine) :
  toggleLayerMute layerId (toggleLayerMute layerId e) = e
  /\ (forall l, layers e !! layerId = Some l ->
        exists l', layers (toggleLayerMute layerId e) !! layerId = Some l'
                   /\ muted l' = negb (muted l) /\ volume l' = volume l)
  /\ (forall other, other <> layerId ->
        layers (toggleLayerMute layerId e) !! other = layers e !! other)
  /\ audio (toggleLayerMute layerId e) = audio e
  /\ sustainedNotes (toggleLayerMute layerId e) = sustainedNotes e
  /\ timers (toggleLayerMute layerId e) = timers e.
Proof.
  unfold toggleLayerMute.
  destruct (layers e !! layerId) as [l|] eqn:Hl.
  - split; [|split; [|split; [|repeat split]]].
    + cbn [layers with_layers]. rewrite lookup_insert_eq.
      cbn [id name volume muted solo effects].
      rewrite negb_involutive, layer_eta.
      unfold with_layers at 1. cbn.
      rewrite insert_insert_eq, insert_id by assumption. now destruct e.
    + intros l0 [= <-]. eexists. cbn [layers with_layers].
      rewrite lookup_insert_eq. split; [reflexivity|]. now split.
    + intros other Hne. cbn [layers with_layers].
      now rewrite lookup_insert_ne.
  - split; [now rewrite Hl|]. split; [intros l [=]|]. repeat split.
Qed.

End LayerControls.

Section HeldNotes.
Import Graph Engine EngineSpec.
Local Open Scope R_scope.

(** X2.  [modulateSustainedNote] does not look at the [muted] flag:
    after the layer of a held note is toggled, a modulation still sets
    the gain to clamp(pressure, 0.1, 1) x baseVolume x layer.volume and
    the cutoff to 200 + 3800 x pressure, the same gain as without the
    toggle. *)
Theorem modulate_ignores_mute (e : engine) (noteId : string) (pressure : R)
        (note : SustainedNote) (layer : AudioLayer) :
  sustainedNotes e !! noteId = Some note ->
  layers e !! layerId note = Some layer ->
  chain_wired e note ->
  let muted_e := toggleLayerMute (layerId note) e in
  (exists l', layers muted_e !! layerId note = Some l'
              /\ muted l' = negb (muted layer))
  /\ gain_of (modulateSustainedNote noteId pressure muted_e) note
     = Some (Rmax 0.1 (Rmin 1.0 pressure) * baseVolume note * volume layer)
  /\ cutoff_of (modulateSustainedNote noteId pressure muted_e) note
     = Some (200 + pressure * 3800)
  /\ gain_of (modulateSustainedNote noteId pressure muted_e) note
     = gain_of (modulateSustainedNote noteId pressure e) note.
Proof.
  intros Hn Hl [Hg Hc] muted_e.
  assert (layers muted_e !! layerId note
          = Some (mkLayer (id layer) (name layer) (volume layer)
                          (negb (muted layer)) (solo layer) (effects layer)))
    as Hl'.
  { unfold muted_e, toggleLayerMute. rewrite Hl. cbn [layers with_layers].
    apply lookup_insert_eq. }
  assert (sustainedNotes muted_e !! noteId = Some note) as Hn'.
  { unfold muted_e, toggleLayerMute. now rewrite Hl. }
  assert (audio muted_e = audio e) as Ha.
  { unfold muted_e, toggleLayerMute. now rewrite Hl. }
  destruct (modulate_registered muted_e noteId pressure note _ Hn' Hl')
    as (_ & _ & _ & G & C & _).
  destruct (modulate_registered e noteId pressure note _ Hn Hl)
    as (_ & _ & _ & G0 & _ & _).
  split; [eexists; split; [exact Hl' | reflexivity]|].
  assert (is_Some (gain_of muted_e note)) as Hg'
      by (unfold gain_of; now rewrite Ha).
  assert (is_Some (cutoff_of muted_e note)) as Hc'
      by (unfold cutoff_of; now rewrite Ha).
  rewrite (G Hg'), (C Hc'), (G0 Hg). cbn [volume]. auto.
Qed.

Lemma modulate_ignores_mute_witness :
  gain_of (modulateSustainedNote "piano-A4-0" 0.9
             (toggleLayerMute "piano" held_A4))
          (mkSustained 0 1 2 3 "piano" (0.6 * 0.4) (Pitch.noteToFrequency "A4"))
  = Some (Rmax 0.1 (Rmin 1.0 0.9) * (0.6 * 0.4) * 0.6).
Proof.
  refine (proj1 (proj2 (modulate_ignores_mute held_A4 "piano-A4-0" 0.9
                          _ piano held_A4_entry eq_refl _))).
  split; eexists; reflexivity.
Defined.

Ltac chain_nodes :=
  cbn [nodes edges audio with_audio with_sustainedNotes];
  rewrite ?length_alter, ?length_app; cbn [length];
  rewrite <- ?app_assoc; cbn [app];
  rewrite ?alter_app_r_alt by lia;
  rewrite ?lookup_app_r by lia;
  repeat match goal with
         | |- context [(?n + 1 + 1 + 1 - ?n)%nat] =>
             replace (n + 1 + 1 + 1 - n)%nat with 3%nat by lia
         | |- context [(?n + 1 + 1 - ?n)%nat] =>
             replace (n + 1 + 1 - n)%nat with 2%nat by lia
         | |- context [(?n + ?k - ?n)%nat] =>
             replace (n + k - n)%nat with k by lia
         | |- context [(?n - ?n)%nat] =>
             replace (n - n)%nat with 0%nat by lia
         end.

(** The entry [startSustainedNote] writes, and the gain it starts with. *)
Lemma startSustainedNote_entry (e : engine) (note layerId : string) (v : R)
      (l : AudioLayer) :
  layers e !! layerId = Some l -> muted l = false ->
  let n := length (nodes (audio e)) in
  let entry := mkSustained n (n + 1) (n + 1 + 1) (n + 1 + 1 + 1) layerId
                           (volume l * 0.4) (Pitch.noteToFrequency note) in
  let e' := snd (startSustainedNote note layerId v e) in
  sustainedNotes e' = <[sustain_id layerId note (clock e) := entry]> (sustainedNotes e)
  /\ layers e' = layers e
  /\ gain_of e' entry = Some (v * volume l * 0.4)
  /\ cutoff_of e' entry = Some (2000 + v * 2000).
Proof.
  intros Hl Hm. unfold startSustainedNote. rewrite Hl, Hm.
  cbv beta iota zeta delta [alloc connect Graph.start update_node].
  destruct (audio e) as [ns es] eqn:Ea.
  split.
  { cbn [snd sustainedNotes with_sustainedNotes with_audio nodes].
    rewrite !length_app. cbn [length]. reflexivity. }
  split; [reflexivity|].
  split; [unfold gain_of | unfold cutoff_of]; unfold read;
    cbn [gain filter snd]; chain_nodes; reflexivity.
Qed.

(** X3.  [startSustainedNote] on an unmuted layer registers an entry
    under the id it returns, with the gain at velocity x layer.volume x
    0.4.  The first modulation replaces it by clamp(pressure, 0.1, 1) x
    0.4 x layer.volume squared: [baseVolume] already holds the layer
    volume and [modulateSustainedNote] multiplies by it again, so at
    full pressure the gain is 0.4 x layer.volume squared. *)
Theorem start_then_modulate_gain (e : engine) (what layerId : string)
        (v pressure : R) (l : AudioLayer) :
  layers e !! layerId = Some l -> muted l = false ->
  let started := startSustainedNote what layerId v e in
  exists entry,
    sustainedNotes (snd started) !! fst started = Some entry
    /\ gain_of (snd started) entry = Some (v * volume l * 0.4)
    /\ gain_of (modulateSustainedNote (fst started) pressure (snd started)) entry
       = Some (Rmax 0.1 (Rmin 1.0 pressure) * 0.4 * (volume l * volume l))
    /\ (1 <= pressure ->
        gain_of (modulateSustainedNote (fst started) pressure (snd started)) entry
        = Some (0.4 * (volume l * volume l))).
Proof.
  intros Hl Hm started.
  destruct (startSustainedNote_entry e what layerId v l Hl Hm)
    as (Hreg & Hlay & Hg & Hc).
  assert (fst started = sustain_id layerId what (clock e)) as Hid.
  { unfold started, startSustainedNote. rewrite Hl, Hm.
    cbv beta iota zeta delta [alloc]. reflexivity. }
  fold started in Hreg, Hlay, Hg, Hc.
  eexists. rewrite Hid. split; [rewrite Hreg; apply lookup_insert_eq|].
  split; [exact Hg|].
  match type of Hg with gain_of _ ?en = _ => set (entry := en) in * end.
  assert (sustainedNotes (snd started) !! sustain_id layerId what (clock e)
          = Some entry) as Hn by (rewrite Hreg; apply lookup_insert_eq).
  assert (layers (snd started) !! Engine.layerId entry = Some l) as Hl'
      by (now rewrite Hlay).
  destruct (modulate_registered _ _ pressure _ _ Hn Hl') as (_ & _ & _ & G & _).
  assert (gain_of (modulateSustainedNote (sustain_id layerId what (clock e))
                     pressure (snd started)) entry
          = Some (Rmax 0.1 (Rmin 1.0 pressure) * 0.4 * (volume l * volume l)))
    as HG.
  { rewrite G by (rewrite Hg; eauto). cbn [baseVolume entry].
    apply (f_equal Some). nra. }
  split; [exact HG|]. intros Hp. rewrite HG. apply (f_equal Some).
  rewrite Rmin_left by lra. rewrite Rmax_right by lra. nra.
Qed.

Lemma start_then_modulate_gain_witness :
  let started := startSustainedNote "A4" "piano" 0.7
                   (addLayer piano (new Running 0)) in
  exists entry,
    sustainedNotes (snd started) !! fst started = Some entry
    /\ gain_of (snd started) entry = Some (0.7 * 0.6 * 0.4)
    /\ gain_of (modulateSustainedNote (fst started) 1 (snd started)) entry
       = Some (Rmax 0.1 (Rmin 1.0 1) * 0.4 * (0.6 * 0.6))
    /\ (1 <= 1 ->
        gain_of (modulateSustainedNote (fst started) 1 (snd started)) entry
        = Some (0.4 * (0.6 * 0.6))).
Proof.
  exact (start_then_modulate_gain (addLayer piano (new Running 0)) "A4" "piano"
           0.7 1 piano eq_refl eq_refl).
Defined.

(** A second modulation overwrites what the first one set. *)

Lemma lookup_alter_if {A : Type} (f : A -> A) (i j : nat) (l : list A) :
  alter f i l !! j = (if decide (i = j) then f else fun x => x) <$> l !! j.
Proof.
  rewrite list_lookup_alter.
  destruct (decide (i = j)) as [->|Hne]; [reflexivity|].
  now destruct (l !! j).
Qed.

Lemma is_oscillator_set_gain v g i j :
  is_oscillator (update_node (set_gain v) i g) j = is_oscillator g j.
Proof. apply is_oscillator_update. intros n. now rewrite frequency_set_gain. Qed.

Lemma is_oscillator_set_cutoff v g i j :
  is_oscillator (update_node (set_cutoff v) i g) j = is_oscillator g j.
Proof. apply is_oscillator_update. intros n. now rewrite frequency_set_cutoff. Qed.

Lemma is_oscillator_set_frequency v g i j :
  is_oscillator (update_node (set_frequency v) i g) j = is_oscillator g j.
Proof.
  apply is_oscillator_update.
  intros [[] ? ?]; cbn; split; intros H; first [reflexivity | discriminate H].
Qed.

(** X4.  Modulations do not accumulate: modulating a note with
    pressure [p] and then with [q] leaves the engine exactly as
    modulating it with [q] alone.  In particular the pitch bend is taken
    from the stored base frequency, not from the current one. *)
Theorem modulateSustainedNote_last_wins (e : engine) (noteId : string)
        (p q : R) :
  modulateSustainedNote noteId q (modulateSustainedNote noteId p e)
  = modulateSustainedNote noteId q e.
Proof.
  unfold modulateSustainedNote at 2.
  destruct (sustainedNotes e !! noteId) as [note|] eqn:Hn; [|reflexivity].
  destruct (layers e !! layerId note) as [layer|] eqn:Hl; [|reflexivity].
  unfold modulateSustainedNote.
  cbn [sustainedNotes layers with_audio audio]. rewrite Hn, Hl.
  unfold with_audio. cbn. f_equal.
  rewrite !is_oscillator_set_cutoff, !is_oscillator_set_gain.
  destruct (is_oscillator (audio e) (source note) && truthy (baseFrequency note))
    eqn:Hc.
  - rewrite is_oscillator_set_frequency, !is_oscillator_set_cutoff,
      !is_oscillator_set_gain, Hc.
    unfold update_node. cbn [nodes edges]. f_equal.
    apply list_eq. intros j. rewrite !lookup_alter_if.
    destruct (nodes (audio e) !! j) as [n|]; [|reflexivity].
    cbn. f_equal.
    repeat case_decide; destruct n as [[] ? ?]; reflexivity.
  - rewrite !is_oscillator_set_cutoff, !is_oscillator_set_gain, Hc.
    unfold update_node. cbn [nodes edges]. f_equal.
    apply list_eq. intros j. rewrite !lookup_alter_if.
    destruct (nodes (audio e) !! j) as [n|]; [|reflexivity].
    cbn. f_equal.
    repeat case_decide; destruct n as [[] ? ?]; reflexivity.
Qed.

(** X5.  Once a note has been stopped and 500 ms (or more) have
    passed, its id is dead: modulating it or stopping it again changes
    nothing in the engine. *)
Theorem released_note_is_inert (e : engine) (noteId : string) (ms : N)
        (pressure : R) :
  (500 <= ms)%N ->
  let e' := advance ms (stopSustainedNote noteId e) in
  modulateSustainedNote noteId pressure e' = e'
  /\ stopSustainedNote noteId e' = e'.
Proof.
  intros Hms e'.
  pose proof (stop_then_wait noteId e ms Hms) as H. fold e' in H.
  unfold modulateSustainedNote, stopSustainedNote. now rewrite H.
Qed.

Lemma released_note_is_inert_witness :
  let e' := advance 500 (stopSustainedNote "piano-A4-0" held_A4) in
  modulateSustainedNote "piano-A4-0" 0.9 e' = e'
  /\ stopSustainedNote "piano-A4-0" e' = e'.
Proof.
  apply (released_note_is_inert held_A4 "piano-A4-0" 500 0.9). lia.
Defined.

End HeldNotes.

(* ===================================================================== *)
(** * Which nodes the engine can still reach                            *)
(* ===================================================================== *)

Section Store.
Import Graph Engine EngineSpec Ownership.
Local Open Scope R_scope.

Lemma same_at_refl i g : same_at i g g.
Proof. split; auto. Qed.

Lemma same_at_trans i g1 g2 g3 :
  same_at i g1 g2 -> same_at i g2 g3 -> same_at i g1 g3.
Proof. intros [N1 E1] [N2 E2]. split; [congruence | auto]. Qed.

Lemma same_at_update i f j g : j <> i -> same_at i g (update_node f j g).
Proof.
  intros Hne. split; [|auto]. cbn [update_node nodes].
  now apply list_lookup_alter_ne.
Qed.

Lemma same_at_disconnect i j g : j <> i -> same_at i g (disconnect j g).
Proof.
  intros Hne. split; [reflexivity|]. intros d Hin. cbn [disconnect edges].
  apply List.filter_In. split; [assumption|]. cbn [fst].
  apply negb_true_iff, Nat.eqb_neq. congruence.
Qed.

Lemma same_at_dispose i j g : j <> i -> same_at i g (Graph.dispose j g).
Proof.
  intros Hne. unfold Graph.dispose.
  eapply same_at_trans; [apply same_at_update | apply same_at_disconnect];
    assumption.
Qed.

Lemma same_at_dispose_unless i j g :
  j <> i -> same_at i g (dispose_unless_disposed j g).
Proof.
  intros Hne. unfold dispose_unless_disposed.
  destruct (nodes g !! j) as [n|]; [|apply same_at_refl].
  destruct (disposed n); [apply same_at_refl | now apply same_at_dispose].
Qed.

Lemma extends_refl g : extends g g.
Proof. split; [lia | intros; apply same_at_refl]. Qed.

Lemma extends_alloc g0 g n :
  extends g0 g -> extends g0 (mkGraph (nodes g ++ [n]) (edges g)).
Proof.
  intros [L S]. split; [cbn [nodes]; rewrite length_app; lia|].
  intros i Hi. destruct (S i Hi) as [N E]. split; [|exact E].
  cbn [nodes]. rewrite lookup_app_l by lia. exact N.
Qed.

Lemma extends_connect g0 g a d : extends g0 g -> extends g0 (connect a d g).
Proof.
  intros [L S]. split; [exact L|]. intros i Hi. destruct (S i Hi) as [N E].
  split; [exact N|]. intros d' Hin. cbn [connect edges].
  apply in_or_app. left. auto.
Qed.

Lemma extends_update g0 g f j :
  extends g0 g -> (length (nodes g0) <= j)%nat -> extends g0 (update_node f j g).
Proof.
  intros [L S] Hj. split; [cbn [update_node nodes]; now rewrite length_alter|].
  intros i Hi. eapply same_at_trans; [apply S, Hi | apply same_at_update; lia].
Qed.

Lemma extends_start g0 g j :
  extends g0 g -> (length (nodes g0) <= j)%nat -> extends g0 (Graph.start j g).
Proof. apply extends_update. Qed.

Lemma extends_disconnect g0 g j :
  extends g0 g -> (length (nodes g0) <= j)%nat -> extends g0 (disconnect j g).
Proof.
  intros [L S] Hj. split; [exact L|].
  intros i Hi. eapply same_at_trans; [apply S, Hi | apply same_at_disconnect; lia].
Qed.

Lemma frame_refl e : frame e e.
Proof.
  split; [lia|]. split; [auto|]. intros; apply same_at_refl.
Qed.

Lemma frame_trans e1 e2 e3 : frame e1 e2 -> frame e2 e3 -> frame e1 e3.
Proof.
  intros (L12 & H12 & S12) (L23 & H23 & S23).
  split; [lia|]. split.
  - intros i H3. destruct (H23 i H3) as [H2|F].
    + destruct (H12 i H2) as [H1|F]; [now left | right].
      unfold fresh in *. lia.
    + right. unfold fresh in *. lia.
  - intros i Hi Hn. eapply same_at_trans; [now apply S12|].
    apply S23; [lia|]. intros H2. destruct (H12 i H2) as [H1|F];
      [contradiction | unfold fresh in F; lia].
Qed.

(** A step that leaves the graph alone and adds no reference. *)
Lemma frame_same e e' :
  audio e' = audio e -> (forall i, held e' i -> held e i) -> frame e e'.
Proof.
  intros Ea Hh. split; [now rewrite Ea|]. split; [auto|].
  intros i _ _. rewrite Ea. apply same_at_refl.
Qed.

Lemma held_same e e' i :
  sustainedNotes e' = sustainedNotes e -> timers e' = timers e ->
  activeSources e' = activeSources e -> held e' i -> held e i.
Proof. unfold held. intros -> -> ->. auto. Qed.

Lemma frame_one_shot e e' : one_shot e e' -> frame e e'.
Proof.
  intros [->|(g & a & ms & -> & [L S] & F)]; [apply frame_refl|].
  split; [exact L|]. split.
  - intros i [(id & note & H & Hin)|[(due & b & H & Hin)|(l & s & H & Hin)]].
    + left. left. eauto.
    + cbn [setTimeout timers with_timers with_audio] in H.
      apply schedule_In in H as [[= -> ->]|H].
      * right. rewrite Forall_forall in F. apply F.
        now apply list_elem_of_In.
      * left. right. left. eauto.
    + left. right. right. eauto.
  - intros i Hi _. now apply S.
Qed.

Lemma frame_registered e e' : registered e e' -> frame e e'.
Proof.
  intros [->|(g & id & entry & -> & [L S] & F)]; [apply frame_refl|].
  split; [exact L|]. split.
  - intros i [(id' & note & H & Hin)|[(due & b & H & Hin)|(l & s & H & Hin)]].
    + cbn [sustainedNotes with_sustainedNotes] in H.
      apply lookup_insert_Some in H as [[_ <-]|[_ H]].
      * right. rewrite Forall_forall in F. apply F. now apply list_elem_of_In.
      * left. left. eauto.
    + left. right. left. eauto.
    + left. right. right. eauto.
  - intros i Hi _. now apply S.
Qed.

Ltac store_lengths :=
  repeat first [rewrite length_alter | rewrite length_app]; cbn [length].

Ltac store_length :=
  cbn [nodes edges connect disconnect update_node Graph.start audio
       setTimeout with_timers with_audio with_sustainedNotes];
  store_lengths; lia.

Ltac extended :=
  repeat first
    [ apply extends_refl
    | apply extends_connect
    | apply extends_alloc
    | apply extends_start; [|store_length]
    | apply extends_update; [|store_length]
    | apply extends_disconnect; [|store_length] ].

Ltac all_fresh :=
  unfold chain; cbn [captured source envelope gain filter];
  repeat (apply Forall_cons; split; [unfold fresh; store_length|]);
  apply Forall_nil_2.

Ltac open_op :=
  cbv beta iota zeta delta [alloc];
  repeat match goal with
         | |- context [match ?x with _ => _ end] =>
             match type of x with
             | bool => destruct x
             | option _ => destruct x
             | ctx_state => destruct x
             end; cbv beta iota zeta delta [alloc]
         end.

Lemma one_shot_playSyntheticDrum drumType vol e :
  one_shot e (playSyntheticDrum drumType vol e).
Proof.
  right. unfold playSyntheticDrum.
  open_op; do 3 eexists; (split; [reflexivity|]); (split; [extended | all_fresh]).
Qed.

Lemma one_shot_playSampleInternal sampleId layerId v e :
  one_shot e (playSampleInternal sampleId layerId v e).
Proof.
  unfold playSampleInternal.
  destruct (layers e !! layerId) as [l|]; [|now left].
  destruct (muted l); [now left | apply one_shot_playSyntheticDrum].
Qed.

Lemma one_shot_playSyntheticNote note layerId v e :
  one_shot e (playSyntheticNote note layerId v e).
Proof.
  unfold playSyntheticNote.
  destruct (layers e !! layerId) as [l|]; [|now left].
  destruct (muted l); [now left|]. right.
  open_op; do 3 eexists; (split; [reflexivity|]); (split; [extended | all_fresh]).
Qed.

Lemma one_shot_playAdvancedSynthInternal f layerId v ty ps e :
  one_shot e (playAdvancedSynthInternal f layerId v ty ps e).
Proof.
  unfold playAdvancedSynthInternal.
  destruct (layers e !! layerId) as [l|]; [|now left].
  destruct (muted l); [now left|]. right.
  destruct (p_filter (default default_params ps)),
    (p_modulation (default default_params ps));
    open_op; do 3 eexists; (split; [reflexivity|]);
    (split; [extended | all_fresh]).
Qed.

Lemma registered_startSustainedNote note layerId v e :
  registered e (snd (startSustainedNote note layerId v e)).
Proof.
  unfold startSustainedNote.
  destruct (layers e !! layerId) as [l|]; [|now left].
  destruct (muted l); [now left|]. right.
  open_op; do 3 eexists; (split; [reflexivity|]); (split; [extended | all_fresh]).
Qed.

Lemma registered_startSustainedDrum drumType layerId v e :
  registered e (snd (startSustainedDrum drumType layerId v e)).
Proof.
  unfold startSustainedDrum.
  destruct (layers e !! layerId) as [l|]; [|now left].
  destruct (muted l); [now left|]. right.
  open_op; do 3 eexists; (split; [reflexivity|]); (split; [extended | all_fresh]).
Qed.

Lemma same_at_then_update i g0 g f j :
  same_at i g0 g -> j <> i -> same_at i g0 (update_node f j g).
Proof. intros H Hne. eapply same_at_trans; [exact H | now apply same_at_update]. Qed.

Lemma same_at_then_dispose i g0 g j :
  same_at i g0 g -> j <> i -> same_at i g0 (Graph.dispose j g).
Proof. intros H Hne. eapply same_at_trans; [exact H | now apply same_at_dispose]. Qed.

Lemma same_at_then_dispose_unless i g0 g j :
  same_at i g0 g -> j <> i -> same_at i g0 (dispose_unless_disposed j g).
Proof.
  intros H Hne. eapply same_at_trans; [exact H | now apply same_at_dispose_unless].
Qed.

Lemma held_entry e noteId note i :
  sustainedNotes e !! noteId = Some note -> In i (chain note) -> held e i.
Proof. intros H Hin. left. eauto. Qed.

Lemma frame_modulateSustainedNote noteId pressure e :
  frame e (modulateSustainedNote noteId pressure e).
Proof.
  unfold modulateSustainedNote.
  destruct (sustainedNotes e !! noteId) as [note|] eqn:Hn; [|apply frame_refl].
  destruct (layers e !! layerId note) as [l|]; [|apply frame_refl].
  split; [cbn [audio with_audio]; destruct (_ && _); store_length|].
  split.
  - intros i H. left. revert H. now apply held_same.
  - intros i _ Hfree. cbn [audio with_audio].
    assert (gain note <> i /\ filter note <> i /\ source note <> i)
      as (Hg & Hf & Hs).
    { repeat split; intros <-; apply Hfree, (held_entry e noteId note);
        try assumption; cbn; auto. }
    destruct (_ && _);
      repeat first [apply same_at_refl
                   | apply same_at_then_update; [|assumption]].
Qed.

Lemma frame_stopSustainedNote noteId e : frame e (stopSustainedNote noteId e).
Proof.
  unfold stopSustainedNote.
  destruct (sustainedNotes e !! noteId) as [note|] eqn:Hn; [|apply frame_refl].
  split; [cbn [audio setTimeout with_timers with_audio]; store_length|].
  split.
  - intros i [(id & n & H & Hin)|[(due & b & H & Hin)|(l & s & H & Hin)]].
    + left. left. eauto.
    + cbn [setTimeout timers with_timers with_audio] in H.
      apply schedule_In in H as [[= -> ->]|H].
      * left. now apply (held_entry e noteId note).
      * left. right. left. eauto.
    + left. right. right. eauto.
  - intros i _ Hfree. cbn [audio setTimeout with_timers with_audio].
    apply same_at_update. intros <-.
    apply Hfree, (held_entry e noteId note); [assumption | cbn; auto].
Qed.

Lemma run_timer_same_at a e i :
  ~ In i (captured a) -> same_at i (audio e) (audio (run_timer a e)).
Proof.
  destruct a as [src env gn|osc env gn|noteId note|osc env gn effectChain];
    cbn [captured]; intros Hn;
    cbn [run_timer audio with_audio with_sustainedNotes];
    try destruct (_ =? _)%nat;
    repeat first
      [ apply same_at_refl
      | apply same_at_then_dispose; [|intros <-; apply Hn; cbn; tauto]
      | apply same_at_then_dispose_unless; [|intros <-; apply Hn; cbn; tauto] ].
Qed.

Lemma run_timer_activeSources a e :
  activeSources (run_timer a e) = activeSources e.
Proof. now destruct a. Qed.

Lemma fire_timers_same_at l e i :
  (forall x, In x l -> ~ In i (captured (snd x))) ->
  same_at i (audio e) (audio (fire_timers l e)).
Proof.
  revert e. induction l as [|x l IH]; intros e H; [apply same_at_refl|].
  cbn [fire_timers fold_left].
  eapply same_at_trans; [apply run_timer_same_at, H; now left|].
  apply IH. intros y Hy. apply H. now right.
Qed.

Lemma fire_timers_activeSources l e :
  activeSources (fire_timers l e) = activeSources e.
Proof.
  revert e. induction l as [|x l IH]; intros e; [reflexivity|].
  cbn [fire_timers fold_left]. fold (fire_timers l (run_timer (snd x) e)).
  now rewrite IH, run_timer_activeSources.
Qed.

Lemma fire_timers_registry_sub l e noteId note :
  sustainedNotes (fire_timers l e) !! noteId = Some note ->
  sustainedNotes e !! noteId = Some note.
Proof.
  revert e. induction l as [|x l IH]; intros e; [auto|].
  cbn [fire_timers fold_left]. intros H. apply IH in H.
  rewrite run_timer_registry in H. destruct (snd x); try assumption.
  now apply lookup_delete_Some in H as [_ H].
Qed.

Lemma frame_advance ms e : frame e (advance ms e).
Proof.
  rewrite advance_unfold.
  set (t := (clock e + ms)%N).
  set (e0 := with_timers (List.filter (fun x => negb (is_due t x)) (timers e))
                         (with_clock t e)).
  split; [rewrite fire_timers_length; cbn; lia|]. split.
  - intros i [(id & n & H & Hin)|[(due & b & H & Hin)|(l & s & H & Hin)]];
      left.
    + apply fire_timers_registry_sub in H. left. eauto.
    + destruct (fire_timers_frame (List.filter (is_due t) (timers e)) e0)
        as (Ht & _). rewrite Ht in H. cbn in H.
      apply List.filter_In in H as [H _]. right. left. eauto.
    + rewrite fire_timers_activeSources in H. right. right. eauto.
  - intros i _ Hfree.
    change (audio e) with (audio e0). apply fire_timers_same_at.
    intros [due a] [Hin _]%List.filter_In Hc. apply Hfree. right. left. eauto.
Qed.

Lemma fold_dispose_length sources g :
  length (nodes (fold_left (fun g0 i => Graph.dispose i g0) sources g))
  = length (nodes g).
Proof.
  revert g. induction sources as [|j sources IH]; intros g; [reflexivity|].
  cbn [fold_left]. rewrite IH. apply dispose_length.
Qed.

Lemma fold_dispose_same_at sources g i :
  ~ In i sources ->
  same_at i g (fold_left (fun g0 j => Graph.dispose j g0) sources g).
Proof.
  revert g. induction sources as [|j sources IH]; intros g H;
    [apply same_at_refl|].
  cbn [fold_left]. apply same_at_trans with (Graph.dispose j g).
  - apply same_at_dispose. intros <-. apply H. now left.
  - apply IH. intros Hin. apply H. now right.
Qed.

Lemma frame_clearLayer layerId e : frame e (clearLayer layerId e).
Proof.
  unfold clearLayer.
  destruct (activeSources e !! layerId) as [sources|] eqn:Hs; [|apply frame_refl].
  split; [cbn [audio]; rewrite fold_dispose_length; lia|]. split.
  - intros i [(id & n & H & Hin)|[(due & b & H & Hin)|(l & s & H & Hin)]];
      left.
    + left. eauto.
    + right. left. eauto.
    + cbn [activeSources] in H.
      apply lookup_insert_Some in H as [[_ <-]|[_ H]]; [destruct Hin|].
      right. right. eauto.
  - intros i _ Hfree. cbn [audio]. apply fold_dispose_same_at.
    intros Hin. apply Hfree. right. right. eauto.
Qed.

Lemma frame_on_resumed t e : frame e (on_resumed t e).
Proof. apply frame_same; [reflexivity|]. intros i. now apply held_same. Qed.

Lemma frame_playSample sampleId layerId v e :
  frame e (playSample sampleId layerId v e).
Proof.
  unfold playSample.
  destruct (layers e !! layerId) as [l|]; [|apply frame_refl].
  destruct (muted l); [apply frame_refl|].
  destruct (context e);
    [apply frame_on_resumed
    | apply frame_one_shot, one_shot_playSampleInternal
    | apply frame_on_resumed].
Qed.

Lemma frame_playAdvancedSynth f layerId v ty ps e :
  frame e (playAdvancedSynth f layerId v ty ps e).
Proof.
  unfold playAdvancedSynth.
  destruct (context e);
    [apply frame_on_resumed
    | apply frame_one_shot, one_shot_playAdvancedSynthInternal
    | apply frame_one_shot, one_shot_playAdvancedSynthInternal].
Qed.

Lemma frame_run_tasks ts e :
  frame e (fold_left (fun e' t => run_task t e') ts e).
Proof.
  revert e. induction ts as [|t ts IH]; intros e; [apply frame_refl|].
  apply frame_trans with (run_task t e); [|apply IH].
  destruct t; apply frame_one_shot;
    [apply one_shot_playSampleInternal
    | apply one_shot_playAdvancedSynthInternal].
Qed.

Lemma frame_settle e : frame e (settle e).
Proof.
  unfold settle. destruct (pending e) as [|t ts]; [apply frame_refl|].
  destruct (context e);
    try (apply frame_same; [reflexivity | intros i; now apply held_same]);
    (eapply frame_trans; [|apply frame_run_tasks]);
    (apply frame_same; [reflexivity | intros i; now apply held_same]).
Qed.

Lemma frame_step e e' : step e e' -> frame e e'.
Proof.
  intros H.
  destruct H as [layer e|lid v e|lid e|v e|lid e|e|sid ok e|sid lid v e
                |n lid v e|f lid v ty ps e|n lid v e|d lid v e|nid p e|nid e
                |ms e|e].
  - apply frame_same; [reflexivity|].
    intros i [(id & n & H & Hin)|[(due & b & H & Hin)|(l & s & H & Hin)]].
    + left. eauto.
    + right. left. eauto.
    + cbn [addLayer activeSources] in H.
      apply lookup_insert_Some in H as [[_ <-]|[_ H]]; [destruct Hin|].
      right. right. eauto.
  - unfold updateLayerVolume. destruct (layers e !! lid); [|apply frame_refl].
    apply frame_same; [reflexivity | intros i; now apply held_same].
  - unfold toggleLayerMute. destruct (layers e !! lid); [|apply frame_refl].
    apply frame_same; [reflexivity | intros i; now apply held_same].
  - apply frame_same; [reflexivity | intros i; now apply held_same].
  - apply frame_clearLayer.
  - apply frame_same; [reflexivity|].
    intros i [(id & n & H & Hin)|[(due & b & H & Hin)|(l & s & H & Hin)]].
    + left. eauto.
    + right. left. eauto.
    + cbn [Engine.dispose activeSources] in H. now rewrite lookup_empty in H.
  - unfold loadSample. destruct (bufferPool e !! sid); [apply frame_refl|].
    destruct ok; [|apply frame_refl].
    apply frame_same; [reflexivity | intros i; now apply held_same].
  - apply frame_playSample.
  - apply frame_one_shot, one_shot_playSyntheticNote.
  - apply frame_playAdvancedSynth.
  - apply frame_registered, registered_startSustainedNote.
  - apply frame_registered, registered_startSustainedDrum.
  - apply frame_modulateSustainedNote.
  - apply frame_stopSustainedNote.
  - apply frame_advance.
  - apply frame_settle.
Qed.

Lemma frame_steps e e' : rtc step e e' -> frame e e'.
Proof.
  induction 1 as [|e1 e2 e3 H12 _ IH]; [apply frame_refl|].
  apply frame_trans with e2; [now apply frame_step | exact IH].
Qed.

Lemma scoped_frame e e' : frame e e' -> scoped e -> scoped e'.
Proof.
  intros (L & H & _) Hs i Hi. destruct (H i Hi) as [Ho|F].
  - apply Hs in Ho. lia.
  - unfold fresh in F. lia.
Qed.

Lemma scoped_new state now : scoped (new state now).
Proof.
  intros i [(id & n & H & _)|[(due & b & H & _)|(l & s & H & _)]].
  - cbn in H. now rewrite lookup_empty in H.
  - destruct H.
  - cbn in H. now rewrite lookup_empty in H.
Qed.

Lemma reachable_scoped_aux e : reachable e -> scoped e.
Proof.
  intros (state & now & Hr).
  apply scoped_frame with (new state now);
    [now apply frame_steps | apply scoped_new].
Qed.

(** A node that is not held stays as it is, whatever happens next. *)
Lemma free_node_forever e e' i :
  rtc step e e' -> (i < length (nodes (audio e)))%nat -> ~ held e i ->
  same_at i (audio e) (audio e') /\ ~ held e' i.
Proof.
  intros Hr Hi Hfree. destruct (frame_steps e e' Hr) as (L & H & S).
  split; [now apply S|]. intros H'. destruct (H i H') as [Ho|F];
    [contradiction | unfold fresh in F; lia].
Qed.

Lemma held_setTimeout e g a ms i :
  held (setTimeout a ms (with_audio g e)) i -> held e i \/ In i (captured a).
Proof.
  intros [(id & n & H & Hin)|[(due & b & H & Hin)|(l & s & H & Hin)]].
  - left. left. eauto.
  - cbn [setTimeout timers with_timers with_audio] in H.
    apply schedule_In in H as [[= -> ->]|H]; [now right|].
    left. right. left. eauto.
  - left. right. right. eauto.
Qed.

Lemma held_registered e g noteId entry i :
  held (with_sustainedNotes (<[noteId := entry]> (sustainedNotes e))
                            (with_audio g e)) i ->
  held e i \/ In i (chain entry).
Proof.
  intros [(id & n & H & Hin)|[(due & b & H & Hin)|(l & s & H & Hin)]].
  - cbn [sustainedNotes with_sustainedNotes] in H.
    apply lookup_insert_Some in H as [[_ <-]|[_ H]]; [now right|].
    left. left. eauto.
  - left. right. left. eauto.
  - left. right. right. eauto.
Qed.

(** X6.  In every engine reachable from the constructor by calls of
    the public interface, passing time and settling promises, every node
    the engine refers to (from the registry, from a pending timer or from
    a list of active sources) is in the node store.  Hence the four
    nodes of every registry entry are allocated, and stopping any
    registered note and waiting 500 ms or more leaves it disposed. *)
Theorem reachable_scoped (e : engine) :
  reachable e ->
  scoped e
  /\ forall noteId note,
       sustainedNotes e !! noteId = Some note ->
       chain_allocated (audio e) note
       /\ forall ms : N, (500 <= ms)%N ->
            Disposed (advance ms (stopSustainedNote noteId e)) noteId note.
Proof.
  intros Hr. pose proof (reachable_scoped_aux e Hr) as Hs.
  split; [exact Hs|]. intros noteId note Hn.
  assert (chain_allocated (audio e) note) as Ha.
  { unfold chain_allocated.
    repeat split; apply Hs, (held_entry e noteId note); try assumption;
      cbn; auto. }
  split; [exact Ha|]. intros ms Hms. now apply stop_then_wait_disposed.
Qed.

Lemma reachable_scoped_witness :
  scoped held_A4
  /\ forall noteId note,
       sustainedNotes held_A4 !! noteId = Some note ->
       chain_allocated (audio held_A4) note
       /\ forall ms : N, (500 <= ms)%N ->
            Disposed (advance ms (stopSustainedNote noteId held_A4)) noteId note.
Proof.
  apply (reachable_scoped held_A4). exists Running, 0%N.
  eapply rtc_l; [apply step_addLayer|]. apply rtc_once.
  apply step_startSustainedNote.
Defined.

(** No step lists an active source: the engines that can be reached
    are quiet. *)
Lemma quiet_one_shot e e' : one_shot e e' -> activeSources e' = activeSources e.
Proof. now intros [->|(g & a & ms & -> & _)]. Qed.

Lemma quiet_registered e e' : registered e e' -> activeSources e' = activeSources e.
Proof. now intros [->|(g & a & ms & -> & _)]. Qed.

Lemma quiet_run_tasks ts e :
  activeSources (fold_left (fun e' t => run_task t e') ts e) = activeSources e.
Proof.
  revert e. induction ts as [|t ts IH]; intros e; [reflexivity|].
  cbn [fold_left]. rewrite IH. destruct t; apply quiet_one_shot;
    [apply one_shot_playSampleInternal | apply one_shot_playAdvancedSynthInternal].
Qed.

Lemma quiet_insert layerId e m :
  quiet e -> m = <[layerId := []]> (activeSources e) ->
  forall l s, m !! l = Some s -> s = [].
Proof.
  intros Hq -> l s [[_ <-]|[_ H]]%lookup_insert_Some; [reflexivity|].
  now apply (Hq l).
Qed.

Lemma quiet_step e e' : step e e' -> quiet e -> quiet e'.
Proof.
  intros H Hq.
  assert (forall x, activeSources x = activeSources e -> quiet x) as same.
  { intros x E l s. rewrite E. apply Hq. }
  destruct H as [layer e|lid v e|lid e|v e|lid e|e|sid ok e|sid lid v e
                |n lid v e|f lid v ty ps e|n lid v e|d lid v e|nid p e|nid e
                |ms e|e].
  - intros lx sx. now apply (quiet_insert (id layer) e).
  - apply same. unfold updateLayerVolume. now destruct (layers e !! lid).
  - apply same. unfold toggleLayerMute. now destruct (layers e !! lid).
  - now apply same.
  - unfold clearLayer. destruct (activeSources e !! lid); [|exact Hq].
    intros lx sx. now apply (quiet_insert lid e).
  - intros lx sx H. cbn in H. now rewrite lookup_empty in H.
  - apply same. unfold loadSample. destruct (bufferPool e !! sid); [reflexivity|].
    now destruct ok.
  - apply same. unfold playSample.
    destruct (layers e !! lid) as [lx|]; [|reflexivity].
    destruct (muted lx); [reflexivity|].
    destruct (context e); try reflexivity.
    apply quiet_one_shot, one_shot_playSampleInternal.
  - apply same, quiet_one_shot, one_shot_playSyntheticNote.
  - apply same. unfold playAdvancedSynth.
    destruct (context e); try reflexivity;
      apply quiet_one_shot, one_shot_playAdvancedSynthInternal.
  - apply same, quiet_registered, registered_startSustainedNote.
  - apply same, quiet_registered, registered_startSustainedDrum.
  - apply same. unfold modulateSustainedNote.
    destruct (sustainedNotes e !! nid) as [note|]; [|reflexivity].
    now destruct (layers e !! layerId note).
  - apply same. unfold stopSustainedNote.
    now destruct (sustainedNotes e !! nid).
  - apply same. rewrite advance_unfold. now rewrite fire_timers_activeSources.
  - apply same. unfold settle. destruct (pending e) as [|t ts]; [reflexivity|].
    destruct (context e); try reflexivity; now rewrite quiet_run_tasks.
Qed.

Lemma reachable_quiet e : reachable e -> quiet e.
Proof.
  intros (state & now & Hr).
  revert e Hr. apply rtc_ind_r.
  - intros lx sx H. cbn in H. now rewrite lookup_empty in H.
  - intros e1 e2 _ H12 IH. now apply quiet_step with e1.
Qed.

Ltac store_lookup :=
  cbn [nodes edges audio with_audio with_sustainedNotes setTimeout with_timers
       connect disconnect update_node Graph.start];
  repeat first
    [ rewrite lookup_alter_if
    | rewrite lookup_app_l by (store_lengths; lia)
    | rewrite lookup_app_r by (store_lengths; lia) ];
  store_lengths;
  repeat match goal with
         | |- context [?l !! (?a - ?b)%nat] =>
             first [ replace (a - b)%nat with 0%nat by lia
                   | replace (a - b)%nat with 1%nat by lia
                   | replace (a - b)%nat with 2%nat by lia
                   | replace (a - b)%nat with 3%nat by lia
                   | replace (a - b)%nat with 4%nat by lia ]
         end;
  cbn [lookup list_lookup fmap option_fmap option_map];
  repeat case_decide; try lia.

(** X7.  In a reachable engine [clearLayer] does nothing at all:
    nothing ever adds to [activeSources], so there is no source for it
    to stop or dispose, and it stops no held note and no pending
    one-shot of the layer. *)
Theorem clearLayer_reachable (e : engine) (layerId : string) :
  reachable e -> clearLayer layerId e = e.
Proof.
  intros Hr. pose proof (reachable_quiet e Hr) as Hq.
  unfold clearLayer.
  destruct (activeSources e !! layerId) as [sources|] eqn:Hs; [|reflexivity].
  pose proof (Hq _ _ Hs) as ->. cbn [fold_left].
  rewrite insert_id by assumption. now destruct e.
Qed.

Lemma clearLayer_reachable_witness :
  clearLayer "drums" (playSample "kick" "drums" 1 (addLayer drums (new Running 0)))
  = playSample "kick" "drums" 1 (addLayer drums (new Running 0)).
Proof.
  apply clearLayer_reachable. exists Running, 0%N.
  eapply rtc_l; [apply step_addLayer|].
  eapply rtc_l; [apply step_playSample|]. apply rtc_refl.
Defined.

(** X8.  A synthetic snare or hi-hat creates a highpass filter (2000 Hz
    for the snare, 8000 Hz for a hat) that its cleanup timer does not
    dispose: after the hit, whatever is called later and however much
    time passes, that filter node is still in the store, not disposed,
    with the same settings. *)
Theorem drum_filter_never_disposed (e e' : engine) (drumType layerId : string)
        (v : R) (l : AudioLayer) :
  reachable e ->
  layers e !! layerId = Some l -> muted l = false -> context e = Running ->
  includes drumType "hat" || String.eqb drumType "snare" = true ->
  rtc step (playSample drumType layerId v e) e' ->
  nodes (audio e') !! (length (nodes (audio e)) + 3)%nat
  = Some (mkNode (Filter (if String.eqb drumType "snare" then 2000 else 8000)
                         "highpass" None None) false false).
Proof.
  intros Hr Hl Hm Hc Hf Hsteps.
  pose proof (reachable_scoped_aux e Hr) as Hs.
  rewrite (playSample_always_synthetic e drumType layerId v l Hl Hm Hc) in Hsteps.
  set (n := length (nodes (audio e))) in *.
  assert (nodes (audio (playSyntheticDrum drumType (v * volume l) e))
            !! (n + 3)%nat
          = Some (mkNode (Filter (if String.eqb drumType "snare" then 2000
                                  else 8000) "highpass" None None) false false)
          /\ (n + 3 < length (nodes (audio (playSyntheticDrum drumType
                                              (v * volume l) e))))%nat
          /\ ~ held (playSyntheticDrum drumType (v * volume l) e) (n + 3))
    as (Hnode & Hlen & Hfree).
  { unfold playSyntheticDrum.
    cbv beta iota zeta delta [alloc]. rewrite Hf.
    cbv beta iota zeta delta [alloc]. fold n.
    destruct (audio e) as [ns es] eqn:Ea. cbn [nodes] in n.
    split; [|split].
    - store_lookup. subst n.
      replace (length ns + 3 - length ns)%nat with 3%nat by lia. reflexivity.
    - subst n. store_length.
    - intros [H|H]%held_setTimeout.
      + apply Hs in H. rewrite Ea in H. cbn [nodes] in H. subst n. lia.
      + cbn [captured] in H. revert H. subst n. cbn [nodes].
        rewrite !length_app. cbn [length In]. lia. }
  destruct (free_node_forever _ e' (n + 3) Hsteps Hlen Hfree) as [[N _] _].
  now rewrite N.
Qed.

Lemma drum_filter_never_disposed_witness :
  nodes (audio (advance 1000 (playSample "snare" "drums" 1
                                (addLayer drums (new Running 0))))) !! 3%nat
  = Some (mkNode (Filter 2000 "highpass" None None) false false).
Proof.
  refine (drum_filter_never_disposed (addLayer drums (new Running 0)) _
            "snare" "drums" 1 drums _ eq_refl eq_refl eq_refl eq_refl _).
  - exists Running, 0%N. apply rtc_once, step_addLayer.
  - apply rtc_once, step_advance.
Defined.

(** X9.  For a strings or winds instrument with a modulation,
    [playAdvancedSynth] creates an LFO that nothing disposes: whatever
    is called afterwards and however much time passes, the LFO node is
    kept as created (running if the modulation is a vibrato), and a
    vibrato stays connected to the frequency of its oscillator. *)
Theorem vibrato_lfo_never_disposed (e e' : engine) (f : R) (layerId : string)
        (v : R) (ty : string) (ps : SynthParams) (mp : ModulationParams)
        (l : AudioLayer) :
  reachable e ->
  layers e !! layerId = Some l -> muted l = false -> context e <> Suspended ->
  p_modulation ps = Some mp -> ty = "strings" \/ ty = "winds" ->
  rtc step (playAdvancedSynth f layerId v ty (Some ps) e) e' ->
  let lfo := (length (nodes (audio e)) + (if p_filter ps is Some _ then 4 else 3))%nat in
  nodes (audio e') !! lfo
  = Some (mkNode (LFO (m_frequency mp)) (String.eqb (m_type mp) "vibrato") false)
  /\ (String.eqb (m_type mp) "vibrato" = true ->
      In (lfo, ToFrequency (length (nodes (audio e)))) (edges (audio e'))).
Proof.
  intros Hr Hl Hm Hc Hmod Hty Hsteps lfo.
  pose proof (reachable_scoped_aux e Hr) as Hs.
  assert (playAdvancedSynth f layerId v ty (Some ps) e
          = playAdvancedSynthInternal f layerId v ty (Some ps) e) as E.
  { unfold playAdvancedSynth. now destruct (context e). }
  rewrite E in Hsteps. clear E.
  set (e1 := playAdvancedSynthInternal f layerId v ty (Some ps) e) in *.
  assert (nodes (audio e1) !! lfo
          = Some (mkNode (LFO (m_frequency mp))
                         (String.eqb (m_type mp) "vibrato") false)
          /\ (String.eqb (m_type mp) "vibrato" = true ->
              In (lfo, ToFrequency (length (nodes (audio e)))) (edges (audio e1)))
          /\ (lfo < length (nodes (audio e1)))%nat
          /\ ~ held e1 lfo)
    as (Hnode & Hedge & Hlen & Hfree).
  { unfold e1, lfo, playAdvancedSynthInternal. rewrite Hl, Hm.
    cbv beta iota zeta delta [default Datatypes.id]. rewrite Hmod.
    destruct (audio e) as [ns es] eqn:Ea.
    destruct (String.eqb (m_type mp) "vibrato") eqn:Hvib;
      destruct (p_filter ps) as [fp|];
      destruct Hty as [-> | ->];
      cbv beta iota zeta delta [alloc];
      cbn [String.eqb Ascii.eqb Bool.eqb orb];
      cbv beta iota zeta delta [alloc];
      (split; [store_lookup; reflexivity|]);
      (split; [intros Hv; try discriminate Hv;
               cbn [nodes edges audio with_audio setTimeout
                    with_timers connect disconnect update_node Graph.start];
               store_lengths;
               try replace (length ns + 3)%nat
                 with (length ns + 1 + 1 + 1)%nat by lia;
               try replace (length ns + 4)%nat
                 with (length ns + 1 + 1 + 1 + 1)%nat by lia;
               rewrite ?in_app_iff; cbn [In]; tauto|]);
      (split; [store_length|]);
      (intros [H|H]%held_setTimeout;
       [ apply Hs in H; rewrite Ea in H; cbn [nodes] in H; lia
       | cbn [captured] in H; revert H; cbn [nodes];
         store_lengths; cbn [In]; lia ]). }
  destruct (free_node_forever e1 e' lfo Hsteps Hlen Hfree) as [[N Ed] _].
  split; [now rewrite N | auto].
Qed.

Lemma vibrato_lfo_never_disposed_witness :
  let e' := advance 2000 (playAdvancedSynth 440 "piano" 0.8 "strings"
                            (Some violin_params)
                            (addLayer piano (new Running 0))) in
  nodes (audio e') !! 4%nat = Some (mkNode (LFO 6) true false)
  /\ (true = true -> In (4%nat, ToFrequency 0) (edges (audio e'))).
Proof.
  refine (vibrato_lfo_never_disposed (addLayer piano (new Running 0)) _ 440
            "piano" 0.8 "strings" violin_params (mkModulationParams 6 "vibrato")
            piano _ eq_refl eq_refl _ eq_refl (or_introl eq_refl) _).
  - exists Running, 0%N. apply rtc_once, step_addLayer.
  - discriminate.
  - apply rtc_once, step_advance.
Defined.

(** X10.  Two [startSustainedNote] calls for the same note on the same
    layer within one millisecond return the same id, and the second
    entry overwrites the first in the registry.  The first chain is then
    out of reach: whatever is called afterwards, its oscillator keeps
    running, its envelope stays in its attack, its gain and filter keep
    their values, its connections stay and its gain remains plugged into
    the master bus. *)
Theorem same_millisecond_restart_orphans (e e' : engine)
        (what layerId : string) (v1 v2 : R) (l : AudioLayer) :
  reachable e ->
  layers e !! layerId = Some l -> muted l = false ->
  let first := startSustainedNote what layerId v1 e in
  let second := startSustainedNote what layerId v2 (snd first) in
  let n := length (nodes (audio e)) in
  rtc step (snd second) e' ->
  fst second = fst first
  /\ nodes (audio e') !! n
     = Some (mkNode (Oscillator (Pitch.noteToFrequency what) "sine") true false)
  /\ nodes (audio e') !! (n + 1)%nat
     = Some (mkNode (AmplitudeEnvelope 0.001 0.05 0.9 0.1 EnvAttack) false false)
  /\ nodes (audio e') !! (n + 2)%nat
     = Some (mkNode (Gain (v1 * volume l * 0.4)) false false)
  /\ nodes (audio e') !! (n + 3)%nat
     = Some (mkNode (Filter (2000 + v1 * 2000) "lowpass" (Some (-24)%Z) None)
                    false false)
  /\ In (n, ToNode (n + 3)) (edges (audio e'))
  /\ In ((n + 3)%nat, ToNode (n + 1)) (edges (audio e'))
  /\ In ((n + 1)%nat, ToNode (n + 2)) (edges (audio e'))
  /\ In (n + 2)%nat (master_inputs (audio e')).
Proof.
  intros Hr Hl Hm first second n Hsteps.
  pose proof (reachable_scoped_aux e Hr) as Hs.
  destruct (audio e) as [ns es] eqn:Ea. cbn [nodes] in n.
  assert (exists g entry,
            snd second
            = with_sustainedNotes
                (<[sustain_id layerId what (clock e) := entry]> (sustainedNotes e))
                (with_audio g e)
            /\ fst second = fst first
            /\ (forall i, In i (chain entry) -> (n + 4 <= i)%nat)
            /\ length (nodes g) = (n + 8)%nat
            /\ nodes g !! n
               = Some (mkNode (Oscillator (Pitch.noteToFrequency what) "sine")
                              true false)
            /\ nodes g !! (n + 1)%nat
               = Some (mkNode (AmplitudeEnvelope 0.001 0.05 0.9 0.1 EnvAttack)
                              false false)
            /\ nodes g !! (n + 2)%nat
               = Some (mkNode (Gain (v1 * volume l * 0.4)) false false)
            /\ nodes g !! (n + 3)%nat
               = Some (mkNode (Filter (2000 + v1 * 2000) "lowpass"
                                      (Some (-24)%Z) None) false false)
            /\ In (n, ToNode (n + 3)) (edges g)
            /\ In ((n + 3)%nat, ToNode (n + 1)) (edges g)
            /\ In ((n + 1)%nat, ToNode (n + 2)) (edges g)
            /\ In ((n + 2)%nat, ToMaster) (edges g))
    as (g & entry & E2 & Hid & Hchain & Hlen & N0 & N1 & N2 & N3
        & E03 & E31 & E12 & E2M).
  { unfold second, first, startSustainedNote. rewrite Hl, Hm.
    cbv beta iota zeta delta [alloc]. cbn [snd fst layers with_sustainedNotes
                                           with_audio clock audio].
    rewrite Hl, Hm. cbv beta iota zeta delta [alloc].
    cbn [snd fst layers with_sustainedNotes with_audio clock audio
         sustainedNotes]. rewrite Ea.
    do 2 eexists. split.
    { unfold with_sustainedNotes, with_audio. cbn.
      rewrite insert_insert_eq. reflexivity. }
    split; [reflexivity|].
    split; [unfold chain; cbn [source envelope gain filter nodes connect
                               update_node Graph.start];
            store_lengths; subst n; cbn [In]; intros i; lia|].
    split; [subst n; store_length|].
    subst n.
    repeat split;
      try (store_lookup; reflexivity);
      cbn [nodes edges connect disconnect update_node Graph.start];
      store_lengths;
      try replace (length ns + 3)%nat with (length ns + 1 + 1 + 1)%nat by lia;
      try replace (length ns + 2)%nat with (length ns + 1 + 1)%nat by lia;
      rewrite ?in_app_iff; cbn [In]; tauto. }
  assert (forall k, (k < 4)%nat ->
            (n + k < length (nodes (audio (snd second))))%nat
            /\ ~ held (snd second) (n + k)) as Hfree.
  { intros k Hk. rewrite E2. cbn [audio with_audio with_sustainedNotes].
    split; [lia|]. intros [H|H]%held_registered.
    - apply Hs in H. rewrite Ea in H. cbn [nodes] in H. lia.
    - apply Hchain in H. lia. }
  assert (audio (snd second) = g) as Eg by (now rewrite E2).
  assert (forall k, (k < 4)%nat -> same_at (n + k) g (audio e')) as Hsame.
  { intros k Hk. destruct (Hfree k Hk) as [Hlt Hnh]. rewrite <- Eg.
    now destruct (free_node_forever _ e' (n + k) Hsteps Hlt Hnh). }
  pose proof (Hsame 0%nat ltac:(lia)) as [S0 D0].
  pose proof (Hsame 1%nat ltac:(lia)) as [S1 D1].
  pose proof (Hsame 2%nat ltac:(lia)) as [S2 D2].
  pose proof (Hsame 3%nat ltac:(lia)) as [S3 D3].
  rewrite Nat.add_0_r in S0, D0.
  split; [exact Hid|].
  split; [now rewrite S0|]. split; [now rewrite S1|].
  split; [now rewrite S2|]. split; [now rewrite S3|].
  split; [now apply D0|]. split; [now apply D3|]. split; [now apply D1|].
  unfold master_inputs. apply list_elem_of_In, list_elem_of_omap.
  exists ((n + 2)%nat, ToMaster). split; [|reflexivity].
  apply list_elem_of_In. now apply D2.
Qed.

Lemma same_millisecond_restart_orphans_witness :
  let e := addLayer piano (new Running 0) in
  let first := startSustainedNote "A4" "piano" 0.7 e in
  let second := startSustainedNote "A4" "piano" 0.9 (snd first) in
  let e' := advance 500 (stopSustainedNote (fst second) (snd second)) in
  fst second = fst first
  /\ nodes (audio e') !! 0%nat
     = Some (mkNode (Oscillator (Pitch.noteToFrequency "A4") "sine") true false).
Proof.
  intros e first second e'.
  refine (let H := same_millisecond_restart_orphans e e' "A4" "piano" 0.7 0.9
                     piano _ eq_refl eq_refl _ in
          conj (proj1 H) (proj1 (proj2 H))).
  - exists Running, 0%N. apply rtc_once, step_addLayer.
  - eapply rtc_l; [apply step_stopSustainedNote|].
    apply rtc_once, step_advance.
Defined.

Lemma detached_dispose j i g : detached j g -> detached j (Graph.dispose i g).
Proof.
  intros H n Hn Hd d Hin. unfold Graph.dispose in *.
  cbn [disconnect update_node nodes edges] in *.
  apply List.filter_In in Hin as [Hin Hne].
  cbn [fst] in Hne. apply negb_true_iff, Nat.eqb_neq in Hne.
  rewrite list_lookup_alter_ne in Hn by congruence.
  exact (H n Hn Hd d Hin).
Qed.

Lemma detached_dispose_unless j i g :
  detached j g -> detached j (dispose_unless_disposed i g).
Proof.
  intros H. unfold dispose_unless_disposed.
  destruct (nodes g !! i) as [n|]; [|exact H].
  destruct (disposed n); [exact H | now apply detached_dispose].
Qed.

Lemma detached_run_timer j a e :
  detached j (audio e) -> detached j (audio (run_timer a e)).
Proof.
  intros H. destruct a; cbn [run_timer audio with_audio with_sustainedNotes];
    try destruct (_ =? _)%nat;
    repeat first [ exact H | apply detached_dispose
                 | apply detached_dispose_unless ].
Qed.

Lemma detached_fire_timers j l e :
  detached j (audio e) -> detached j (audio (fire_timers l e)).
Proof.
  revert e. induction l as [|x l IH]; intros e H; [exact H|].
  cbn [fire_timers fold_left]. apply IH. now apply detached_run_timer.
Qed.

Lemma disposed_at_dispose_unless_keeps i g j :
  disposed_at g j -> disposed_at (dispose_unless_disposed i g) j.
Proof. apply dispose_unless_keeps. Qed.

Lemma run_timer_disposes_captured a e i :
  In i (captured a) ->
  Forall (fun j => (j < length (nodes (audio e)))%nat) (captured a) ->
  disposed_at (audio (run_timer a e)) i.
Proof.
  intros Hin Hall. rewrite Forall_forall in Hall.
  assert (forall j, In j (captured a) -> (j < length (nodes (audio e)))%nat)
    as Hlt by (intros j Hj; apply Hall; now apply list_elem_of_In).
  clear Hall.
  destruct a as [src env gn|osc env gn|noteId note|osc env gn effectChain];
    cbn [captured In] in Hin, Hlt;
    cbn [run_timer audio with_audio with_sustainedNotes].
  - destruct Hin as [<-|[<-|[<-|[]]]].
    + do 2 apply dispose_unless_keeps. apply dispose_unless_disposes. apply Hlt; tauto.
    + apply dispose_unless_keeps. apply dispose_unless_disposes.
      rewrite dispose_unless_length. apply Hlt; tauto.
    + apply dispose_unless_disposes. rewrite !dispose_unless_length. apply Hlt; tauto.
  - destruct Hin as [<-|[<-|[<-|[]]]].
    + do 2 apply dispose_keeps. apply dispose_disposes. apply Hlt; tauto.
    + apply dispose_keeps. apply dispose_disposes. rewrite dispose_length. apply Hlt; tauto.
    + apply dispose_disposes. rewrite !dispose_length. apply Hlt; tauto.
  - destruct Hin as [<-|[<-|[<-|[<-|[]]]]].
    + do 3 apply dispose_unless_keeps. apply dispose_unless_disposes. apply Hlt; tauto.
    + do 2 apply dispose_unless_keeps. apply dispose_unless_disposes.
      rewrite dispose_unless_length. apply Hlt; tauto.
    + apply dispose_unless_keeps. apply dispose_unless_disposes.
      rewrite !dispose_unless_length. apply Hlt; tauto.
    + apply dispose_unless_disposes. rewrite !dispose_unless_length. apply Hlt; tauto.
  - assert (forall g, disposed_at g i ->
              disposed_at (if (effectChain =? env)%nat then g
                           else Graph.dispose effectChain g) i) as K.
    { intros g Hg. destruct (_ =? _)%nat; [exact Hg | now apply dispose_keeps]. }
    destruct Hin as [<-|[<-|[<-|[<-|[]]]]].
    + apply K. do 2 apply dispose_keeps. apply dispose_disposes. apply Hlt; tauto.
    + apply K. apply dispose_keeps. apply dispose_disposes.
      rewrite dispose_length. apply Hlt; tauto.
    + apply K. apply dispose_disposes. rewrite !dispose_length. apply Hlt; tauto.
    + destruct (effectChain =? env)%nat eqn:E.
      * apply Nat.eqb_eq in E. subst env.
        apply dispose_keeps. apply dispose_disposes. rewrite dispose_length. apply Hlt; tauto.
      * apply dispose_disposes. rewrite !dispose_length. apply Hlt; tauto.
Qed.

Lemma fire_timers_disposes_captured l e due a i :
  In (due, a) l -> In i (captured a) ->
  Forall (fun j => (j < length (nodes (audio e)))%nat) (captured a) ->
  disposed_at (audio (fire_timers l e)) i.
Proof.
  revert e. induction l as [|x l IH]; intros e Hin Hi Hall; [destruct Hin|].
  cbn [fire_timers fold_left]. fold (fire_timers l (run_timer (snd x) e)).
  destruct Hin as [->|Hin].
  - apply fire_timers_keeps. cbn [snd]. now apply run_timer_disposes_captured.
  - apply IH; try assumption. now rewrite run_timer_length.
Qed.

Lemma master_inputs_In g i :
  In i (master_inputs g) <-> In (i, ToMaster) (edges g).
Proof.
  unfold master_inputs. rewrite <- !list_elem_of_In, list_elem_of_omap. split.
  - intros ([a d] & Hin & H). cbn in H. destruct d; try discriminate.
    now injection H as ->.
  - intros H. exists (i, ToMaster). now split.
Qed.

(** What follows from [launched]. *)
Lemma launched_cleanup e e' delay ms :
  launched e e' delay -> (delay <= ms)%N ->
  let n := length (nodes (audio e)) in
  In (n + 2)%nat (master_inputs (audio e'))
  /\ (forall k, (k < 3)%nat -> disposed_at (audio (advance ms e')) (n + k))
  /\ ~ In (n + 2)%nat (master_inputs (audio (advance ms e'))).
Proof.
  intros (a & rest & Ht & Hc & Hall & (nd & Hnd & Hdis) & Hm & Hclk) Hms n.
  fold n in Hc, Hnd, Hm.
  split; [now apply master_inputs_In|].
  assert (forall k, (k < 3)%nat -> disposed_at (audio (advance ms e')) (n + k))
    as D.
  { intros k Hk. rewrite advance_unfold.
    apply fire_timers_disposes_captured with (clock e + delay)%N a.
    - apply List.filter_In. split; [exact Ht|]. unfold is_due. cbn [fst].
      apply N.leb_le. rewrite Hclk. lia.
    - rewrite Hc. destruct k as [|[|[|k]]]; cbn [In]; try lia;
        rewrite ?Nat.add_0_r; auto.
    - exact Hall. }
  split; [exact D|]. rewrite master_inputs_In. intros Hin.
  destruct (D 2%nat ltac:(lia)) as (nd' & Hnd' & Hdis').
  revert Hin. rewrite advance_unfold in *.
  apply (detached_fire_timers (n + 2)) with (n := nd'); try assumption.
  cbn [audio with_timers with_clock]. intros nd0 Hnd0 Hd0.
  rewrite Hnd in Hnd0. injection Hnd0 as <-. congruence.
Qed.

Ltac launch :=
  unfold launched;
  cbn [nodes edges audio with_audio with_sustainedNotes setTimeout with_timers
       timers clock connect disconnect update_node Graph.start];
  do 2 eexists;
  split; [apply schedule_In; left; reflexivity|];
  split; [cbn [captured nodes]; store_lengths;
          repeat match goal with
                 | |- context [(?x + 1 + 1)%nat] =>
                     replace (x + 1 + 1)%nat with (x + 2)%nat by lia
                 end; reflexivity|];
  split; [cbn [captured nodes];
          repeat (apply Forall_cons; split; [store_lengths; lia|]);
          apply Forall_nil_2|];
  split; [eexists; split; [store_lookup; reflexivity | reflexivity]|];
  split; [|reflexivity];
  store_lengths;
  repeat match goal with
         | |- context [(?x + 1 + 1)%nat] =>
             replace (x + 1 + 1)%nat with (x + 2)%nat by lia
         end;
  rewrite ?in_app_iff, ?List.filter_In, ?in_app_iff; cbn [In fst];
  repeat match goal with
         | |- context [(?a =? ?b)%nat] =>
             replace (a =? b)%nat with false
               by (symmetry; apply Nat.eqb_neq; lia)
         end;
  cbn [negb]; tauto.

Lemma launched_playSyntheticNote note layerId v e l :
  layers e !! layerId = Some l -> muted l = false ->
  launched e (playSyntheticNote note layerId v e) 2000.
Proof.
  intros Hl Hm. unfold playSyntheticNote. rewrite Hl, Hm.
  cbv beta iota zeta delta [alloc]. launch.
Qed.

Lemma launched_playSyntheticDrum drumType vol e :
  launched e (playSyntheticDrum drumType vol e) 1000.
Proof.
  unfold playSyntheticDrum. open_op; launch.
Qed.

Lemma launched_playAdvancedSynthInternal f layerId v ty ps e l :
  layers e !! layerId = Some l -> muted l = false ->
  launched e (playAdvancedSynthInternal f layerId v ty ps e)
           (if String.eqb ty "piano" then 6000
            else if String.eqb ty "pad" then 4000 else 2000).
Proof.
  intros Hl Hm. unfold playAdvancedSynthInternal. rewrite Hl, Hm.
  destruct (p_filter (default default_params ps)),
    (p_modulation (default default_params ps));
    open_op; launch.
Qed.

(** X11.  A one-shot trigger ([playSample], [playSyntheticNote],
    [playAdvancedSynth]) on an unmuted layer of a running engine plugs a
    new gain into the master bus, and once its cleanup delay has passed
    (1000 ms for a sample, 2000 ms for a synthetic note, 6000 / 4000 /
    2000 ms for piano / pad / other instruments) its source, envelope
    and gain are disposed and the gain is no longer an input of the
    master bus. *)
Theorem one_shot_self_disposal (e : engine) (layerId : string) (t : trigger)
        (l : AudioLayer) (ms : N) :
  layers e !! layerId = Some l -> muted l = false -> context e = Running ->
  (cleanup_delay t <= ms)%N ->
  let e1 := fire layerId t e in
  let n := length (nodes (audio e)) in
  In (n + 2)%nat (master_inputs (audio e1))
  /\ (forall k, (k < 3)%nat -> disposed_at (audio (advance ms e1)) (n + k))
  /\ ~ In (n + 2)%nat (master_inputs (audio (advance ms e1))).
Proof.
  intros Hl Hm Hc Hms. apply launched_cleanup with (cleanup_delay t);
    [|exact Hms].
  destruct t as [sampleId v|note v|f v ty ps]; cbn [fire cleanup_delay].
  - rewrite (playSample_always_synthetic e sampleId layerId v l Hl Hm Hc).
    apply launched_playSyntheticDrum.
  - now apply launched_playSyntheticNote with l.
  - unfold playAdvancedSynth. rewrite Hc.
    now apply launched_playAdvancedSynthInternal with l.
Qed.

Lemma one_shot_self_disposal_witness :
  let e := addLayer piano (new Running 0) in
  let e1 := fire "piano" (AdvancedSynth 440 0.8 "piano" None) e in
  In 2%nat (master_inputs (audio e1))
  /\ (forall k, (k < 3)%nat -> disposed_at (audio (advance 6000 e1)) (0 + k))
  /\ ~ In 2%nat (master_inputs (audio (advance 6000 e1))).
Proof.
  refine (one_shot_self_disposal (addLayer piano (new Running 0)) "piano"
            (AdvancedSynth 440 0.8 "piano" None) piano 6000
            eq_refl eq_refl eq_refl _).
  cbn. lia.
Defined.

Lemma playSyntheticDrum_pool p drumType vol e :
  playSyntheticDrum drumType vol (with_bufferPool p e)
  = with_bufferPool p (playSyntheticDrum drumType vol e).
Proof. unfold playSyntheticDrum. cbn [audio with_bufferPool]. open_op; reflexivity. Qed.

Lemma fire_pool p layerId t e :
  fire layerId t (with_bufferPool p e) = with_bufferPool p (fire layerId t e).
Proof.
  destruct t as [sampleId v|note v|f v ty ps]; cbn [fire].
  - unfold playSample, playSampleInternal. cbn [layers context with_bufferPool].
    destruct (layers e !! layerId) as [l|]; [|reflexivity].
    destruct (muted l); [reflexivity|].
    destruct (context e); reflexivity.
  - unfold playSyntheticNote. cbn [layers audio with_bufferPool].
    destruct (layers e !! layerId) as [l|]; [|reflexivity].
    destruct (muted l); reflexivity.
  - unfold playAdvancedSynth, playAdvancedSynthInternal.
    cbn [layers context audio globalInstrumentVolume with_bufferPool].
    destruct (context e); try reflexivity;
      (destruct (layers e !! layerId) as [l|]; [|reflexivity]);
      (destruct (muted l); [reflexivity|]);
      destruct (p_filter (default default_params ps));
      cbv beta iota zeta delta [alloc]; reflexivity.
Qed.

Lemma fire_keeps_pool layerId t e : bufferPool (fire layerId t e) = bufferPool e.
Proof.
  assert (forall x y, one_shot x y -> bufferPool y = bufferPool x) as K
      by (now intros x y [->|(g & a & ms & -> & _)]).
  destruct t as [sampleId v|note v|f v ty ps]; cbn [fire].
  - unfold playSample. destruct (layers e !! layerId) as [l|]; [|reflexivity].
    destruct (muted l); [reflexivity|]. destruct (context e); try reflexivity.
    apply K, one_shot_playSampleInternal.
  - apply K, one_shot_playSyntheticNote.
  - unfold playAdvancedSynth. destruct (context e); try reflexivity;
      apply K, one_shot_playAdvancedSynthInternal.
Qed.

(** X12.  Loading a sample changes nothing that is heard: a one-shot
    trigger after [loadSample] builds the same graph and sets the same
    timers as without it, and trigger and [loadSample] commute. *)
Theorem loadSample_never_heard (e : engine) (sampleId : string) (ok : bool)
        (layerId : string) (t : trigger) :
  fire layerId t (loadSample sampleId ok e)
  = loadSample sampleId ok (fire layerId t e)
  /\ audio (fire layerId t (loadSample sampleId ok e)) = audio (fire layerId t e)
  /\ timers (fire layerId t (loadSample sampleId ok e)) = timers (fire layerId t e).
Proof.
  assert (fire layerId t (loadSample sampleId ok e)
          = loadSample sampleId ok (fire layerId t e)) as E.
  { unfold loadSample. rewrite fire_keeps_pool.
    destruct (bufferPool e !! sampleId); [reflexivity|].
    destruct ok; [|reflexivity].
    change (mkEngine (context e) (layers e) (activeSources e)
                     (<[sampleId:=true]> (bufferPool e))
                     (globalInstrumentVolume e) (sustainedNotes e) (audio e)
                     (clock e) (timers e) (pending e))
      with (with_bufferPool (<[sampleId:=true]> (bufferPool e)) e).
    now rewrite fire_pool. }
  split; [exact E|]. rewrite E. unfold loadSample.
  destruct (bufferPool (fire layerId t e) !! sampleId); [now split|].
  destruct ok; now split.
Qed.

Lemma resumed_engine (e : engine) (ts : list task) :
  pending e = [] ->
  with_pending [] (with_context Running (with_pending ts e))
  = with_context Running e.
Proof. destruct e. cbn. now intros ->. Qed.

(** X13.  On a suspended engine with no callback pending, a trigger
    followed by the settling of the resume promise gives exactly the
    engine a direct call gives once the context runs: for
    [playAdvancedSynth] always, for [playSample] when the layer exists
    and is not muted. *)
Theorem deferred_trigger_plays_on_resume (e : engine) (layerId : string) :
  context e = Suspended -> pending e = [] ->
  (forall f v ty ps,
      settle (playAdvancedSynth f layerId v ty ps e)
      = playAdvancedSynth f layerId v ty ps (with_context Running e))
  /\ (forall l sampleId v,
        layers e !! layerId = Some l -> muted l = false ->
        settle (playSample sampleId layerId v e)
        = playSample sampleId layerId v (with_context Running e)).
Proof.
  intros Hc Hp. split.
  - intros f v ty ps. unfold playAdvancedSynth at 1. rewrite Hc.
    unfold settle, on_resumed. cbn [pending with_pending context]. rewrite Hp, Hc.
    cbn [app fold_left run_task]. now rewrite resumed_engine.
  - intros l sampleId v Hl Hm. unfold playSample.
    cbn [layers with_context context]. rewrite Hl, Hm, Hc.
    unfold settle, on_resumed. cbn [pending with_pending context]. rewrite Hp, Hc.
    cbn [app fold_left run_task]. now rewrite resumed_engine.
Qed.

Lemma deferred_trigger_plays_on_resume_witness :
  settle (playAdvancedSynth 440 "pads" 0.8 "lead" None suspended_muted)
  = playAdvancedSynth 440 "pads" 0.8 "lead" None
      (with_context Running suspended_muted).
Proof.
  exact (proj1 (deferred_trigger_plays_on_resume suspended_muted "pads"
                  eq_refl eq_refl) 440 0.8 "lead" None).
Defined.

(** X14.  The global instrument volume is read by the advanced
    synthesiser only.  [playSample], [playSyntheticNote],
    [startSustainedNote], [startSustainedDrum] and
    [modulateSustainedNote] commute with
    [updateGlobalInstrumentVolume]: they build the same sound whatever
    it is set to.  The gain of [playAdvancedSynth] is velocity x
    layer.volume x global volume. *)
Theorem global_volume_scope (g : R) (e : engine) (layerId : string) :
  let e' := updateGlobalInstrumentVolume g e in
  (forall sampleId v,
      playSample sampleId layerId v e'
      = updateGlobalInstrumentVolume g (playSample sampleId layerId v e))
  /\ (forall note v,
        playSyntheticNote note layerId v e'
        = updateGlobalInstrumentVolume g (playSyntheticNote note layerId v e))
  /\ (forall note v,
        startSustainedNote note layerId v e'
        = (fst (startSustainedNote note layerId v e),
           updateGlobalInstrumentVolume g (snd (startSustainedNote note layerId v e))))
  /\ (forall drumType v,
        startSustainedDrum drumType layerId v e'
        = (fst (startSustainedDrum drumType layerId v e),
           updateGlobalInstrumentVolume g
             (snd (startSustainedDrum drumType layerId v e))))
  /\ (forall noteId pressure,
        modulateSustainedNote noteId pressure e'
        = updateGlobalInstrumentVolume g (modulateSustainedNote noteId pressure e))
  /\ (forall l f v ty ps,
        layers e !! layerId = Some l -> muted l = false ->
        context e <> Suspended ->
        read gain_value (audio (playAdvancedSynth f layerId v ty ps e'))
             (length (nodes (audio e)) + 2)
        = Some (v * volume l * g)).
Proof.
  intros e'. subst e'. repeat split.
  - intros sampleId v. unfold playSample, playSampleInternal.
    cbn [layers context updateGlobalInstrumentVolume].
    destruct (layers e !! layerId) as [l|]; [|reflexivity].
    destruct (muted l); [reflexivity|]. destruct (context e); reflexivity.
  - intros note v. unfold playSyntheticNote.
    cbn [layers audio updateGlobalInstrumentVolume].
    destruct (layers e !! layerId) as [l|]; [|reflexivity].
    destruct (muted l); reflexivity.
  - intros note v. unfold startSustainedNote.
    cbn [layers audio clock updateGlobalInstrumentVolume].
    destruct (layers e !! layerId) as [l|]; [|reflexivity].
    destruct (muted l); reflexivity.
  - intros drumType v. unfold startSustainedDrum.
    cbn [layers audio clock updateGlobalInstrumentVolume].
    destruct (layers e !! layerId) as [l|]; [|reflexivity].
    destruct (muted l); [reflexivity|].
    destruct (String.eqb drumType "kick"), (String.eqb drumType "snare"),
      (includes drumType "hat"); reflexivity.
  - intros noteId pressure. unfold modulateSustainedNote.
    cbn [sustainedNotes layers audio updateGlobalInstrumentVolume].
    destruct (sustainedNotes e !! noteId) as [note|]; [|reflexivity].
    destruct (layers e !! Engine.layerId note); reflexivity.
  - intros l f v ty ps Hl Hm Hc.
    assert (playAdvancedSynth f layerId v ty ps (updateGlobalInstrumentVolume g e)
            = playAdvancedSynthInternal f layerId v ty ps
                (updateGlobalInstrumentVolume g e)) as ->.
    { unfold playAdvancedSynth. cbn [context updateGlobalInstrumentVolume].
      now destruct (context e). }
    unfold playAdvancedSynthInternal.
    cbn [layers audio globalInstrumentVolume updateGlobalInstrumentVolume].
    rewrite Hl, Hm. unfold read.
    destruct (p_filter (default default_params ps)),
      (p_modulation (default default_params ps));
      cbv beta iota zeta delta [alloc];
      try destruct (_ || _); try destruct (String.eqb (m_type _) _);
      cbv beta iota zeta delta [alloc];
      store_lookup; reflexivity.
Qed.

Lemma global_volume_scope_witness :
  read gain_value
       (audio (playAdvancedSynth 440 "piano" 0.8 "piano" None
                 (updateGlobalInstrumentVolume 0.25
                    (addLayer piano (new Running 0))))) 2
  = Some (0.8 * 0.6 * 0.25).
Proof.
  refine (proj2 (proj2 (proj2 (proj2 (proj2
            (global_volume_scope 0.25 (addLayer piano (new Running 0)) "piano")))))
            piano 440 0.8 "piano" None eq_refl eq_refl _).
  discriminate.
Defined.

End Store.

(* ===================================================================== *)
(** * The pitch tests                                                   *)
(* ===================================================================== *)

Section PitchTotal.
Import Pitch PitchSpec PitchTests.
Local Open Scope R_scope.

Lemma eqb_length (s t : string) :
  String.eqb s t = true -> String.length s = String.length t.
Proof. intros H. apply String.eqb_eq in H. now subst. Qed.

Lemma inherited_long (s : string) :
  inherited s = true -> (7 <= String.length s)%nat.
Proof.
  unfold inherited. intros H. apply existsb_exists in H as (k & Hin & Heq).
  apply String.eqb_eq in Heq. subst k. simpl in Hin.
  repeat (destruct Hin as [<-|Hin]; [simpl; lia|]). contradiction.
Qed.

Lemma note_match_name (note noteName octaveStr : string) :
  note_match note = Some (noteName, octaveStr) ->
  (String.length noteName <= 2)%nat /\ digits1 octaveStr = true
  /\ note = noteName ++ octaveStr.
Proof.
  unfold note_match. destruct note as [|c rest]; [discriminate|].
  destruct (is_note_letter c); [|discriminate].
  destruct rest as [|d rest'].
  - simpl. discriminate.
  - destruct (Ascii.eqb_spec d "#") as [->|Hne].
    + destruct (digits1 rest') eqn:Hd; [|discriminate].
      intros [= <- <-]. simpl. repeat split; auto.
    + assert ((if digits1 (String d rest') then Some (String c "", String d rest')
               else None) = Some (noteName, octaveStr)
              -> (String.length noteName <= 2)%nat /\ digits1 octaveStr = true
                 /\ String c (String d rest') = noteName ++ octaveStr) as K.
      { destruct (digits1 (String d rest')) eqn:Hd; [|discriminate].
        intros [= <- <-]. simpl. repeat split; auto. }
      destruct d as [[] [] [] [] [] [] [] []]; try exact K.
      now contradiction Hne.
Qed.

Lemma parseInt_go_nonneg (s : string) (acc : Z) :
  all_digits s = true -> (0 <= acc)%Z -> (0 <= parseInt_go acc s)%Z.
Proof.
  revert acc. induction s as [|c s IH]; intros acc Hd Hacc; [exact Hacc|].
  simpl in Hd. apply andb_true_iff in Hd as [Hc Hs].
  cbn [parseInt_go]. apply IH; [assumption|].
  unfold is_digit in Hc. apply andb_true_iff in Hc as [Hlo _].
  apply Nat.leb_le in Hlo. lia.
Qed.

Lemma parseInt_nonneg (s : string) : digits1 s = true -> (0 <= parseInt s)%Z.
Proof.
  intros H. apply parseInt_go_nonneg; [|lia].
  destruct s; [discriminate | exact H].
Qed.

Lemma noteOffsets_nonneg (noteName : string) (off : R) :
  own_get noteOffsets noteName = Some off -> 0 <= off <= 11.
Proof.
  intros H. apply own_get_In in H. simpl in H.
  repeat (destruct H as [H|H]; [injection H as <- <-; lra|]). contradiction.
Qed.

Lemma equal_tempered_floor (i : R) : 0 <= i -> 16 < equal_tempered i.
Proof.
  intros Hi. apply Rlt_le_trans with (equal_tempered 0);
    [|now apply equal_tempered_le].
  destruct (simpleNoteMap_accuracy "C4" 261.63 eq_refl)
    as (i0 & Hi0 & _ & _ & Hb).
  assert (i0 = 0 + 12 + 12 + 12 + 12) as ->.
  { change (pitch_index "C4") with (Some (IZR 4 * 12 + 0)) in Hi0.
    injection Hi0 as <-. lra. }
  rewrite !equal_tempered_octave in Hb. lra.
Qed.

(** X15.  [noteToFrequency] always returns, and never NaN: for every
    string that is not the name of a property inherited from
    [Object.prototype] it returns a number above 16 Hz, whether the
    string is in the table, parses as a note or is malformed; for an
    inherited name it returns that inherited property. *)
Theorem noteToFrequency_total (note : string) :
  (inherited note = true -> noteToFrequency note = JInherited note)
  /\ (inherited note = false ->
      exists f, noteToFrequency note = JNum f /\ 16 < f).
Proof.
  split.
  - intros Hi. pose proof (inherited_long note Hi) as Hlen.
    assert (own_get simpleNoteMap note = None) as Htab.
    { destruct (own_get simpleNoteMap note) as [v|] eqn:E; [|reflexivity].
      apply own_get_In in E. simpl in E.
      repeat (destruct E as [E|E]; [injection E as <- <-; simpl in Hlen; lia|]).
      contradiction. }
    unfold noteToFrequency, js_get. now rewrite Htab, Hi.
  - intros Hi. destruct (note_match note) as [[noteName octaveStr]|] eqn:Hm.
    + destruct (note_match_name _ _ _ Hm) as (Hlen & Hd & _).
      destruct (own_get noteOffsets noteName) as [off|] eqn:Hoff.
      * destruct (noteToFrequency_valid note (IZR (parseInt octaveStr) * 12 + off))
          as (f & Hf & [[_ ->]|(_ & _ & Hlo & _)]).
        { unfold pitch_index. now rewrite Hm, Hoff. }
        { exists (equal_tempered (IZR (parseInt octaveStr) * 12 + off)).
          split; [exact Hf|]. apply equal_tempered_floor.
          pose proof (noteOffsets_nonneg _ _ Hoff).
          pose proof (IZR_le _ _ (parseInt_nonneg _ Hd)). lra. }
        { exists f. split; [exact Hf | lra]. }
      * exists 440. split; [|lra].
        assert (own_get simpleNoteMap note = None) as Htab.
        { destruct (own_get simpleNoteMap note) as [v|] eqn:E; [|reflexivity].
          destruct (simpleNoteMap_accuracy _ _ E) as (i & Hpi & _).
          unfold pitch_index in Hpi. rewrite Hm, Hoff in Hpi. discriminate. }
        unfold noteToFrequency, js_get. rewrite Htab, Hi, Hm, Hoff. cbn [truthy].
        destruct (inherited noteName) eqn:Hin; [|reflexivity].
        apply inherited_long in Hin. lia.
    + exists 440. split; [now apply noteToFrequency_malformed | lra].
Qed.











End PitchTotal.

Section PitchTestFacts.
Import Pitch PitchSpec PitchTests Engine.
Local Open Scope R_scope.






Lemma chromatic_loop (n : nat) :
  forall (k : nat) (cur : R) (cbs : list (N * nat)),
    fold_left chromatic_iteration (seq k n) (mkChromatic (JNum cur) cbs)
    = mkChromatic (JNum (cur * Rpower 2 (INR n / 12)))
                  (cbs ++ map (fun i => ((N.of_nat i * 300)%N, i)) (seq k n)).
Proof.
  induction n as [|n IH]; intros k cur cbs.
  - cbn [seq fold_left map]. rewrite app_nil_r. do 2 f_equal.
    replace (INR 0 / 12) with 0 by (simpl; lra). rewrite Rpower_O; lra.
  - cbn [seq fold_left map]. unfold chromatic_iteration at 2.
    cbn [currentFreq callbacks js_mul]. rewrite IH, <- app_assoc. cbn [app].
    do 2 f_equal. rewrite Rmult_assoc, <- Rpower_plus. do 2 f_equal.
    rewrite S_INR. lra.
Qed.

(** X18.  [testChromaticScale] registers one callback per step, 300 ms
    apart, but all of them close over the one variable [currentFreq]:
    when they run, after the loop, each plays the final frequency,
    start x 2^(steps/12), which for the 12 steps of the default is the
    octave above the start note; no intermediate semitone is played. *)
Theorem testChromaticScale_single_pitch (startNote : string) (steps : nat)
        (startFreq : R) :
  noteToFrequency startNote = JNum startFreq ->
  let s := testChromaticScale startNote steps in
  let final := startFreq * Rpower 2 (INR steps / 12) in
  callbacks s = map (fun i => ((N.of_nat i * 300)%N, i)) (seq 0 steps)
  /\ currentFreq s = JNum final
  /\ (forall layerId e,
        chromatic_callback s layerId e
        = Some (playAdvancedSynth final layerId 0.6 "synth"
                                  (Some chromatic_params) e))
  /\ (steps = 12%nat -> final = 2 * startFreq).
Proof.
  intros H s final. unfold s, testChromaticScale. rewrite H, chromatic_loop.
  cbn [callbacks currentFreq app]. repeat split.
  intros ->. unfold final. replace (INR 12 / 12) with 1 by (simpl; lra).
  rewrite Rpower_1; lra.
Qed.

Lemma testChromaticScale_single_pitch_witness :
  let s := testChromaticScale "C4" 12 in
  let final := 261.63 * Rpower 2 (INR 12 / 12) in
  callbacks s = map (fun i => ((N.of_nat i * 300)%N, i)) (seq 0 12)
  /\ currentFreq s = JNum final
  /\ (forall layerId e,
        chromatic_callback s layerId e
        = Some (playAdvancedSynth final layerId 0.6 "synth"
                                  (Some chromatic_params) e))
  /\ (12%nat = 12%nat -> final = 2 * 261.63).
Proof.
  refine (testChromaticScale_single_pitch "C4" 12 261.63 _).
  unfold noteToFrequency, js_get. cbn [own_get simpleNoteMap String.eqb Ascii.eqb Bool.eqb].
  cbn [truthy]. destruct (Req_dec_T 261.63 0); [lra | reflexivity].
Defined.

End PitchTestFacts.

(* ===================================================================== *)
(** * The quantiser of the encoder, and the sample generator            *)
(* ===================================================================== *)

Section Quantiser.
Import Wav WavSpec.
Local Open Scope list_scope.


Lemma ToInteger_nonneg (q : Q) : (0 <= q)%Q -> ToInteger q = Qfloor q.
Proof.
  destruct q as [a b]. unfold Qle, ToInteger, Qfloor. cbn. intros H.
  apply Z.quot_div_nonneg; lia.
Qed.

Lemma ToInteger_opp (q : Q) : ToInteger (- q) = (- ToInteger q)%Z.
Proof.
  destruct q as [a b]. unfold ToInteger, Qopp. cbn.
  apply Z.quot_opp_l. lia.
Qed.

Lemma ToInteger_neg (q : Q) : (q <= 0)%Q -> ToInteger q = (- Qfloor (- q))%Z.
Proof.
  intros H. rewrite <- (ToInteger_nonneg (- q)) by lra.
  rewrite ToInteger_opp. lia.
Qed.

Lemma Qfloor_below (q : Q) (z : Z) : (q < inject_Z z)%Q -> (Qfloor q < z)%Z.
Proof.
  intros H. pose proof (Qfloor_le q) as L. rewrite Zlt_Qlt. lra.
Qed.

(** Dropping the fraction keeps the order. *)
Lemma ToInteger_mono (p q : Q) : (p <= q)%Q -> (ToInteger p <= ToInteger q)%Z.
Proof.
  intros H. destruct (Qlt_le_dec p 0) as [Hp|Hp];
    destruct (Qlt_le_dec q 0) as [Hq|Hq].
  - rewrite !ToInteger_neg by lra.
    assert (Qfloor (- q) <= Qfloor (- p))%Z by (apply Qfloor_resp_le; lra). lia.
  - rewrite ToInteger_neg by lra. rewrite (ToInteger_nonneg q) by assumption.
    assert (Qfloor 0 <= Qfloor (- p))%Z by (apply Qfloor_resp_le; lra).
    assert (Qfloor 0 <= Qfloor q)%Z by (now apply Qfloor_resp_le).
    change (Qfloor 0) with 0%Z in *. lia.
  - lra.
  - rewrite !ToInteger_nonneg by lra. now apply Qfloor_resp_le.
Qed.

Lemma ToInteger_eq (p q : Q) : (p == q)%Q -> ToInteger p = ToInteger q.
Proof.
  intros E. apply Z.le_antisymm; apply ToInteger_mono; lra.
Qed.

Lemma clamp_mono (x y : Q) : (x <= y)%Q -> (clamp x <= clamp y)%Q.
Proof.
  intros H. unfold clamp.
  destruct (Q.max_spec (-1) (Qmin 1 x)) as [[H1 E1]|[H1 E1]];
    destruct (Q.min_spec 1 x) as [[H2 E2]|[H2 E2]];
    destruct (Q.max_spec (-1) (Qmin 1 y)) as [[H3 E3]|[H3 E3]];
    destruct (Q.min_spec 1 y) as [[H4 E4]|[H4 E4]]; lra.
Qed.

Lemma clamp_opp (x : Q) : (clamp (- x) == - clamp x)%Q.
Proof.
  unfold clamp.
  destruct (Q.max_spec (-1) (Qmin 1 x)) as [[H1 E1]|[H1 E1]];
    destruct (Q.min_spec 1 x) as [[H2 E2]|[H2 E2]];
    destruct (Q.max_spec (-1) (Qmin 1 (- x))) as [[H3 E3]|[H3 E3]];
    destruct (Q.min_spec 1 (- x)) as [[H4 E4]|[H4 E4]]; lra.
Qed.

Lemma clamp_high (x : Q) : (1 <= x)%Q -> (clamp x == 1)%Q.
Proof.
  intros H. unfold clamp.
  destruct (Q.max_spec (-1) (Qmin 1 x)) as [[H1 E1]|[H1 E1]];
    destruct (Q.min_spec 1 x) as [[H2 E2]|[H2 E2]]; lra.
Qed.

Lemma clamp_low (x : Q) : (x <= -1)%Q -> (clamp x == -1)%Q.
Proof.
  intros H. unfold clamp.
  destruct (Q.max_spec (-1) (Qmin 1 x)) as [[H1 E1]|[H1 E1]];
    destruct (Q.min_spec 1 x) as [[H2 E2]|[H2 E2]]; lra.
Qed.

(** The 16-bit integer stored for a sample. *)
Lemma quantise_range (x : Q) :
  (-32767 <= ToInteger (clamp x * 32767) <= 32767)%Z.
Proof.
  destruct (clamp_range x) as [Lo Hi].
  assert (ToInteger (-32767) <= ToInteger (clamp x * 32767))%Z
    by (apply ToInteger_mono; lra).
  assert (ToInteger (clamp x * 32767) <= ToInteger 32767)%Z
    by (apply ToInteger_mono; lra).
  change (ToInteger (-32767)) with (-32767)%Z in *.
  change (ToInteger 32767) with 32767%Z in *. lia.
Qed.

(** X19.  The 16-bit value [bufferToWAV] stores for a sample lies
    between -32767 and 32767 (-32768 is never written); it is 32767 for
    every sample at or above 1, -32767 at or below -1, 0 for samples
    below 1/32767 in absolute value; it is monotone in the sample and
    odd (the value stored for -x is the opposite of that for x). *)
Theorem bufferToWAV_quantiser (buffer : AudioBuffer) (file : list Z) :
  well_formed buffer -> bufferToWAV buffer = Some file ->
  forall (channel i : nat) (data : list Q) (x : Q),
    channelData buffer !! channel = Some data -> data !! i = Some x ->
    let stored c j := getInt16 (44 + (j * numberOfChannels buffer + c) * 2) file in
    (-32767 <= stored channel i <= 32767)%Z
    /\ ((1 <= x)%Q -> stored channel i = 32767%Z)
    /\ ((x <= -1)%Q -> stored channel i = (-32767)%Z)
    /\ ((- (1 # 32767) < x < 1 # 32767)%Q -> stored channel i = 0%Z)
    /\ forall (channel' i' : nat) (data' : list Q) (y : Q),
         channelData buffer !! channel' = Some data' -> data' !! i' = Some y ->
         ((x <= y)%Q -> (stored channel i <= stored channel' i')%Z)
         /\ ((y == - x)%Q -> stored channel' i' = (- stored channel i)%Z).
Proof.
  intros Hwf Hfile channel i data x Hc Hi stored.
  rewrite bufferToWAV_layout in Hfile. injection Hfile as <-.
  assert (forall c j d z, channelData buffer !! c = Some d -> d !! j = Some z ->
            stored c j = ToInteger (clamp z * 32767)) as St.
  { intros c j d z Hd Hz.
    exact (proj1 (stored_sample buffer c j d z Hwf Hd Hz)). }
  rewrite (St _ _ _ _ Hc Hi).
  split; [apply quantise_range|].
  split.
  { intros Hx. rewrite (ToInteger_eq _ 32767); [reflexivity|].
    rewrite (clamp_high x Hx). reflexivity. }
  split.
  { intros Hx. rewrite (ToInteger_eq _ (-32767)); [reflexivity|].
    rewrite (clamp_low x Hx). reflexivity. }
  split.
  { intros [Hlo Hhi].
    assert (clamp x == x)%Q as Ecl by (apply clamp_inside; lra).
    rewrite (ToInteger_eq _ (x * 32767)) by (now rewrite Ecl).
    apply Z.le_antisymm.
    - destruct (Qlt_le_dec x 0) as [N|P].
      + change 0%Z with (ToInteger 0). apply ToInteger_mono. lra.
      + rewrite ToInteger_nonneg by lra.
        assert (Qfloor (x * 32767) < 1)%Z
          by (apply Qfloor_below; change (inject_Z 1) with 1%Q; lra).
        pose proof (Qfloor_resp_le 0 (x * 32767) ltac:(lra)) as F0.
        change (Qfloor 0) with 0%Z in F0. lia.
    - destruct (Qlt_le_dec x 0) as [N|P].
      + rewrite ToInteger_neg by lra.
        assert (Qfloor (- (x * 32767)) < 1)%Z
          by (apply Qfloor_below; change (inject_Z 1) with 1%Q; lra).
        lia.
      + change 0%Z with (ToInteger 0). apply ToInteger_mono. lra. }
  intros channel' i' data' y Hc' Hi'. rewrite (St _ _ _ _ Hc' Hi'). split.
  - intros Hxy. apply ToInteger_mono. pose proof (clamp_mono x y Hxy). lra.
  - intros Hy. rewrite <- ToInteger_opp. apply ToInteger_eq.
    assert (clamp y == clamp (- x))%Q as ->.
    { unfold clamp. now rewrite Hy. }
    rewrite clamp_opp. lra.
Qed.

Lemma bufferToWAV_quantiser_witness :
  (-32767 <= getInt16 (44 + (1 * 2 + 0) * 2) (wav_header two_frames ++ wav_data two_frames) <= 32767)%Z.
Proof.
  refine (proj1 (bufferToWAV_quantiser two_frames _ _ (bufferToWAV_layout two_frames)
                   0%nat 1%nat [1 # 2; -3 # 2]%Q (-3 # 2)%Q eq_refl eq_refl)).
  split; [reflexivity|]. repeat constructor.
Defined.



End Quantiser.

Section SamplePackFacts.
Import Pitch PitchSpec PitchTests SamplePack.
Local Open Scope R_scope.

Ltac tabulated_at octave offset value semitones below :=
  exists (IZR octave * 12 + offset); repeat split; try lra;
  apply (equal_tempered_bounds _ (value - 0.006) (value + 0.006) semitones below);
  simpl; lra.

(** Every entry of [noteMap] is the equal-tempered frequency of its
    note, to within 0.006 Hz (E5 is off by 0.0051 Hz). *)
Lemma noteMap_accuracy (note : string) (v : R) :
  own_get noteMap note = Some v ->
  exists i, pitch_index note = Some i /\ 36 <= i <= 83 /\ 130 <= v
            /\ v - 0.006 <= equal_tempered i <= v + 0.006.
Proof.
  intros H. apply own_get_In in H. simpl in H.
  repeat (destruct H as [H|H]; [injection H as <- <-|]); [..|contradiction].
  - tabulated_at 3%Z 0 130.81 21%nat true.
  - tabulated_at 3%Z 2 146.83 19%nat true.
  - tabulated_at 3%Z 4 164.81 17%nat true.
  - tabulated_at 3%Z 5 174.61 16%nat true.
  - tabulated_at 3%Z 7 196.00 14%nat true.
  - tabulated_at 3%Z 9 220.00 12%nat true.
  - tabulated_at 3%Z 11 246.94 10%nat true.
  - tabulated_at 4%Z 0 261.63 9%nat true.
  - tabulated_at 4%Z 2 293.66 7%nat true.
  - tabulated_at 4%Z 4 329.63 5%nat true.
  - tabulated_at 4%Z 5 349.23 4%nat true.
  - tabulated_at 4%Z 7 392.00 2%nat true.
  - tabulated_at 4%Z 9 440.00 0%nat false.
  - tabulated_at 4%Z 11 493.88 2%nat false.
  - tabulated_at 5%Z 0 523.25 3%nat false.
  - tabulated_at 5%Z 2 587.33 5%nat false.
  - tabulated_at 5%Z 4 659.25 7%nat false.
  - tabulated_at 5%Z 5 698.46 8%nat false.
  - tabulated_at 5%Z 7 783.99 10%nat false.
  - tabulated_at 5%Z 9 880.00 12%nat false.
  - tabulated_at 5%Z 11 987.77 14%nat false.
  - tabulated_at 6%Z 0 1046.50 15%nat false.
  - tabulated_at 6%Z 2 1174.66 17%nat false.
  - tabulated_at 6%Z 4 1318.51 19%nat false.
  - tabulated_at 6%Z 5 1396.91 20%nat false.
  - tabulated_at 6%Z 7 1567.98 22%nat false.
  - tabulated_at 6%Z 9 1760.00 24%nat false.
  - tabulated_at 6%Z 11 1975.53 26%nat false.
Qed.

(** Where both tables have a key they hold the same number. *)
Lemma noteMap_agrees_table (note : string) (v w : R) :
  own_get noteMap note = Some v -> own_get simpleNoteMap note = Some w -> v = w.
Proof.
  intros Hv Hw. apply own_get_In in Hv. simpl in Hv.
  repeat (destruct Hv as [Hv|Hv];
          [injection Hv as <- <-; cbn in Hw;
           first [discriminate Hw | now injection Hw as <-]|]).
  contradiction.
Qed.

Lemma noteMap_requested (noteName : string) (octave : N) :
  In noteName ["C"; "D"; "E"; "F"; "G"; "A"; "B"] ->
  In octave [3; 4; 5; 6]%N ->
  exists v, own_get noteMap (noteWithOctave noteName octave) = Some v.
Proof.
  intros Hn Ho. simpl in Hn, Ho.
  repeat (destruct Hn as [<-|Hn]; [|]);
    try contradiction;
    repeat (destruct Ho as [<-|Ho]; [eexists; reflexivity|]); contradiction.
Qed.

(** X21.  [WAVGenerator.noteToFrequency] has a table for the natural
    notes of octaves 3 to 6, all of which are in it.  For a name of the
    table it returns the table value, which is within 0.006 Hz of equal
    temperament and of the engine's [noteToFrequency]; for any other
    name it returns 440, unless the name is inherited from
    [Object.prototype], in which case it returns that property. *)
Theorem sample_noteToFrequency_spec (note : string) :
  (forall v, own_get noteMap note = Some v ->
     SamplePack.noteToFrequency note = JNum v
     /\ exists i f, pitch_index note = Some i
          /\ Rabs (v - equal_tempered i) <= 0.006
          /\ Pitch.noteToFrequency note = JNum f /\ Rabs (v - f) <= 0.006)
  /\ (own_get noteMap note = None -> inherited note = false ->
      SamplePack.noteToFrequency note = JNum 440)
  /\ (inherited note = true -> SamplePack.noteToFrequency note = JInherited note)
  /\ (forall noteName octave,
        In noteName ["C"; "D"; "E"; "F"; "G"; "A"; "B"] ->
        In octave [3; 4; 5; 6]%N ->
        note = noteWithOctave noteName octave ->
        own_get noteMap note <> None).
Proof.
  split; [|split; [|split]].
  - intros v Hv.
    destruct (noteMap_accuracy _ _ Hv) as (i & Hpi & _ & Hlo & Hacc).
    split.
    + unfold SamplePack.noteToFrequency, js_get. rewrite Hv.
      now rewrite truthy_nonzero by lra.
    + exists i.
      destruct (noteToFrequency_valid _ _ Hpi)
        as (f & Hf & [[_ ->]|(Ht & _)]).
      * exists (equal_tempered i).
        assert (Rabs (v - equal_tempered i) <= 0.006) by (apply Rabs_le; lra).
        repeat split; assumption.
      * exists f. unfold tabulated in Ht.
        destruct (own_get simpleNoteMap note) as [w|] eqn:Hw; [|contradiction].
        pose proof (noteMap_agrees_table _ _ _ Hv Hw) as <-.
        assert (f = v) as ->.
        { unfold Pitch.noteToFrequency, js_get in Hf. rewrite Hw in Hf.
          rewrite truthy_nonzero in Hf by lra. now injection Hf. }
        repeat split; try assumption; apply Rabs_le; lra.
  - intros Hn Hi. unfold SamplePack.noteToFrequency, js_get. now rewrite Hn, Hi.
  - intros Hi. pose proof (inherited_long note Hi) as Hlen.
    assert (own_get noteMap note = None) as Hn.
    { destruct (own_get noteMap note) as [v|] eqn:E; [|reflexivity].
      apply own_get_In in E. simpl in E.
      repeat (destruct E as [E|E]; [injection E as <- <-; simpl in Hlen; lia|]).
      contradiction. }
    unfold SamplePack.noteToFrequency, js_get. now rewrite Hn, Hi.
  - intros noteName octave Hn Ho ->.
    destruct (noteMap_requested _ _ Hn Ho) as [v ->]. discriminate.
Qed.

(** The generator and the engine disagree on every sharp: the generator
    falls back to 440 Hz. *)
Example sample_noteToFrequency_sharp :
  SamplePack.noteToFrequency "C#4" = JNum 440
  /\ own_get simpleNoteMap "C#4" = Some 277.18.
Proof. split; reflexivity. Qed.

End SamplePackFacts.

(* ===================================================================== *)
(** * The pressure-sensitive button                                     *)
(* ===================================================================== *)

Section PressureFacts.
Import Graph Engine EngineSpec PressureButton.
Local Open Scope R_scope.

Lemma clamp_bounds (p : props) (x : R) :
  minPressure p <= maxPressure p ->
  minPressure p <= PressureButton.clamp p x <= maxPressure p.
Proof.
  intros H. unfold PressureButton.clamp.
  unfold Rmax, Rmin. repeat destruct (Rle_dec _ _); lra.
Qed.

Lemma or_half_nonneg (v : option R) :
  (forall f, v = Some f -> 0 <= f) -> 0 <= or_half v.
Proof.
  intros H. unfold or_half. destruct v as [r|]; [|lra].
  destruct (Req_dec_T r 0); [lra | now apply H].
Qed.

(** A number computed by [calculatePressure] went through the clamp. *)
Lemma calculatePressure_clamped (p : props) (event : pointer_event)
      (now startTime : N) (startPos : R * R) (r : R) :
  minPressure p <= maxPressure p ->
  calculatePressure p event now startTime startPos = JNum r ->
  minPressure p <= r <= maxPressure p.
Proof.
  intros Hmm. unfold calculatePressure.
  destruct (match event with
            | TouchEvent [] => _ | TouchEvent (_ :: _) => _
            | MouseEvent _ _ _ => _ end) as [currentPos force].
  cbv zeta. destruct (pressureCurve p);
    repeat match goal with
           | |- context [if ?c then _ else _] => destruct c
           end;
    intros [= <-]; try (now apply clamp_bounds); lra.
Qed.

(** X22.  Whenever [calculatePressure] returns a number it lies
    between [minPressure] and [maxPressure]; and it does return a number
    (never NaN) when [minPressure] is not negative, the clock did not go
    backwards since the press, and the device reports no negative
    force. *)
Theorem calculatePressure_range (p : props) (event : pointer_event)
        (now startTime : N) (startPos : R * R) :
  minPressure p <= maxPressure p ->
  (forall r, calculatePressure p event now startTime startPos = JNum r ->
             minPressure p <= r <= maxPressure p)
  /\ (0 <= minPressure p -> (startTime <= now)%N -> device_force_nonneg event ->
      exists r, calculatePressure p event now startTime startPos = JNum r
                /\ minPressure p <= r <= maxPressure p).
Proof.
  intros Hmm.
  assert (forall r, calculatePressure p event now startTime startPos = JNum r ->
                    minPressure p <= r <= maxPressure p) as Hrange
      by (intros r; now apply calculatePressure_clamped).
  split; [exact Hrange|]. intros Hmin Htime Hforce.
  assert (exists r, calculatePressure p event now startTime startPos = JNum r)
    as [r Hr].
  { unfold calculatePressure.
    assert (0 <= IZR (Z.of_N now - Z.of_N startTime)) as Hd
        by (apply IZR_le; lia).
    set (duration := IZR (Z.of_N now - Z.of_N startTime)) in *.
    assert (exists currentPos force,
              match event with
              | TouchEvent [] => (0, 0, 0)
              | TouchEvent (touch :: _) =>
                  ((fst (fst touch), snd (fst touch)), or_half (snd touch))
              | MouseEvent x y pressure => (x, y, or_half pressure)
              end = (currentPos, force) /\ 0 <= force)
      as (currentPos & force & -> & Hf).
    { destruct event as [[|touch rest]|x y pressure]; do 2 eexists;
        (split; [reflexivity|]); [lra|..]; now apply or_half_nonneg. }
    cbv zeta.
    set (distance := sqrt _).
    assert (0 <= Rmin (duration / 500) 1 * 0.3) as H1.
    { unfold Rmin. destruct (Rle_dec _ _); lra. }
    assert (0 <= Rmax 0 (1 - distance / 50) * 0.3) as H2.
    { unfold Rmax. destruct (Rle_dec _ _); lra. }
    destruct (pressureCurve p);
      repeat match goal with
             | |- context [if ?c then _ else _] => destruct c
             end; try (eexists; reflexivity); lra. }
  exists r. split; [exact Hr | now apply Hrange].
Qed.

Lemma calculatePressure_range_witness :
  exists r,
    calculatePressure default_props (MouseEvent 10 10 None) 250 0 (10, 10)
    = JNum r
    /\ minPressure default_props <= r <= maxPressure default_props.
Proof.
  refine (proj2 (calculatePressure_range default_props (MouseEvent 10 10 None)
                   250 0 (10, 10) _) _ _ _).
  - cbn. lra.
  - cbn. lra.
  - discriminate.
  - cbn. discriminate.
Defined.

(** X23.  With the pressure range 0.1 to 1.0 that the keyboard and the
    drum pads configure, a pressure computed by [calculatePressure]
    passes the clamp of [modulateSustainedNote] unchanged: the gain is
    set to pressure x baseVolume x layer.volume, and the cutoff lies
    between 580 and 4000 Hz. *)
Theorem pressure_passes_engine_clamp (p : props) (event : pointer_event)
        (now startTime : N) (startPos : R * R) (pressure : R)
        (e : engine) (noteId : string) (note : SustainedNote)
        (layer : AudioLayer) :
  minPressure p = 0.1 -> maxPressure p = 1.0 ->
  calculatePressure p event now startTime startPos = JNum pressure ->
  sustainedNotes e !! noteId = Some note ->
  layers e !! layerId note = Some layer ->
  chain_wired e note ->
  let e' := modulateSustainedNote noteId pressure e in
  gain_of e' note = Some (pressure * baseVolume note * volume layer)
  /\ exists c, cutoff_of e' note = Some c /\ 580 <= c <= 4000.
Proof.
  intros Hmin Hmax Hp Hn Hl [Hg Hc] e'.
  destruct (calculatePressure_clamped p event now startTime startPos pressure
              ltac:(lra) Hp) as [Lo Hi].
  rewrite Hmin in Lo. rewrite Hmax in Hi.
  destruct (modulate_registered e noteId pressure note layer Hn Hl)
    as (_ & _ & _ & G & C & _).
  split.
  - unfold e'. rewrite (G Hg). do 3 f_equal.
    rewrite Rmin_right by lra. now rewrite Rmax_right by lra.
  - eexists. split; [exact (C Hc)|]. lra.
Qed.

Lemma pressure_passes_engine_clamp_witness :
  exists pressure,
    calculatePressure (mkProps 1.0 0.1 linear) (MouseEvent 10 10 None) 250 0
                      (10, 10) = JNum pressure
    /\ gain_of (modulateSustainedNote "piano-A4-0" pressure held_A4)
               (mkSustained 0 1 2 3 "piano" (0.6 * 0.4)
                            (Pitch.noteToFrequency "A4"))
       = Some (pressure * (0.6 * 0.4) * 0.6).
Proof.
  eexists. split; [reflexivity|].
  refine (proj1 (pressure_passes_engine_clamp
                   (mkProps 1.0 0.1 linear) (MouseEvent 10 10 None) 250 0
                   (10, 10) _ held_A4 "piano-A4-0" _ piano
                   eq_refl eq_refl eq_refl held_A4_entry eq_refl _)).
  split; eexists; reflexivity.
Defined.

Lemma far_from_origin (startPos : R * R) :
  2500 <= fst startPos ^ 2 + snd startPos ^ 2 ->
  Rmax 0 (1 - sqrt ((0 - fst startPos) ^ 2 + (0 - snd startPos) ^ 2) / 50) = 0.
Proof.
  intros H. apply Rmax_left.
  assert (50 <= sqrt ((0 - fst startPos) ^ 2 + (0 - snd startPos) ^ 2)) as S.
  { rewrite <- (sqrt_square 50) at 1 by lra. apply sqrt_le_1_alt. nra. }
  lra.
Qed.

Lemma monitor_raw (p : props) (now startTime : N) (startPos : R * R) :
  2500 <= fst startPos ^ 2 + snd startPos ^ 2 ->
  let raw := Rmin (IZR (Z.of_N now - Z.of_N startTime) / 500) 1 * 0.3
             + 0.2 + minPressure p in
  monitorPressure p now startTime startPos
  = match pressureCurve p with
    | exponential =>
        if Rlt_dec raw 0 then JNaN
        else if Req_dec_T raw 0 then JNum (PressureButton.clamp p 0)
        else JNum (PressureButton.clamp p (Rpower raw 1.5))
    | logarithmic =>
        if Rlt_dec (raw + 1) 0 then JNaN
        else if Req_dec_T (raw + 1) 0 then JNum (minPressure p)
        else JNum (PressureButton.clamp p (ln (raw + 1) / ln 2))
    | linear => JNum (PressureButton.clamp p raw)
    end.
Proof.
  intros H raw. unfold monitorPressure, calculatePressure. cbv zeta.
  cbn [fst snd or_half]. rewrite (far_from_origin startPos H).
  replace (Rmin (IZR (Z.of_N now - Z.of_N startTime) / 500) 1 * 0.3 + 0 * 0.3
           + 0.5 * 0.4 + minPressure p) with raw by (unfold raw; lra).
  reflexivity.
Qed.

Lemma three_halves_bound : Rpower 0.6 1.5 <= 0.47.
Proof.
  assert (0 < Rpower 0.6 1.5) as P by (unfold Rpower; apply exp_pos).
  destruct (Rle_or_lt (Rpower 0.6 1.5) 0.47) as [|L]; [assumption|].
  assert (Rpower (Rpower 0.6 1.5) 2 = 0.6 ^ 3) as E.
  { rewrite Rpower_mult. replace (1.5 * 2) with (INR 3) by (simpl; lra).
    apply Rpower_pow. lra. }
  assert (Rpower (Rpower 0.6 1.5) 2 = Rpower 0.6 1.5 * Rpower 0.6 1.5) as E2.
  { replace 2 with (INR 2) at 1 by (simpl; lra).
    rewrite Rpower_pow by assumption. simpl. ring. }
  nra.
Qed.

Lemma log2_bound : ln 1.6 / ln 2 <= 0.68.
Proof.
  assert (0 < ln 2) as L2 by (pose proof ln_lt_2; lra).
  apply Rmult_le_reg_r with (ln 2); [assumption|].
  replace (ln 1.6 / ln 2 * ln 2) with (ln 1.6) by (field; lra).
  apply Rmult_le_reg_l with 25; [lra|].
  replace (25 * ln 1.6) with (INR 25 * ln 1.6) by (simpl; lra).
  replace (25 * (0.68 * ln 2)) with (INR 17 * ln 2) by (simpl; lra).
  rewrite <- !ln_pow by lra. left. apply ln_increasing; [|simpl; lra].
  apply pow_lt. lra.
Qed.

(** X24.  [monitorPressure] hands [calculatePressure] a fresh mouse
    event, at position (0, 0) and without pressure.  For a button
    pressed 50 pixels or more from the origin of the viewport, the
    monitored pressure therefore depends on the hold time only and is
    constant from 500 ms on; with the range 0.1 to 1.0 it never exceeds
    0.6 on a linear curve, 0.47 on the exponential one and 0.68 on the
    logarithmic one. *)
Theorem monitorPressure_time_only (p : props) (now startTime : N)
        (startPos : R * R) :
  (startTime <= now)%N ->
  2500 <= fst startPos ^ 2 + snd startPos ^ 2 ->
  (forall (now' : N) (startPos' : R * R),
      (startTime + 500 <= now)%N -> (startTime + 500 <= now')%N ->
      2500 <= fst startPos' ^ 2 + snd startPos' ^ 2 ->
      monitorPressure p now' startTime startPos'
      = monitorPressure p now startTime startPos)
  /\ (minPressure p = 0.1 -> maxPressure p = 1.0 ->
      exists r, monitorPressure p now startTime startPos = JNum r
                /\ 0.1 <= r
                /\ r <= match pressureCurve p with
                        | linear => 0.6
                        | exponential => 0.47
                        | logarithmic => 0.68
                        end).
Proof.
  intros Ht Hfar. split.
  - intros now' startPos' H1 H2 Hfar'.
    rewrite !monitor_raw by assumption. cbv zeta.
    assert (forall t : N, (startTime + 500 <= t)%N ->
              Rmin (IZR (Z.of_N t - Z.of_N startTime) / 500) 1 = 1) as K.
    { intros t Hle. apply Rmin_right.
      assert (IZR 500 <= IZR (Z.of_N t - Z.of_N startTime))
        by (apply IZR_le; lia). lra. }
    now rewrite (K now H1), (K now' H2).
  - intros Hmin Hmax. rewrite monitor_raw by assumption. cbv zeta.
    assert (0 <= Rmin (IZR (Z.of_N now - Z.of_N startTime) / 500) 1 <= 1)
      as [D0 D1].
    { assert (0 <= IZR (Z.of_N now - Z.of_N startTime)) by (apply IZR_le; lia).
      unfold Rmin. destruct (Rle_dec _ _); lra. }
    rewrite Hmin.
    set (raw := Rmin (IZR (Z.of_N now - Z.of_N startTime) / 500) 1 * 0.3
                + 0.2 + 0.1).
    assert (0.3 <= raw <= 0.6) as [R0 R1] by (unfold raw; lra).
    assert (forall x, 0.1 <= PressureButton.clamp p x) as Clo.
    { intros x. unfold PressureButton.clamp. rewrite Hmin.
      apply Rmax_l. }
    assert (forall x b, x <= b -> 0.1 <= b -> PressureButton.clamp p x <= b)
      as Chi.
    { intros x b Hx Hb. unfold PressureButton.clamp. rewrite Hmin, Hmax.
      apply Rmax_lub; [lra|].
      apply Rle_trans with x; [apply Rmin_r | assumption]. }
    destruct (pressureCurve p).
    + eexists. split; [reflexivity|]. split; [apply Clo | apply Chi; lra].
    + destruct (Rlt_dec raw 0); [lra|]. destruct (Req_dec_T raw 0); [lra|].
      eexists. split; [reflexivity|]. split; [apply Clo|].
      apply Chi; [|lra].
      apply Rle_trans with (Rpower 0.6 1.5); [|apply three_halves_bound].
      apply Rle_Rpower_l; lra.
    + destruct (Rlt_dec (raw + 1) 0); [lra|].
      destruct (Req_dec_T (raw + 1) 0); [lra|].
      eexists. split; [reflexivity|]. split; [apply Clo|].
      apply Chi; [|lra].
      apply Rle_trans with (ln 1.6 / ln 2); [|apply log2_bound].
      assert (0 < ln 2) as L2 by (pose proof ln_lt_2; lra).
      apply Rmult_le_compat_r; [left; now apply Rinv_0_lt_compat|].
      destruct (Req_dec_T (raw + 1) 1.6) as [->|Hne]; [lra|].
      left. apply ln_increasing; lra.
Qed.

Lemma monitorPressure_time_only_witness :
  exists r,
    monitorPressure (mkProps 1.0 0.1 logarithmic) 300 0 (400, 300) = JNum r
    /\ 0.1 <= r /\ r <= 0.68.
Proof.
  refine (proj2 (monitorPressure_time_only (mkProps 1.0 0.1 logarithmic)
                   300 0 (400, 300) _ _) eq_refl eq_refl).
  - discriminate.
  - cbn. lra.
Defined.

End PressureFacts.
